(** * Company Intelligence Platform: a shallow embedding of the core

    The development follows the Python sources module by module:

    - [Py]           the few Python notions the code leans on (exceptions,
                     truthiness, [str.lower]/[str.upper], [in] on strings,
                     the builtin [min]/[max]/[round] on floats);
    - [DataSources]  [app/data_sources.py]: the TTL cache and the news adapter;
    - [Enrichment]   [app/llm_enrichment.py]: the analysis call and its
                     keyword fallback;
    - [Database]     [app/database.py] over the tables of [app/models.py];
    - [Pipeline]     [app/pipeline.py]: the six-step run;
    - [Aggregates], [Batch], [Api]  the average sentiment of a company,
                     [run_batch_pipeline], and the two handlers of
                     [app/main.py] that start a run and report on it.

    The definitions come first; [Scenarios] holds the concrete inputs of the
    examples; the theorems follow in [PyFacts], [CacheFacts],
    [EnrichmentFacts], [NewsFacts], [DatabaseFacts] and [PipelineFacts], and
    then in [QueryFacts], [FallbackFacts], [CleaningFacts], [RunFacts],
    [BatchFacts], [NewsCacheFacts] and [ApiFacts].

    Conventions.  A [datetime] is an integer number of microseconds (the
    resolution of Python's [datetime]), a [timedelta] likewise.  A Python
    [float] that the code only adds, compares, clamps and rounds is an exact
    rational; binary rounding error is not modelled.  A [str] is a string of
    bytes, and case conversion acts on the ASCII letters.  A function that can
    raise returns an [outcome]; a function that touches module-level or session
    state takes that state and returns it.  Only instances of [Exception] are
    modelled (what [except Exception] catches). *)

From Stdlib Require Import ZArith QArith Qround Qabs Qminmax Lia Lqa String Ascii Bool.
From stdpp Require Import base gmap strings list fin_maps pretty sorting.

Close Scope Q_scope.

(** ** Python preliminaries *)

Module Py.

(** An instance of [Exception]: its class name and the text [str(e)] gives. *)
Record exn := Exn { exn_class : string; exn_msg : string }.

Definition str (e : exn) : string := exn_msg e.

Inductive outcome (A : Type) : Type :=
| Ok (a : A)
| Raise (e : exn).
Arguments Ok {A} a.
Arguments Raise {A} e.

Definition is_ok {A} (r : outcome A) : bool :=
  match r with Ok _ => true | Raise _ => false end.

(** [timedelta(seconds=n)] and [timedelta(days=n)], in microseconds. *)
Definition seconds (n : Z) : Z := (n * 1000000)%Z.
Definition days (n : Z) : Z := (n * 86400 * 1000000)%Z.

(** Truthiness of a [str], and of a value that is a [str] or [None]. *)
Definition truthy_str (s : string) : bool := negb (String.eqb s "").

Definition truthy_opt (o : option string) : bool :=
  match o with Some s => truthy_str s | None => false end.

(** [str.lower] and [str.upper]. *)
Definition lower_ascii (a : ascii) : ascii :=
  let n := nat_of_ascii a in
  if (65 <=? n) && (n <=? 90) then ascii_of_nat (n + 32) else a.

Definition upper_ascii (a : ascii) : ascii :=
  let n := nat_of_ascii a in
  if (97 <=? n) && (n <=? 122) then ascii_of_nat (n - 32) else a.

Fixpoint lower (s : string) : string :=
  match s with
  | EmptyString => EmptyString
  | String a s' => String (lower_ascii a) (lower s')
  end.

Fixpoint upper (s : string) : string :=
  match s with
  | EmptyString => EmptyString
  | String a s' => String (upper_ascii a) (upper s')
  end.

(** [needle in hay] on strings: [needle] occurs as a substring. *)
Fixpoint str_in (needle hay : string) : bool :=
  String.prefix needle hay ||
  match hay with
  | EmptyString => false
  | String _ hay' => str_in needle hay'
  end.

(** [s[:n]] *)
Fixpoint str_take (n : nat) (s : string) : string :=
  match n, s with
  | S n', String a s' => String a (str_take n' s')
  | _, _ => EmptyString
  end.

(** A Python [float]: a finite number, an infinity or a NaN. *)
Inductive pyfloat :=
| Finite (q : Q)
| PosInf
| NegInf
| NaN.

Definition Qltb (x y : Q) : bool := negb (Qle_bool y x).

(** [a < b] on floats: false as soon as a NaN is involved. *)
Definition float_lt (a b : pyfloat) : bool :=
  match a, b with
  | NaN, _ | _, NaN => false
  | Finite x, Finite y => Qltb x y
  | NegInf, NegInf => false
  | NegInf, _ => true
  | _, NegInf => false
  | PosInf, _ => false
  | Finite _, PosInf => true
  end.

(** The builtins [min(a, b)] and [max(a, b)]: the first argument is kept
    unless the second is strictly smaller (larger). *)
Definition py_min (a b : pyfloat) : pyfloat := if float_lt b a then b else a.
Definition py_max (a b : pyfloat) : pyfloat := if float_lt a b then b else a.

(** [max(-1.0, min(1.0, x))], which is always a finite number
    (see [clamp_score_is_max_min] below). *)
Definition clamp_score (x : pyfloat) : Q :=
  match x with
  | Finite q => if Qltb q 1 then (if Qltb (-1) q then q else (-1)%Q) else 1%Q
  | PosInf => 1%Q
  | NegInf => (-1)%Q
  | NaN => 1%Q
  end.

(** [round(x)] to the nearest integer, ties to the even one. *)
Definition round_half_even (x : Q) : Z :=
  let f := Qfloor x in
  match Qcompare (x - inject_Z f) (1 # 2) with
  | Lt => f
  | Gt => (f + 1)%Z
  | Eq => if Z.even f then f else (f + 1)%Z
  end.

(** [round(x, ndigits)] *)
Definition py_round (x : Q) (ndigits : nat) : Q :=
  let p := inject_Z (10 ^ Z.of_nat ndigits) in
  (inject_Z (round_half_even (x * p)) / p)%Q.

(** A value held in a company dict or in a column of a company row: [None],
    a [str], a [float] or a [datetime]. *)
Inductive pyval :=
| PNone
| PStr (s : string)
| PNum (x : Q)
| PTime (t : Z).

Definition is_none (v : pyval) : bool :=
  match v with PNone => true | _ => false end.

#[export] Instance Q_eq_dec : EqDecision Q.
Proof. solve_decision. Defined.

#[export] Instance pyval_eq_dec : EqDecision pyval.
Proof. solve_decision. Defined.

(** Sequencing of calls that may raise. *)
#[export] Instance outcome_ret : MRet outcome := λ A a, Ok a.
#[export] Instance outcome_bind : MBind outcome :=
  λ A B f r, match r with Ok a => f a | Raise e => Raise e end.

End Py.

Import Py.

(** ** app/data_sources.py *)

Module DataSources.

(** *** The in-memory cache ([_cache], [_get_cached], [_set_cache])

    [_cache] is a module-level dict from key to [(data, timestamp)].  Both
    functions take the dict and the clock reading [utcnow]; [_get_cached]
    hands the dict back so that a theorem can say what it did to it. *)

Section Cache.

Context {V : Type}.

Definition CACHE_TTL : Z := 300.

Definition _get_cached (_cache : gmap string (V * Z)) (utcnow : Z) (key : string)
  : gmap string (V * Z) * option V :=
  match _cache !! key with
  | Some (data, timestamp) =>
      if (utcnow - timestamp <? seconds CACHE_TTL)%Z
      then (_cache, Some data)
      else (_cache, None)
  | None => (_cache, None)
  end.

Definition _set_cache (_cache : gmap string (V * Z)) (utcnow : Z) (key : string)
  (data : V) : gmap string (V * Z) :=
  <[key := (data, utcnow)]> _cache.

(** A history of calls on the cache, each with the clock reading at which it
    is made. *)
Inductive cache_call :=
| CallSet (key : string) (data : V)
| CallGet (key : string).

Definition do_call (_cache : gmap string (V * Z)) (c : Z * cache_call)
  : gmap string (V * Z) :=
  match c with
  | (t, CallSet key data) => _set_cache _cache t key data
  | (t, CallGet key) => (_get_cached _cache t key).1
  end.

Definition do_calls (_cache : gmap string (V * Z)) (cs : list (Z * cache_call))
  : gmap string (V * Z) :=
  fold_left do_call cs _cache.

(** The most recent [set] for [key] in a history, with its time: the one the
    specification's "elapsed time since insertion" refers to. *)
Fixpoint latest_set (key : string) (cs : list (Z * cache_call))
  (seen : option (V * Z)) : option (V * Z) :=
  match cs with
  | [] => seen
  | (t, CallSet k data) :: cs' =>
      latest_set key cs' (if decide (k = key) then Some (data, t) else seen)
  | (_, CallGet _) :: cs' => latest_set key cs' seen
  end.

End Cache.

(** *** News articles

    The dict both news paths build for one article: always the same six keys,
    a value being [None] where the provider sent null. *)
Module Article.
Record t := Make {
  title : option string;
  source : option string;
  author : option string;
  url : option string;
  published_at : option Z;
  content : option string;
}.
End Article.

(** [_get_mock_news(company_name, symbol)].  The function reads the clock once
    per article; [utcnow i] is its [i]-th reading during the call. *)
Definition _get_mock_news (utcnow : nat → Z) (company_name symbol : string)
  : list Article.t :=
  [ Article.Make
      (Some (company_name +:+ " Reports Strong Q4 Earnings, Beats Analyst Expectations"))
      (Some "Financial Times")
      (Some "Market Reporter")
      (Some ("https://example.com/news/" +:+ lower symbol +:+ "-earnings"))
      (Some (utcnow 0%nat - days 1)%Z)
      (Some (company_name +:+ " announced quarterly earnings that exceeded Wall Street expectations. Revenue grew 15% year-over-year, driven by strong demand in core business segments. The company also raised its full-year guidance, citing improved market conditions and successful cost optimization initiatives."));
    Article.Make
      (Some (company_name +:+ " Announces New AI-Powered Product Line"))
      (Some "TechCrunch")
      (Some "Tech Editor")
      (Some ("https://example.com/news/" +:+ lower symbol +:+ "-ai-product"))
      (Some (utcnow 1%nat - days 3)%Z)
      (Some ("In a move to strengthen its competitive position, " +:+ company_name +:+ " unveiled a new suite of AI-powered products today. The company's CEO stated that this represents a significant investment in emerging technologies and positions the firm for long-term growth in the rapidly evolving market landscape."));
    Article.Make
      (Some ("Analysts Upgrade " +:+ company_name +:+ " Following Market Expansion"))
      (Some "Bloomberg")
      (Some "Senior Analyst")
      (Some ("https://example.com/news/" +:+ lower symbol +:+ "-upgrade"))
      (Some (utcnow 2%nat - days 5)%Z)
      (Some ("Several major investment banks have upgraded their rating on " +:+ company_name +:+ " stock following the company's successful expansion into Asian markets. Analysts cite strong execution and favorable regulatory environment as key factors. Price targets have been raised by an average of 12%."));
    Article.Make
      (Some (company_name +:+ " Faces Regulatory Scrutiny Over Data Practices"))
      (Some "Reuters")
      (Some "Legal Correspondent")
      (Some ("https://example.com/news/" +:+ lower symbol +:+ "-regulatory"))
      (Some (utcnow 3%nat - days 2)%Z)
      (Some ("Regulators have opened an inquiry into " +:+ company_name +:+ "'s data handling practices. While the company maintains it operates in full compliance with all applicable laws, investors are watching closely. Legal experts suggest the investigation could take several months to conclude."));
    Article.Make
      (Some (company_name +:+ " CEO Discusses Future Strategy in Investor Call"))
      (Some "CNBC")
      (Some "Business Reporter")
      (Some ("https://example.com/news/" +:+ lower symbol +:+ "-strategy"))
      (Some (utcnow 4%nat - days 4)%Z)
      (Some ("During the latest investor call, " +:+ company_name +:+ "'s leadership outlined ambitious plans for the coming year. Key initiatives include expanding digital capabilities, pursuing strategic acquisitions, and increasing R&D spending by 20%. Management expressed confidence in achieving double-digit growth.")) ].

(** Two articles that agree on everything but the publication time. *)
Definition same_text (a b : Article.t) : Prop :=
  Article.title a = Article.title b
  ∧ Article.source a = Article.source b
  ∧ Article.author a = Article.author b
  ∧ Article.url a = Article.url b
  ∧ Article.content a = Article.content b.

(** The decoded reply of NewsAPI's [/everything]: its [status] field and its
    articles, already brought to the six-key schema. *)
Record news_response := {
  resp_status : option string;
  resp_articles : list Article.t;
}.

Section News.

(** The environment variable, and the HTTP exchange: query string, [from] and
    [to] dates, page size; [Raise] stands for any exception of the request or
    of the decoding. *)
Variable NEWS_API_KEY : string.
Variable newsapi_everything : string → Z → Z → Z → outcome news_response.

Definition dquote : string := String (ascii_of_nat 34) EmptyString.

(** [fetch_news_articles(company_name, symbol, days, max_articles)], with the
    cache it may consult and the clock readings [utcnow 0], [utcnow 1], ... of
    this call. *)
Definition fetch_news_articles (_cache : gmap string (list Article.t * Z))
  (utcnow : nat → Z) (company_name symbol : string) (days_ max_articles : Z)
  : gmap string (list Article.t * Z) * list Article.t :=
  if negb (truthy_str NEWS_API_KEY) then
    (_cache, _get_mock_news utcnow company_name symbol)
  else
    let cache_key := "news_" +:+ symbol +:+ "_" +:+ pretty days_ in
    let '(_cache, cached) := _get_cached _cache (utcnow 0) cache_key in
    match cached with
    | Some (a :: l) => (_cache, a :: l)
    | _ =>
        let to_date := utcnow 1 in
        let from_date := (to_date - days days_)%Z in
        let query :=
          dquote +:+ company_name +:+ dquote +:+ " OR " +:+ dquote +:+ symbol +:+ dquote in
        let later i := utcnow (2 + i) in
        match newsapi_everything query from_date to_date max_articles with
        | Ok data =>
            if bool_decide (resp_status data = Some "ok") then
              let result_ := resp_articles data in
              (_set_cache _cache (utcnow 2) cache_key result_, result_)
            else (_cache, _get_mock_news later company_name symbol)
        | Raise _ => (_cache, _get_mock_news later company_name symbol)
        end
    end.

End News.

End DataSources.

(** ** app/llm_enrichment.py *)

Module Enrichment.
Import DataSources.

(** A value decoded by [json.loads]. *)
#[warnings="-register-all"]
Inductive json :=
| JNull
| JBool (b : bool)
| JNum (x : pyfloat)
| JStr (s : string)
| JArr (items : list json)
| JObj (members : list (string * json)).

(** [d.get(key)] on the dict built from an object's members, a later member
    overriding an earlier one of the same name. *)
Fixpoint members_get (key : string) (members : list (string * json)) : option json :=
  match members with
  | [] => None
  | (k, v) :: rest =>
      match members_get key rest with
      | Some v' => Some v'
      | None => if String.eqb k key then Some v else None
      end
  end.

Definition get_or (members : list (string * json)) (key : string) (default : json)
  : json :=
  match members_get key members with Some v => v | None => default end.

(** The dict an enrichment call returns, as [update_article_enrichment] reads
    it.  [key_insights] is [None] when the key is missing. *)
Record enrichment := {
  sentiment_score : Q;
  sentiment_label : string;
  classification : string;
  market_impact : string;
  key_insights : option json;
}.

(** *** The keyword fallback ([_mock_enrich_article]) *)

Definition positive_keywords : list string :=
  ["growth"; "beats"; "exceeds"; "upgrade"; "strong"; "success"; "innovation"; "profit"].

Definition negative_keywords : list string :=
  ["loss"; "decline"; "scrutiny"; "investigation"; "concern"; "risk"; "lawsuit"; "miss"].

(** [sum(1 for word in words if word in title)] *)
Definition sum_present (words : list string) (title : string) : nat :=
  fold_left (λ acc word, if str_in word title then acc + 1 else acc) words 0.

(** Keyword-presence counting, in the specification's words: how many words
    of the set occur in the text (a word occurring twice counts once). *)
Definition presence_count (words : list string) (text : string) : nat :=
  length (List.filter (λ word, str_in word text) words).

(** [any(word in title for word in words)] *)
Definition any_present (words : list string) (title : string) : bool :=
  existsb (λ word, str_in word title) words.

(** The [if]/[elif]/[else] on the two counts: score before clamping, and label. *)
Definition keyword_sentiment (positive_count negative_count : nat) : Q * string :=
  if negative_count <? positive_count then
    ((0.3 + inject_Z (Z.of_nat positive_count) * 0.1)%Q, "positive")
  else if positive_count <? negative_count then
    ((- 0.3 - inject_Z (Z.of_nat negative_count) * 0.1)%Q, "negative")
  else (0%Q, "neutral").

(** The chain of [any(...)] tests, first match first. *)
Definition keyword_classification (title : string) : string :=
  if any_present ["earnings"; "revenue"; "profit"; "quarter"] title then "earnings"
  else if any_present ["product"; "launch"; "announce"; "innovation"] title then "product"
  else if any_present ["lawsuit"; "legal"; "regulatory"; "investigation"] title then "legal"
  else if any_present ["ceo"; "executive"; "leadership"; "management"] title then "executive"
  else if any_present ["market"; "stock"; "analyst"; "upgrade"] title then "market"
  else "other".

(** [_mock_enrich_article(article)].  Both [article.get(..., "")] return the
    stored value when the key is there, [None] included, and [+] on [None]
    raises. *)
Definition _mock_enrich_article (article : Article.t) : outcome enrichment :=
  match Article.title article, Article.content article with
  | None, _ =>
      Raise (Exn "TypeError" "unsupported operand type(s) for +: 'NoneType' and 'str'")
  | Some _, None =>
      Raise (Exn "TypeError" "can only concatenate str (not 'NoneType') to str")
  | Some t, Some c =>
      let title := lower (t +:+ " " +:+ c) in
      let positive_count := sum_present positive_keywords title in
      let negative_count := sum_present negative_keywords title in
      let sentiment := keyword_sentiment positive_count negative_count in
      let sentiment_score := clamp_score (Finite sentiment.1) in
      let classification := keyword_classification title in
      Ok {| sentiment_score := py_round sentiment_score 2;
            sentiment_label := sentiment.2;
            classification := classification;
            market_impact := "medium";
            key_insights := Some (JObj
              [ ("summary", JStr ("Article discusses " +:+ classification +:+ " developments."));
                ("risks", JArr [JStr "Market volatility"]);
                ("opportunities", JArr [JStr "Potential growth areas"]);
                ("action_items", JArr [JStr "Monitor for updates"]) ]) |}
  end.

(** *** The analysis call ([enrich_news_article]) *)

Section Service.

(** The credential, whether the [anthropic] package can be imported, and the
    service itself: [analysis_reply article company_name] is what
    [client.messages.create] answers to the prompt built from the article and
    the company name, carried through [response.content[0].text], the removal
    of a Markdown fence and [json.loads]; [Raise] stands for any exception on
    the way, [JSONDecodeError] included.  [float_of_str s] is [float(s)] for a
    [str], [None] when it raises [ValueError]. *)
Variable ANTHROPIC_API_KEY : string.
Variable anthropic_installed : bool.
Variable analysis_reply : Article.t → pyval → outcome json.
Variable float_of_str : string → option pyfloat.

Definition _get_anthropic_client : option unit :=
  if negb (truthy_str ANTHROPIC_API_KEY) then None
  else if anthropic_installed then Some tt
  else None.

(** [float(v)] *)
Definition py_float (v : json) : outcome pyfloat :=
  match v with
  | JNum x => Ok x
  | JBool b => Ok (Finite (if b then 1 else 0))
  | JStr s =>
      match float_of_str s with
      | Some x => Ok x
      | None => Raise (Exn "ValueError" "could not convert string to float")
      end
  | JNull | JArr _ | JObj _ =>
      Raise (Exn "TypeError" "float() argument must be a string or a real number")
  end.

(** [v.lower()] *)
Definition py_lower (v : json) : outcome string :=
  match v with
  | JStr s => Ok (lower s)
  | _ => Raise (Exn "AttributeError" "object has no attribute 'lower'")
  end.

(** The "validate and normalize" lines on the decoded reply. *)
Definition normalize (parsed : json) : outcome enrichment :=
  match parsed with
  | JObj members =>
      x ← py_float (get_or members "sentiment_score" (JNum (Finite 0)));
      label ← py_lower (get_or members "sentiment_label" (JStr "neutral"));
      class ← py_lower (get_or members "classification" (JStr "other"));
      impact ← py_lower (get_or members "market_impact" (JStr "medium"));
      Ok {| sentiment_score := clamp_score x;
            sentiment_label := label;
            classification := class;
            market_impact := impact;
            key_insights :=
              match members_get "key_insights" members with
              | Some JNull | None => None
              | Some v => Some v
              end |}
  | _ => Raise (Exn "AttributeError" "object has no attribute 'get'")
  end.

Definition enrich_news_article (article : Article.t) (company_name : pyval)
  : outcome enrichment :=
  match _get_anthropic_client with
  | None => _mock_enrich_article article
  | Some _ =>
      match analysis_reply article company_name ≫= normalize with
      | Ok result_ => Ok result_
      | Raise _ => _mock_enrich_article article
      end
  end.

End Service.

End Enrichment.

(** ** app/models.py and app/database.py *)

Module Database.
Import DataSources Enrichment.

(** *** Tables ([app/models.py])

    A company row holds, per column, the value last assigned to it; [PNone] is
    NULL.  The conversions of the storage engine between column types are
    outside the model. *)
Module CompanyDB.
Record t := Make {
  symbol : pyval;
  name : pyval;
  sector : pyval;
  industry : pyval;
  description : pyval;
  market_cap : pyval;
  pe_ratio : pyval;
  dividend_yield : pyval;
  fifty_two_week_high : pyval;
  fifty_two_week_low : pyval;
  enriched_summary : pyval;
  created_at : pyval;
  updated_at : pyval;
}.
End CompanyDB.

Inductive column :=
| C_symbol
| C_name
| C_sector
| C_industry
| C_description
| C_market_cap
| C_pe_ratio
| C_dividend_yield
| C_fifty_two_week_high
| C_fifty_two_week_low
| C_enriched_summary
| C_created_at
| C_updated_at.

#[export] Instance column_eq_dec : EqDecision column.
Proof. solve_decision. Defined.

Definition column_name (c : column) : string :=
  match c with
  | C_symbol => "symbol"
  | C_name => "name"
  | C_sector => "sector"
  | C_industry => "industry"
  | C_description => "description"
  | C_market_cap => "market_cap"
  | C_pe_ratio => "pe_ratio"
  | C_dividend_yield => "dividend_yield"
  | C_fifty_two_week_high => "fifty_two_week_high"
  | C_fifty_two_week_low => "fifty_two_week_low"
  | C_enriched_summary => "enriched_summary"
  | C_created_at => "created_at"
  | C_updated_at => "updated_at"
  end.

Definition all_columns : list column :=
  [C_symbol; C_name; C_sector; C_industry; C_description; C_market_cap; C_pe_ratio; C_dividend_yield; C_fifty_two_week_high; C_fifty_two_week_low; C_enriched_summary; C_created_at; C_updated_at].

(** [hasattr(existing, key)], for keys that name a column or no attribute at
    all (the relationships and the mapper's own attributes are left out). *)
Definition column_of (key : string) : option column :=
  find (λ c, String.eqb (column_name c) key) all_columns.

Definition getattr (r : CompanyDB.t) (c : column) : pyval :=
  match c with
  | C_symbol => CompanyDB.symbol r
  | C_name => CompanyDB.name r
  | C_sector => CompanyDB.sector r
  | C_industry => CompanyDB.industry r
  | C_description => CompanyDB.description r
  | C_market_cap => CompanyDB.market_cap r
  | C_pe_ratio => CompanyDB.pe_ratio r
  | C_dividend_yield => CompanyDB.dividend_yield r
  | C_fifty_two_week_high => CompanyDB.fifty_two_week_high r
  | C_fifty_two_week_low => CompanyDB.fifty_two_week_low r
  | C_enriched_summary => CompanyDB.enriched_summary r
  | C_created_at => CompanyDB.created_at r
  | C_updated_at => CompanyDB.updated_at r
  end.

Definition setattr (r : CompanyDB.t) (c : column) (v : pyval) : CompanyDB.t :=
  match c with
  | C_symbol =>
      CompanyDB.Make v (CompanyDB.name r) (CompanyDB.sector r) (CompanyDB.industry r) (CompanyDB.description r) (CompanyDB.market_cap r) (CompanyDB.pe_ratio r) (CompanyDB.dividend_yield r) (CompanyDB.fifty_two_week_high r) (CompanyDB.fifty_two_week_low r) (CompanyDB.enriched_summary r) (CompanyDB.created_at r) (CompanyDB.updated_at r)
  | C_name =>
      CompanyDB.Make (CompanyDB.symbol r) v (CompanyDB.sector r) (CompanyDB.industry r) (CompanyDB.description r) (CompanyDB.market_cap r) (CompanyDB.pe_ratio r) (CompanyDB.dividend_yield r) (CompanyDB.fifty_two_week_high r) (CompanyDB.fifty_two_week_low r) (CompanyDB.enriched_summary r) (CompanyDB.created_at r) (CompanyDB.updated_at r)
  | C_sector =>
      CompanyDB.Make (CompanyDB.symbol r) (CompanyDB.name r) v (CompanyDB.industry r) (CompanyDB.description r) (CompanyDB.market_cap r) (CompanyDB.pe_ratio r) (CompanyDB.dividend_yield r) (CompanyDB.fifty_two_week_high r) (CompanyDB.fifty_two_week_low r) (CompanyDB.enriched_summary r) (CompanyDB.created_at r) (CompanyDB.updated_at r)
  | C_industry =>
      CompanyDB.Make (CompanyDB.symbol r) (CompanyDB.name r) (CompanyDB.sector r) v (CompanyDB.description r) (CompanyDB.market_cap r) (CompanyDB.pe_ratio r) (CompanyDB.dividend_yield r) (CompanyDB.fifty_two_week_high r) (CompanyDB.fifty_two_week_low r) (CompanyDB.enriched_summary r) (CompanyDB.created_at r) (CompanyDB.updated_at r)
  | C_description =>
      CompanyDB.Make (CompanyDB.symbol r) (CompanyDB.name r) (CompanyDB.sector r) (CompanyDB.industry r) v (CompanyDB.market_cap r) (CompanyDB.pe_ratio r) (CompanyDB.dividend_yield r) (CompanyDB.fifty_two_week_high r) (CompanyDB.fifty_two_week_low r) (CompanyDB.enriched_summary r) (CompanyDB.created_at r) (CompanyDB.updated_at r)
  | C_market_cap =>
      CompanyDB.Make (CompanyDB.symbol r) (CompanyDB.name r) (CompanyDB.sector r) (CompanyDB.industry r) (CompanyDB.description r) v (CompanyDB.pe_ratio r) (CompanyDB.dividend_yield r) (CompanyDB.fifty_two_week_high r) (CompanyDB.fifty_two_week_low r) (CompanyDB.enriched_summary r) (CompanyDB.created_at r) (CompanyDB.updated_at r)
  | C_pe_ratio =>
      CompanyDB.Make (CompanyDB.symbol r) (CompanyDB.name r) (CompanyDB.sector r) (CompanyDB.industry r) (CompanyDB.description r) (CompanyDB.market_cap r) v (CompanyDB.dividend_yield r) (CompanyDB.fifty_two_week_high r) (CompanyDB.fifty_two_week_low r) (CompanyDB.enriched_summary r) (CompanyDB.created_at r) (CompanyDB.updated_at r)
  | C_dividend_yield =>
      CompanyDB.Make (CompanyDB.symbol r) (CompanyDB.name r) (CompanyDB.sector r) (CompanyDB.industry r) (CompanyDB.description r) (CompanyDB.market_cap r) (CompanyDB.pe_ratio r) v (CompanyDB.fifty_two_week_high r) (CompanyDB.fifty_two_week_low r) (CompanyDB.enriched_summary r) (CompanyDB.created_at r) (CompanyDB.updated_at r)
  | C_fifty_two_week_high =>
      CompanyDB.Make (CompanyDB.symbol r) (CompanyDB.name r) (CompanyDB.sector r) (CompanyDB.industry r) (CompanyDB.description r) (CompanyDB.market_cap r) (CompanyDB.pe_ratio r) (CompanyDB.dividend_yield r) v (CompanyDB.fifty_two_week_low r) (CompanyDB.enriched_summary r) (CompanyDB.created_at r) (CompanyDB.updated_at r)
  | C_fifty_two_week_low =>
      CompanyDB.Make (CompanyDB.symbol r) (CompanyDB.name r) (CompanyDB.sector r) (CompanyDB.industry r) (CompanyDB.description r) (CompanyDB.market_cap r) (CompanyDB.pe_ratio r) (CompanyDB.dividend_yield r) (CompanyDB.fifty_two_week_high r) v (CompanyDB.enriched_summary r) (CompanyDB.created_at r) (CompanyDB.updated_at r)
  | C_enriched_summary =>
      CompanyDB.Make (CompanyDB.symbol r) (CompanyDB.name r) (CompanyDB.sector r) (CompanyDB.industry r) (CompanyDB.description r) (CompanyDB.market_cap r) (CompanyDB.pe_ratio r) (CompanyDB.dividend_yield r) (CompanyDB.fifty_two_week_high r) (CompanyDB.fifty_two_week_low r) v (CompanyDB.created_at r) (CompanyDB.updated_at r)
  | C_created_at =>
      CompanyDB.Make (CompanyDB.symbol r) (CompanyDB.name r) (CompanyDB.sector r) (CompanyDB.industry r) (CompanyDB.description r) (CompanyDB.market_cap r) (CompanyDB.pe_ratio r) (CompanyDB.dividend_yield r) (CompanyDB.fifty_two_week_high r) (CompanyDB.fifty_two_week_low r) (CompanyDB.enriched_summary r) v (CompanyDB.updated_at r)
  | C_updated_at =>
      CompanyDB.Make (CompanyDB.symbol r) (CompanyDB.name r) (CompanyDB.sector r) (CompanyDB.industry r) (CompanyDB.description r) (CompanyDB.market_cap r) (CompanyDB.pe_ratio r) (CompanyDB.dividend_yield r) (CompanyDB.fifty_two_week_high r) (CompanyDB.fifty_two_week_low r) (CompanyDB.enriched_summary r) (CompanyDB.created_at r) v
  end.

(** One dict of [fetch_stock_data]'s list. *)
Module StockRecord.
Record t := Make {
  date : Z;
  open_price : option Q;
  high_price : option Q;
  low_price : option Q;
  close_price : option Q;
  volume : option Z;
}.
End StockRecord.

Module StockDataDB.
Record t := Make {
  id : nat;
  symbol : string;
  date : Z;
  open_price : option Q;
  high_price : option Q;
  low_price : option Q;
  close_price : option Q;
  volume : option Z;
}.
End StockDataDB.

Module NewsArticleDB.
Record t := Make {
  id : nat;
  symbol : string;
  title : string;
  source : option string;
  author : option string;
  url : option string;
  published_at : option Z;
  content : option string;
  sentiment_score : option Q;
  sentiment_label : option string;
  classification : option string;
  key_insights : option json;
  market_impact : option string;
  enriched_at : option Z;
}.
End NewsArticleDB.

(** The three tables, each in storage order.  Every function of this module
    commits before it returns, so between calls the session holds nothing
    that the tables do not. *)
Record db := Db {
  companies : list CompanyDB.t;
  stock_data : list StockDataDB.t;
  news_articles : list NewsArticleDB.t;
}.

Definition empty_db : db :=
  {| companies := []; stock_data := []; news_articles := [] |}.

(** The next value of an autoincremented integer key. *)
Definition next_id {A} (id : A → nat) (rows : list A) : nat :=
  S (fold_right (λ r m, Nat.max (id r) m) 0 rows).

(** Replace the first row that satisfies [p], as a commit does for the row
    [.first()] returned. *)
Fixpoint replace_first {A} (p : A → bool) (new : A) (rows : list A) : list A :=
  match rows with
  | [] => []
  | r :: rows' => if p r then new :: rows' else r :: replace_first p new rows'
  end.

(** A stable sort by insertion: [x] goes before the first [y] with [leb x y]. *)
Fixpoint insert_sorted {A} (leb : A → A → bool) (x : A) (l : list A) : list A :=
  match l with
  | [] => [x]
  | y :: l' => if leb x y then x :: l else y :: insert_sorted leb x l'
  end.

Definition stable_sort {A} (leb : A → A → bool) (l : list A) : list A :=
  fold_right (insert_sorted leb) [] l.

(** *** Company queries *)

Definition symbol_is (s : string) (r : CompanyDB.t) : bool :=
  match CompanyDB.symbol r with
  | PStr x => String.eqb x s
  | _ => false
  end.

Definition get_company (d : db) (symbol : string) : option CompanyDB.t :=
  find (symbol_is (upper symbol)) (companies d).

(** [ORDER BY] on a column: NULL first, then numbers, then text; text is
    compared byte by byte. *)
Definition sql_rank (v : pyval) : nat :=
  match v with PNone => 0 | PNum _ => 1 | PTime _ => 2 | PStr _ => 3 end.

Definition sql_leb (a b : pyval) : bool :=
  match a, b with
  | PNum x, PNum y => Qle_bool x y
  | PTime x, PTime y => (x <=? y)%Z
  | PStr x, PStr y => String.leb x y
  | _, _ => sql_rank a <=? sql_rank b
  end.

Definition get_all_companies (d : db) : list CompanyDB.t :=
  stable_sort (λ a b, sql_leb (CompanyDB.name a) (CompanyDB.name b)) (companies d).

(** [company_data.get("symbol", "").upper()] *)
Definition payload_symbol (company_data : gmap string pyval) : outcome string :=
  match company_data !! "symbol" with
  | None => Ok (upper "")
  | Some (PStr s) => Ok (upper s)
  | Some _ => Raise (Exn "AttributeError" "object has no attribute 'upper'")
  end.

(** The loop of the update branch: every item of the dict whose key is an
    attribute and whose value is not [None] is assigned. *)
Definition assign_items (existing : CompanyDB.t) (company_data : gmap string pyval)
  : CompanyDB.t :=
  map_fold
    (λ key value row,
       match column_of key with
       | Some c => if is_none value then row else setattr row c value
       | None => row
       end)
    existing company_data.

(** What the specification asks of the update: per column, the incoming value
    when there is one and it is not null, the stored value otherwise. *)
Definition merged (existing : CompanyDB.t) (company_data : gmap string pyval)
  (c : column) : pyval :=
  match company_data !! column_name c with
  | Some v => if is_none v then getattr existing c else v
  | None => getattr existing c
  end.

(** [CompanyDB( **company_data)]: a key that is no attribute is refused; the
    two timestamps take their default when they are not given. *)
Definition construct (company_data : gmap string pyval) (utcnow : Z)
  : outcome CompanyDB.t :=
  if map_fold (λ key _ ok, ok && bool_decide (is_Some (column_of key))) true company_data
  then
    let field c := default PNone (company_data !! column_name c) in
    let stamp c := if is_none (field c) then PTime utcnow else field c in
    Ok (CompanyDB.Make
          (field C_symbol) (field C_name) (field C_sector) (field C_industry)
          (field C_description) (field C_market_cap) (field C_pe_ratio)
          (field C_dividend_yield) (field C_fifty_two_week_high)
          (field C_fifty_two_week_low) (field C_enriched_summary)
          (stamp C_created_at) (stamp C_updated_at))
  else Raise (Exn "TypeError" "invalid keyword argument for CompanyDB").

Definition has_symbol (v : pyval) (rows : list CompanyDB.t) : bool :=
  existsb (λ r, bool_decide (CompanyDB.symbol r = v)) rows.

(** [upsert_company(db, company_data)] at clock reading [utcnow].  The commit
    fails with [IntegrityError] when it would leave two rows with one primary
    key, a row without primary key, or a row without name. *)
Definition upsert_company (d : db) (utcnow : Z) (company_data : gmap string pyval)
  : outcome (db * CompanyDB.t) :=
  symbol ← payload_symbol company_data;
  match get_company d symbol with
  | Some existing =>
      let existing' :=
        setattr (assign_items existing company_data) C_updated_at (PTime utcnow) in
      let others := replace_first (symbol_is (upper symbol)) existing' (companies d) in
      if bool_decide (CompanyDB.symbol existing' ≠ CompanyDB.symbol existing)
         && has_symbol (CompanyDB.symbol existing') (companies d)
      then Raise (Exn "IntegrityError" "UNIQUE constraint failed: companies.symbol")
      else
        Ok ({| companies := others;
               stock_data := stock_data d;
               news_articles := news_articles d |}, existing')
  | None =>
      company ← construct company_data utcnow;
      if is_none (CompanyDB.symbol company) then
        Raise (Exn "FlushError" "instance has a NULL identity key")
      else if is_none (CompanyDB.name company) then
        Raise (Exn "IntegrityError" "NOT NULL constraint failed: companies.name")
      else if has_symbol (CompanyDB.symbol company) (companies d) then
        Raise (Exn "IntegrityError" "UNIQUE constraint failed: companies.symbol")
      else
        Ok ({| companies := companies d ++ [company];
               stock_data := stock_data d;
               news_articles := news_articles d |}, company)
  end.

(** *** Stock data queries *)

Definition stock_row (id : nat) (symbol : string) (record : StockRecord.t)
  : StockDataDB.t :=
  StockDataDB.Make id symbol (StockRecord.date record)
    (StockRecord.open_price record) (StockRecord.high_price record)
    (StockRecord.low_price record) (StockRecord.close_price record)
    (StockRecord.volume record).

(** The query of the loop: the first stored row for this symbol and date. *)
Definition stock_on (d : db) (symbol : string) (date : Z) : option StockDataDB.t :=
  find (λ r, String.eqb (StockDataDB.symbol r) symbol
             && (StockDataDB.date r =? date)%Z)
       (stock_data d).

(** Rows added to the session get their key when they are flushed, in the
    order they were added. *)
Fixpoint flush_stock (rows : list StockDataDB.t) (symbol : string)
  (pending : list StockRecord.t) : list StockDataDB.t :=
  match pending with
  | [] => rows
  | record :: pending' =>
      flush_stock (rows ++ [stock_row (next_id StockDataDB.id rows) symbol record])
        symbol pending'
  end.

(** [add_stock_data(db, symbol, stock_records)].  The session is made with
    [autoflush=False]: the query inside the loop reads the table as stored,
    and the rows the loop has added so far are pending until the one
    [db.commit()] after it. *)
Definition add_stock_data (d : db) (symbol : string) (stock_records : list StockRecord.t)
  : db * nat :=
  let symbol := upper symbol in
  let '(pending, count) :=
    fold_left
      (λ '(pending, count) record,
         match stock_on d symbol (StockRecord.date record) with
         | Some _ => (pending, count)
         | None => (pending ++ [record], count + 1)
         end)
      stock_records ([], 0) in
  ({| companies := companies d;
      stock_data := flush_stock (stock_data d) symbol pending;
      news_articles := news_articles d |}, count).

Definition get_recent_stock_data (d : db) (symbol : string) (limit : nat)
  : list StockDataDB.t :=
  take limit
    (stable_sort (λ a b, (StockDataDB.date b <=? StockDataDB.date a)%Z)
       (List.filter (λ r, String.eqb (StockDataDB.symbol r) (upper symbol))
          (stock_data d))).

(** *** News article queries *)

Definition news_row (id : nat) (symbol title : string) (article_data : Article.t)
  : NewsArticleDB.t :=
  NewsArticleDB.Make id symbol title
    (Article.source article_data) (Article.author article_data)
    (Article.url article_data) (Article.published_at article_data)
    (Article.content article_data)
    None None None None None None.

Definition url_is (u : option string) (r : NewsArticleDB.t) : bool :=
  bool_decide (NewsArticleDB.url r = u).

(** [add_news_article(db, symbol, article_data)].  The insert fails on a
    missing title, which the table declares [nullable=False]. *)
Definition add_news_article (d : db) (symbol : string) (article_data : Article.t)
  : outcome (db * NewsArticleDB.t) :=
  let existing :=
    if truthy_opt (Article.url article_data)
    then find (url_is (Article.url article_data)) (news_articles d)
    else None in
  match existing with
  | Some existing => Ok (d, existing)
  | None =>
      match Article.title article_data with
      | None =>
          Raise (Exn "IntegrityError" "NOT NULL constraint failed: news_articles.title")
      | Some title =>
          let article :=
            news_row (next_id NewsArticleDB.id (news_articles d)) (upper symbol)
              title article_data in
          Ok ({| companies := companies d;
                 stock_data := stock_data d;
                 news_articles := news_articles d ++ [article] |}, article)
      end
  end.

Definition get_unenriched_articles (d : db) (symbol : option string)
  : list NewsArticleDB.t :=
  List.filter
    (λ r, bool_decide (NewsArticleDB.enriched_at r = None)
          && match symbol with
             | Some s =>
                 if truthy_str s then String.eqb (NewsArticleDB.symbol r) (upper s)
                 else true
             | None => true
             end)
    (news_articles d).

Definition enriched_row (r : NewsArticleDB.t) (e : enrichment) (utcnow : Z)
  : NewsArticleDB.t :=
  NewsArticleDB.Make (NewsArticleDB.id r) (NewsArticleDB.symbol r)
    (NewsArticleDB.title r) (NewsArticleDB.source r) (NewsArticleDB.author r)
    (NewsArticleDB.url r) (NewsArticleDB.published_at r) (NewsArticleDB.content r)
    (Some (sentiment_score e)) (Some (sentiment_label e))
    (Some (classification e)) (key_insights e) (Some (market_impact e))
    (Some utcnow).

(** [update_article_enrichment(db, article_id, enrichment)] *)
Definition update_article_enrichment (d : db) (utcnow : Z) (article_id : nat)
  (e : enrichment) : db :=
  match find (λ r, NewsArticleDB.id r =? article_id) (news_articles d) with
  | Some article =>
      {| companies := companies d;
         stock_data := stock_data d;
         news_articles :=
           replace_first (λ r, NewsArticleDB.id r =? article_id)
             (enriched_row article e utcnow) (news_articles d) |}
  | None => d
  end.

(** [ORDER BY published_at DESC]: NULL sorts last; rows with equal times stay
    in storage order (the engine promises no order among them). *)
Definition newer_first (a b : NewsArticleDB.t) : bool :=
  match NewsArticleDB.published_at a, NewsArticleDB.published_at b with
  | _, None => true
  | None, Some _ => false
  | Some x, Some y => (y <=? x)%Z
  end.

Definition get_company_news (d : db) (symbol : string) (limit : nat)
  : list NewsArticleDB.t :=
  take limit
    (stable_sort newer_first
       (List.filter (λ r, String.eqb (NewsArticleDB.symbol r) (upper symbol))
          (news_articles d))).

(** *** Aggregation queries *)

Module Insight.
Record t := Make {
  symbol : string;
  company_name : pyval;
  avg_sentiment : Q;
  article_count : nat;
  recent_classifications : list string;
  top_insight : option json;
}.
End Insight.

Definition Qsum (l : list Q) : Q := fold_left Qplus l 0%Q.

(** [a for a in articles if a.sentiment_score is not None] *)
Definition enriched_only (articles : list NewsArticleDB.t) : list NewsArticleDB.t :=
  List.filter (λ a, bool_decide (is_Some (NewsArticleDB.sentiment_score a))) articles.

Definition scores (articles : list NewsArticleDB.t) : list Q :=
  omap NewsArticleDB.sentiment_score articles.

(** The summary of the first article whose impact is high and whose insights
    are a dict with a summary. *)
Fixpoint most_impactful (articles : list NewsArticleDB.t) : option json :=
  match articles with
  | [] => None
  | article :: rest =>
      match NewsArticleDB.key_insights article, NewsArticleDB.market_impact article with
      | Some (JObj members), Some impact =>
          if String.eqb impact "high" then
            match members_get "summary" members with
            | Some summary => Some summary
            | None => most_impactful rest
            end
          else most_impactful rest
      | _, _ => most_impactful rest
      end
  end.

(** The entry of one company, when its ten most recent articles include an
    enriched one.  [list(set(...))] is taken in order of first occurrence (a
    set promises no order).  The mean and its rounding are exact here; the
    code computes both in binary floating point, which can move the reported
    value by one unit of the third decimal when the exact mean lies at a
    rounding boundary.  The statements about [avg_sentiment] are those that
    hold either way: an interval it lies in, its distance to the mean, the
    order of the entries. *)
Definition company_insight (d : db) (symbol : string) (company : CompanyDB.t)
  : option Insight.t :=
  let articles := get_company_news d symbol 10 in
  let enriched_articles := enriched_only articles in
  match enriched_articles with
  | [] => None
  | _ :: _ =>
      let avg_sentiment :=
        (Qsum (scores enriched_articles)
         / inject_Z (Z.of_nat (length enriched_articles)))%Q in
      let classifications :=
        remove_dups
          (List.filter truthy_str (omap NewsArticleDB.classification enriched_articles)) in
      Some (Insight.Make symbol (CompanyDB.name company)
              (py_round avg_sentiment 3) (length enriched_articles)
              (take 5 classifications) (most_impactful enriched_articles))
  end.

(** [sorted(insights, key=lambda x: abs(x["avg_sentiment"]), reverse=True)] *)
Definition more_polarized (x y : Insight.t) : bool :=
  Qle_bool (Qabs (Insight.avg_sentiment y)) (Qabs (Insight.avg_sentiment x)).

(** The loop of [get_all_insights] over the companies. *)
Fixpoint collect_insights (d : db) (cs : list CompanyDB.t) : outcome (list Insight.t) :=
  match cs with
  | [] => Ok []
  | company :: cs' =>
      match CompanyDB.symbol company with
      | PStr symbol =>
          insights ← collect_insights d cs';
          Ok (match company_insight d symbol company with
              | Some i => i :: insights
              | None => insights
              end)
      | _ => Raise (Exn "AttributeError" "object has no attribute 'upper'")
      end
  end.

(** [get_all_insights(db)] *)
Definition get_all_insights (d : db) : outcome (list Insight.t) :=
  insights ← collect_insights d (get_all_companies d);
  Ok (stable_sort more_polarized insights).

(** *** Histories of calls

    A call on the persistence layer, with the clock reading it is made at
    where it reads the clock.  A call that raises leaves the store as it was. *)
Inductive db_call :=
| CallUpsert (utcnow : Z) (company_data : gmap string pyval)
| CallAddStock (symbol : string) (stock_records : list StockRecord.t)
| CallAddNews (symbol : string) (article_data : Article.t)
| CallEnrich (utcnow : Z) (article_id : nat) (e : enrichment).

Definition do_db_call (d : db) (c : db_call) : db :=
  match c with
  | CallUpsert utcnow company_data =>
      match upsert_company d utcnow company_data with
      | Ok (d', _) => d'
      | Raise _ => d
      end
  | CallAddStock symbol stock_records => (add_stock_data d symbol stock_records).1
  | CallAddNews symbol article_data =>
      match add_news_article d symbol article_data with
      | Ok (d', _) => d'
      | Raise _ => d
      end
  | CallEnrich utcnow article_id e => update_article_enrichment d utcnow article_id e
  end.

Definition do_db_calls (d : db) (cs : list db_call) : db := fold_left do_db_call cs d.

(** The natural keys of the specification: (symbol, date) of a stock row, and
    the URL of a news row when it has one that is not empty. *)
Definition stock_key (r : StockDataDB.t) : string * Z :=
  (StockDataDB.symbol r, StockDataDB.date r).

Definition keyed_url (r : NewsArticleDB.t) : option string :=
  match NewsArticleDB.url r with
  | Some u => if truthy_str u then Some u else None
  | None => None
  end.

(** A batch of stock records that names every date once, as the time series
    of the stock adapter does. *)
Definition distinct_dates (c : db_call) : Prop :=
  match c with
  | CallAddStock _ stock_records => NoDup (map StockRecord.date stock_records)
  | _ => True
  end.

(** The records of a batch that the loop of [add_stock_data] keeps: those
    whose date has no stored row for the symbol. *)
Definition wanted (d : db) (symbol : string) (record : StockRecord.t) : bool :=
  bool_decide (stock_on d symbol (StockRecord.date record) = None).

(** The two deduplication invariants of the store. *)
Definition deduplicated (d : db) : Prop :=
  NoDup (map stock_key (stock_data d)) ∧ NoDup (omap keyed_url (news_articles d)).


(** *** The aggregation, in the specification's words *)

(** The enriched ones among the ten most recent articles of a company. *)
Definition recent_enriched (d : db) (symbol : string) : list NewsArticleDB.t :=
  enriched_only (get_company_news d symbol 10).


(** The entry of a stored company, if it gets one. *)
Definition entry (d : db) (company : CompanyDB.t) : option Insight.t :=
  match CompanyDB.symbol company with
  | PStr symbol => company_insight d symbol company
  | _ => None
  end.


(** *** Notions for the statements about stored articles *)

(** The store after the writes for one item: the article is added (or found),
    and enriched when there is an enrichment. *)
Definition written (d1 : db) (row : NewsArticleDB.t) (enrichment_ : option enrichment)
  (t : Z) : db :=
  match enrichment_ with
  | Some e => update_article_enrichment d1 t (NewsArticleDB.id row) e
  | None => d1
  end.

(** No stored article has the URL [u]. *)
Definition url_absent (u : option string) (d : db) : Prop :=
  find (url_is u) (Database.news_articles d) = None.

(** The row is stored, and it is the only one with its key. *)
Definition row_kept (row : NewsArticleDB.t) (d : db) : Prop :=
  row ∈ Database.news_articles d
  ∧ ∀ r, r ∈ Database.news_articles d → NewsArticleDB.id r = NewsArticleDB.id row → r = row.

(** Some stored article has the URL [u]. *)
Definition url_stored (u : option string) (d : db) : Prop :=
  ∃ r, r ∈ Database.news_articles d ∧ NewsArticleDB.url r = u.

End Database.

(** ** app/pipeline.py *)

Module Pipeline.
Import DataSources Enrichment Database.

(** The options dict.  The pipeline reads every option with a default
    ([self.options.get(key, default)]); the record holds, per key, the value
    that read gives. *)
Record options := {
  fetch_stock : bool;
  fetch_news : bool;
  enrich_with_llm : bool;
  stock_days : Z;
  news_days : Z;
  max_articles : Z;
}.

Definition default_options : options :=
  {| fetch_stock := true; fetch_news := true; enrich_with_llm := true;
     stock_days := 30; news_days := 7; max_articles := 10 |}.

Module PipelineResult.
Record t := Make {
  status : string;
  symbol : string;
  steps_completed : list string;
  current_step : option string;
  error : option string;
  started_at : Z;
  completed_at : option Z;
  articles_ingested : nat;
  articles_enriched : nat;
  stock_records_added : nat;
}.
End PipelineResult.

Definition set_status (v : string) (r : PipelineResult.t) : PipelineResult.t :=
  PipelineResult.Make (v) (PipelineResult.symbol r) (PipelineResult.steps_completed r) (PipelineResult.current_step r) (PipelineResult.error r) (PipelineResult.started_at r) (PipelineResult.completed_at r) (PipelineResult.articles_ingested r) (PipelineResult.articles_enriched r) (PipelineResult.stock_records_added r).

Definition add_step (v : string) (r : PipelineResult.t) : PipelineResult.t :=
  PipelineResult.Make (PipelineResult.status r) (PipelineResult.symbol r) (PipelineResult.steps_completed r ++ [v]) (PipelineResult.current_step r) (PipelineResult.error r) (PipelineResult.started_at r) (PipelineResult.completed_at r) (PipelineResult.articles_ingested r) (PipelineResult.articles_enriched r) (PipelineResult.stock_records_added r).

Definition set_current_step (v : string) (r : PipelineResult.t) : PipelineResult.t :=
  PipelineResult.Make (PipelineResult.status r) (PipelineResult.symbol r) (PipelineResult.steps_completed r) (Some v) (PipelineResult.error r) (PipelineResult.started_at r) (PipelineResult.completed_at r) (PipelineResult.articles_ingested r) (PipelineResult.articles_enriched r) (PipelineResult.stock_records_added r).

Definition set_error (v : string) (r : PipelineResult.t) : PipelineResult.t :=
  PipelineResult.Make (PipelineResult.status r) (PipelineResult.symbol r) (PipelineResult.steps_completed r) (PipelineResult.current_step r) (Some v) (PipelineResult.started_at r) (PipelineResult.completed_at r) (PipelineResult.articles_ingested r) (PipelineResult.articles_enriched r) (PipelineResult.stock_records_added r).

Definition set_started_at (v : Z) (r : PipelineResult.t) : PipelineResult.t :=
  PipelineResult.Make (PipelineResult.status r) (PipelineResult.symbol r) (PipelineResult.steps_completed r) (PipelineResult.current_step r) (PipelineResult.error r) (v) (PipelineResult.completed_at r) (PipelineResult.articles_ingested r) (PipelineResult.articles_enriched r) (PipelineResult.stock_records_added r).

Definition set_completed_at (v : Z) (r : PipelineResult.t) : PipelineResult.t :=
  PipelineResult.Make (PipelineResult.status r) (PipelineResult.symbol r) (PipelineResult.steps_completed r) (PipelineResult.current_step r) (PipelineResult.error r) (PipelineResult.started_at r) (Some v) (PipelineResult.articles_ingested r) (PipelineResult.articles_enriched r) (PipelineResult.stock_records_added r).

Definition set_articles_ingested (v : nat) (r : PipelineResult.t) : PipelineResult.t :=
  PipelineResult.Make (PipelineResult.status r) (PipelineResult.symbol r) (PipelineResult.steps_completed r) (PipelineResult.current_step r) (PipelineResult.error r) (PipelineResult.started_at r) (PipelineResult.completed_at r) (v) (PipelineResult.articles_enriched r) (PipelineResult.stock_records_added r).

Definition incr_articles_enriched  (r : PipelineResult.t) : PipelineResult.t :=
  PipelineResult.Make (PipelineResult.status r) (PipelineResult.symbol r) (PipelineResult.steps_completed r) (PipelineResult.current_step r) (PipelineResult.error r) (PipelineResult.started_at r) (PipelineResult.completed_at r) (PipelineResult.articles_ingested r) (PipelineResult.articles_enriched r + 1) (PipelineResult.stock_records_added r).

Definition set_stock_records_added (v : nat) (r : PipelineResult.t) : PipelineResult.t :=
  PipelineResult.Make (PipelineResult.status r) (PipelineResult.symbol r) (PipelineResult.steps_completed r) (PipelineResult.current_step r) (PipelineResult.error r) (PipelineResult.started_at r) (PipelineResult.completed_at r) (PipelineResult.articles_ingested r) (PipelineResult.articles_enriched r) (v).

(** A pipeline object ([self]) together with what it acts on: the database
    and the clock, [clock] counting the readings made so far. *)
Record state := State {
  symbol : string;
  options_ : options;
  result : PipelineResult.t;
  company_data : gmap string pyval;
  stock_data : list StockRecord.t;
  news_articles : list Article.t;
  enriched_articles : list (Article.t * option enrichment);
  database : db;
  clock : nat;
}.

Definition with_result (f : PipelineResult.t → PipelineResult.t) (s : state) : state :=
  State (symbol s) (options_ s) (f (result s)) (company_data s) (stock_data s) (news_articles s) (enriched_articles s) (database s) (clock s).

Definition with_company_data (f : gmap string pyval → gmap string pyval) (s : state) : state :=
  State (symbol s) (options_ s) (result s) (f (company_data s)) (stock_data s) (news_articles s) (enriched_articles s) (database s) (clock s).

Definition with_stock_data (f : list StockRecord.t → list StockRecord.t) (s : state) : state :=
  State (symbol s) (options_ s) (result s) (company_data s) (f (stock_data s)) (news_articles s) (enriched_articles s) (database s) (clock s).

Definition with_news_articles (f : list Article.t → list Article.t) (s : state) : state :=
  State (symbol s) (options_ s) (result s) (company_data s) (stock_data s) (f (news_articles s)) (enriched_articles s) (database s) (clock s).

Definition with_enriched_articles (f : list (Article.t * option enrichment) → list (Article.t * option enrichment)) (s : state) : state :=
  State (symbol s) (options_ s) (result s) (company_data s) (stock_data s) (news_articles s) (f (enriched_articles s)) (database s) (clock s).

Definition with_database (f : db → db) (s : state) : state :=
  State (symbol s) (options_ s) (result s) (company_data s) (stock_data s) (news_articles s) (enriched_articles s) (f (database s)) (clock s).

Definition with_clock (f : nat → nat) (s : state) : state :=
  State (symbol s) (options_ s) (result s) (company_data s) (stock_data s) (news_articles s) (enriched_articles s) (database s) (f (clock s)).

(** A method body: it may change the state and may raise; the changes made
    before an exception stay. *)
Definition M (A : Type) : Type := state → state * outcome A.

#[export] Instance M_ret : MRet M := λ A a s, (s, Ok a).

#[export] Instance M_bind : MBind M :=
  λ A B f m s,
    match m s with
    | (s', Ok a) => f a s'
    | (s', Raise e) => (s', Raise e)
    end.

Definition modify (f : state → state) : M unit := λ s, (f s, Ok tt).

Definition read {A} (f : state → A) : M A := λ s, (s, Ok (f s)).

Definition call {A} (r : outcome A) : M A := λ s, (s, r).

Definition skip : M unit := mret tt.

(** [try: body except Exception as e: handler(e)] *)
Definition try_except {A} (body : M A) (handler : exn → M A) : M A :=
  λ s,
    match body s with
    | (s', Ok a) => (s', Ok a)
    | (s', Raise e) => handler e s'
    end.

Section Run.

(** The adapters, as the pipeline sees them: each call returns or raises.
    [enrich_news_article i] is the [i]-th enrichment call of the run, counted
    from 0; [utcnow i] is the [i]-th reading of the clock. *)
Variable fetch_company_overview : string → outcome (option (gmap string pyval)).
Variable fetch_stock_data : string → Z → outcome (list StockRecord.t).
Variable fetch_news_articles : pyval → string → Z → Z → outcome (list Article.t).
Variable enrich_news_article : nat → Article.t → pyval → outcome enrichment.
Variable generate_company_summary :
  gmap string pyval → list Article.t → outcome string.
Variable utcnow : nat → Z.

Definition now : M Z :=
  λ s, (with_clock S s, Ok (utcnow (clock s))).

Definition update_result (f : PipelineResult.t → PipelineResult.t) : M unit :=
  modify (with_result f).

(** [CompanyIntelligencePipeline(symbol, options)] on a given database, the
    clock having been read [ticks] times. *)
Definition init (symbol : string) (opts : options) (d : db) (ticks : nat) : state :=
  State (upper symbol) opts
    (PipelineResult.Make "pending" (upper symbol) [] None None (utcnow ticks) None 0 0 0)
    ∅ [] [] [] d (S ticks).

(** [self.company_data.get("name", self.symbol)] *)
Definition company_name (s : state) : pyval :=
  default (PStr (symbol s)) (company_data s !! "name").

(** [cleaned.setdefault(key, value)] *)
Definition setdefault (key : string) (value : pyval) (m : gmap string pyval)
  : gmap string pyval :=
  match m !! key with Some _ => m | None => <[key := value]> m end.

Definition _clean_company_data (self_symbol : string) (data : gmap string pyval)
  : outcome (gmap string pyval) :=
  let cleaned := filter (λ kv, kv.2 ≠ PNone) data in
  let cleaned := setdefault "symbol" (PStr self_symbol) cleaned in
  let cleaned := setdefault "name" (PStr self_symbol) cleaned in
  match cleaned !! "description" with
  | None => Ok cleaned
  | Some (PStr description) =>
      if 2000 <? String.length description
      then Ok (<["description" := PStr (str_take 2000 description +:+ "...")]> cleaned)
      else Ok cleaned
  | Some _ => Raise (Exn "TypeError" "object has no len()")
  end.

Definition fallback_company_data (self_symbol : string) : gmap string pyval :=
  <["symbol" := PStr self_symbol]>
    (<["name" := PStr self_symbol]>
       (<["sector" := PStr "Unknown"]>
          (<["description" := PStr "Company data not available"]> ∅))).

Definition _step_fetch_company : M unit :=
  update_result (set_current_step "fetch_company_data");;
  self_symbol ← read symbol;
  data ← call (fetch_company_overview self_symbol);
  match data with
  | Some data =>
      if bool_decide (data = ∅) then
        modify (with_company_data (λ _, fallback_company_data self_symbol))
      else
        cleaned ← call (_clean_company_data self_symbol data);
        modify (with_company_data (λ _, cleaned))
  | None => modify (with_company_data (λ _, fallback_company_data self_symbol))
  end;;
  update_result (add_step "fetch_company_data").

Definition _step_fetch_stock : M unit :=
  update_result (set_current_step "fetch_stock_prices");;
  self_symbol ← read symbol;
  days_ ← read (λ s, stock_days (options_ s));
  records ← call (fetch_stock_data self_symbol days_);
  modify (with_stock_data (λ _, records));;
  update_result (add_step "fetch_stock_prices").

Definition _step_fetch_news : M unit :=
  update_result (set_current_step "fetch_news");;
  name ← read company_name;
  self_symbol ← read symbol;
  days_ ← read (λ s, news_days (options_ s));
  max_articles_ ← read (λ s, max_articles (options_ s));
  articles ← call (fetch_news_articles name self_symbol days_ max_articles_);
  modify (with_news_articles (λ _, articles));;
  update_result (set_articles_ingested (length articles));;
  update_result (add_step "fetch_news").

(** The loop of [_step_enrich_articles], from the [i]-th article on. *)
Fixpoint enrich_from (i : nat) (name : pyval) (articles : list Article.t) : M unit :=
  match articles with
  | [] => skip
  | article :: rest =>
      try_except
        (enrichment ← call (enrich_news_article i article name);
         modify (with_enriched_articles (λ l, l ++ [(article, Some enrichment)]));;
         update_result incr_articles_enriched)
        (λ _, modify (with_enriched_articles (λ l, l ++ [(article, None)])));;
      enrich_from (S i) name rest
  end.

Definition _step_enrich_articles : M unit :=
  update_result (set_current_step "enrich_articles");;
  name ← read company_name;
  articles ← read news_articles;
  enrich_from 0 name articles;;
  update_result (add_step "enrich_articles").

Definition _step_generate_summary : M unit :=
  update_result (set_current_step "generate_summary");;
  data ← read company_data;
  items ← read enriched_articles;
  summary ← call (generate_company_summary data (map fst items));
  modify (with_company_data (λ m, <["enriched_summary" := PStr summary]> m));;
  update_result (add_step "generate_summary").

(** The loop of [_step_persist_data] over the enriched articles. *)
Fixpoint persist_articles (self_symbol : string)
  (items : list (Article.t * option enrichment)) : M unit :=
  match items with
  | [] => skip
  | (article_data, enrichment) :: rest =>
      d ← read database;
      '(d, article) ← call (add_news_article d self_symbol article_data);
      modify (with_database (λ _, d));;
      match enrichment with
      | Some e =>
          t ← now;
          modify (with_database (λ d, update_article_enrichment d t (NewsArticleDB.id article) e))
      | None => skip
      end;;
      persist_articles self_symbol rest
  end.

Definition _step_persist_data : M unit :=
  update_result (set_current_step "persist_data");;
  self_symbol ← read symbol;
  d ← read database;
  data ← read company_data;
  t ← now;
  '(d, _) ← call (upsert_company d t data);
  modify (with_database (λ _, d));;
  records ← read stock_data;
  match records with
  | [] => skip
  | _ :: _ =>
      let '(d, count) := add_stock_data d self_symbol records in
      modify (with_database (λ _, d));;
      update_result (set_stock_records_added count)
  end;;
  items ← read enriched_articles;
  persist_articles self_symbol items;;
  update_result (add_step "persist_data").

(** [if condition: await step()] *)
Definition when (enabled : state → bool) (step : M unit) : M unit :=
  flag ← read enabled;
  if (flag : bool) then step else skip.

(** The body of the [try] in [run]. *)
Definition run_steps : M unit :=
  _step_fetch_company;;
  when (λ s, fetch_stock (options_ s)) _step_fetch_stock;;
  when (λ s, fetch_news (options_ s)) _step_fetch_news;;
  when (λ s, enrich_with_llm (options_ s) && bool_decide (news_articles s ≠ []))
    _step_enrich_articles;;
  when (λ s, enrich_with_llm (options_ s)) _step_generate_summary;;
  _step_persist_data;;
  update_result (set_status "completed");;
  t ← now;
  update_result (set_completed_at t).

Definition on_exception (e : exn) : M unit :=
  update_result (set_status "failed");;
  update_result (set_error (str e));;
  t ← now;
  update_result (set_completed_at t).

Definition run : M PipelineResult.t :=
  update_result (set_status "running");;
  t ← now;
  update_result (set_started_at t);;
  try_except run_steps on_exception;;
  read result.

(** *** The run, in the specification's words

    The six steps in order: the name a step records, whether it is enabled in
    the state in which it would start, and the step. *)
Definition plan : list (string * (state → bool) * M unit) :=
  [ ("fetch_company_data", λ _, true, _step_fetch_company);
    ("fetch_stock_prices", λ s, fetch_stock (options_ s), _step_fetch_stock);
    ("fetch_news", λ s, fetch_news (options_ s), _step_fetch_news);
    ("enrich_articles",
     λ s, enrich_with_llm (options_ s) && bool_decide (news_articles s ≠ []),
     _step_enrich_articles);
    ("generate_summary", λ s, enrich_with_llm (options_ s), _step_generate_summary);
    ("persist_data", λ _, true, _step_persist_data) ].

(** Steps executed strictly in order, a disabled step being passed over and
    an exception ending the sequence. *)
Fixpoint run_plan (steps : list (string * (state → bool) * M unit)) : M unit :=
  match steps with
  | [] => skip
  | (_, enabled, step) :: rest =>
      (λ s, if enabled s then step s else skip s);;
      run_plan rest
  end.

(** The state in which the [try] is entered, and the two states a run can
    end in: the one reached by the steps with the outcome recorded in the
    result, and nothing else changed but the clock having been read. *)
Definition started (s : state) : state :=
  with_result (set_started_at (utcnow (clock s)))
    (with_clock S (with_result (set_status "running") s)).

Definition completed (s : state) : state :=
  with_result (set_completed_at (utcnow (clock s)))
    (with_clock S (with_result (set_status "completed") s)).

Definition failed (e : exn) (s : state) : state :=
  with_result (set_completed_at (utcnow (clock s)))
    (with_clock S (with_result (set_error (str e)) (with_result (set_status "failed") s))).

(** [run_pipeline(symbol, options)] *)
Definition run_pipeline (symbol : string) (opts : options) (d : db) (ticks : nat)
  : state * outcome PipelineResult.t :=
  run (init symbol opts d ticks).

(** *** Notions for the statements about a run *)

(** The steps that only fetch leave these parts of the state alone. *)
Definition same_work (s s' : state) : Prop :=
  symbol s' = symbol s
  ∧ options_ s' = options_ s
  ∧ database s' = database s
  ∧ enriched_articles s' = enriched_articles s
  ∧ PipelineResult.articles_enriched (result s')
    = PipelineResult.articles_enriched (result s).

(** What the enrichment loop appends, from the [i]-th article on: each
    article with the enrichment its call returned, or with [None] when the
    call raised. *)
Fixpoint attempts (i : nat) (name : pyval) (articles : list Article.t)
  : list (Article.t * option enrichment) :=
  match articles with
  | [] => []
  | article :: rest =>
      (article,
       match enrich_news_article i article name with
       | Ok e => Some e
       | Raise _ => None
       end) :: attempts (S i) name rest
  end.

Definition enriched_count (items : list (Article.t * option enrichment)) : nat :=
  length (List.filter (λ item, bool_decide (is_Some item.2)) items).

(** Every step of the plan names itself as the current step when it starts
    and records its name when, and only when, it returns. *)
Definition well_named (entry : string * (state → bool) * M unit) : Prop :=
  ∀ s s' r, entry.2 s = (s', r) →
    PipelineResult.current_step (result s') = Some entry.1.1
    ∧ PipelineResult.steps_completed (result s')
      = PipelineResult.steps_completed (result s)
        ++ (if is_ok r then [entry.1.1] else []).

End Run.

End Pipeline.

(** ** Concrete inputs used by the examples below *)

Module Scenarios.
Import DataSources Enrichment Database Pipeline.

(** An article whose text holds four positive keywords and no negative one. *)
Definition upbeat : Article.t :=
  Article.Make (Some "Profit growth beats forecasts") (Some "Wire") None
    (Some "https://example.com/upbeat") (Some 0%Z) (Some "A strong quarter").

(** An article as the news provider sends it when it has neither content nor
    description. *)
Definition no_content : Article.t :=
  Article.Make (Some "Markets today") (Some "Wire") None
    (Some "https://example.com/markets") (Some 0%Z) None.

(** A reply of the analysis service with a score far out of range. *)
Definition wild_reply : json :=
  JObj [("sentiment_score", JNum (Finite 7.5)); ("sentiment_label", JStr "Positive")].

(** A stored company and two payloads for it: one that names it by its stored
    symbol and leaves the sector null, one that spells the symbol in lower
    case. *)
Definition apple_row : CompanyDB.t :=
  CompanyDB.Make (PStr "AAPL") (PStr "Apple") (PStr "Technology") PNone PNone
    (PNum 3) PNone PNone PNone PNone PNone (PTime 1) (PTime 1).

Definition apple_db : db := Db [apple_row] [] [].

Definition apple_update : gmap string pyval :=
  <["symbol" := PStr "AAPL"]>
    (<["name" := PStr "Apple Inc"]> (<["sector" := PNone]> (<["pe_ratio" := PNum 30]> ∅))).

Definition apple_lowercase : gmap string pyval :=
  <["symbol" := PStr "aapl"]> (<["name" := PStr "Apple"]> ∅).

Definition apple_uppercase : gmap string pyval :=
  <["symbol" := PStr "AAPL"]> (<["name" := PStr "Apple"]> ∅).

(** One trading day, and an article whose URL is the empty string. *)
Definition day_one : StockRecord.t :=
  StockRecord.Make 1 (Some 10%Q) (Some 12%Q) (Some 9%Q) (Some 11%Q) (Some 1000%Z).

Definition day_two : StockRecord.t :=
  StockRecord.Make 2 (Some 11%Q) (Some 13%Q) (Some 10%Q) (Some 12%Q) (Some 2000%Z).

Definition blank_url : Article.t :=
  Article.Make (Some "Untitled") None None (Some EmptyString) None (Some "text").

(** An enrichment as the analysis service may return it, with a given score. *)
Definition scored (score : Q) : enrichment :=
  {| sentiment_score := score; sentiment_label := "positive";
     classification := "market"; market_impact := "low"; key_insights := None |}.

Definition company (symbol name : string) : gmap string pyval :=
  <["symbol" := PStr symbol]> (<["name" := PStr name]> ∅).

Definition story (link : string) : Article.t :=
  Article.Make (Some "Story") None None (Some link) (Some 0%Z) (Some "text").


(** Three companies whose mean sentiments are 0.1, -0.9 and 0.4. *)
Definition three_means : db :=
  do_db_calls empty_db
    [ CallUpsert 0 (company "A" "Alpha"); CallUpsert 0 (company "B" "Beta");
      CallUpsert 0 (company "C" "Gamma");
      CallAddNews "A" (story "https://example.com/a");
      CallAddNews "B" (story "https://example.com/b");
      CallAddNews "C" (story "https://example.com/c");
      CallEnrich 1 1 (scored 0.1); CallEnrich 1 2 (scored (-0.9));
      CallEnrich 1 3 (scored 0.4) ].

(** A history with two overlapping batches of stock records and the same
    article added twice. *)
Definition overlapping : list db_call :=
  [ CallUpsert 0 (company "ACME" "Acme");
    CallAddStock "acme" [day_one; day_two];
    CallAddStock "ACME" [day_two; day_one];
    CallAddNews "ACME" (story "https://example.com/a");
    CallEnrich 1 1 (scored 0.5);
    CallAddNews "ACME" (story "https://example.com/a") ].

(** A news provider that cannot be reached. *)
Definition newsapi_down : string → Z → Z → Z → outcome news_response :=
  λ _ _ _ _, Raise (Exn "ConnectError" "connection refused").

(** The surroundings of a run: a company provider that knows nothing, no
    prices, a news provider that answers with given articles, no credential
    for the analysis service, a fixed summary and a clock that counts. *)
Definition no_overview : string → outcome (option (gmap string pyval)) :=
  λ _, Ok None.

Definition no_prices : string → Z → outcome (list StockRecord.t) :=
  λ _ _, Ok [].

Definition news_of (articles : list Article.t)
  : pyval → string → Z → Z → outcome (list Article.t) :=
  λ _ _ _ _, Ok articles.

Definition fallback_enricher : nat → Article.t → pyval → outcome enrichment :=
  λ _, Enrichment.enrich_news_article EmptyString false
         (λ _ _, Raise (Exn "RuntimeError" "no client")) (λ _, None).

Definition fixed_summary : gmap string pyval → list Article.t → outcome string :=
  λ _ _, Ok "Summary".

Definition ticking : nat → Z := Z.of_nat.

Definition run_on (d : db) (articles : list Article.t)
  : state * outcome PipelineResult.t :=
  run_pipeline no_overview no_prices (news_of articles) fallback_enricher
    fixed_summary ticking "acme" default_options d 0.

(** The article of [no_content] as the provider sent it a day earlier, with
    its text. *)
Definition with_content : Article.t :=
  Article.Make (Some "Markets today") (Some "Wire") None
    (Some "https://example.com/markets") (Some 0%Z) (Some "Stocks rally on strong growth").

(** The store after a first run that fetched [with_content]. *)
Definition after_first_run : db := database (run_on empty_db [with_content]).1.

(** An article without a title. *)
Definition untitled : Article.t :=
  Article.Make None (Some "Wire") None (Some "https://example.com/untitled")
    (Some 0%Z) (Some "text").

End Scenarios.

(** ** Further definitions

    What the modules above leave out of [app/database.py] and
    [app/pipeline.py], the two handlers of [app/main.py] that start a run and
    report on it, and the notions the later theorems are stated with. *)

(** *** app/database.py: the average sentiment of a company *)

Module Aggregates.
Import DataSources Enrichment Database.

(** The sentiment scores stored for a company, over all its articles. *)
Definition stored_scores (d : db) (symbol : string) : list Q :=
  scores
    (List.filter (λ r, String.eqb (NewsArticleDB.symbol r) (upper symbol))
       (news_articles d)).

(** [get_company_sentiment_avg(db, symbol)].  [func.avg] over no row is NULL,
    and [round(result, 3) if result else None] takes an average of zero for
    no average.  The average is exact here; the database computes it in
    binary floating point, where scores that cancel exactly may leave a
    residue, or a signed zero that is reported as [-0.0]. *)
Definition get_company_sentiment_avg (d : db) (symbol : string) : option Q :=
  match stored_scores d symbol with
  | [] => None
  | _ :: _ =>
      let result_ :=
        (Qsum (stored_scores d symbol)
         / inject_Z (Z.of_nat (length (stored_scores d symbol))))%Q in
      if Qeq_bool result_ 0 then None else Some (py_round result_ 3)
  end.

(** What every call of the persistence layer keeps: stock and news rows have
    keys of their own and an upper-case symbol. *)
Definition well_keyed (d : db) : Prop :=
  NoDup (map StockDataDB.id (stock_data d))
  ∧ Forall (λ r, upper (StockDataDB.symbol r) = StockDataDB.symbol r) (stock_data d)
  ∧ NoDup (map NewsArticleDB.id (news_articles d))
  ∧ Forall (λ r, upper (NewsArticleDB.symbol r) = NewsArticleDB.symbol r)
      (news_articles d).

End Aggregates.

(** *** Notions for the statements about a run *)

Module RunNotions.
Import DataSources Enrichment Database Pipeline.

(** The parts of the report that only [run] itself writes. *)
Definition same_header (r r' : PipelineResult.t) : Prop :=
  PipelineResult.status r' = PipelineResult.status r
  ∧ PipelineResult.symbol r' = PipelineResult.symbol r
  ∧ PipelineResult.error r' = PipelineResult.error r
  ∧ PipelineResult.started_at r' = PipelineResult.started_at r
  ∧ PipelineResult.completed_at r' = PipelineResult.completed_at r.

(** The fetched articles have been counted. *)
Definition counted (s : state) : Prop :=
  PipelineResult.articles_ingested (result s) = length (news_articles s).

(** A property of the state that every enabled step keeps, however it ends. *)
Definition kept_by (P : state → Prop) (entry : string * (state → bool) * M unit) : Prop :=
  ∀ s s' r, P s → entry.1.2 s = true → entry.2 s = (s', r) → P s'.

(** The guard of every step gives the same answer after that step and after
    every later one as before: what it reads is settled when it is read. *)
Fixpoint settled_guards (steps : list (string * (state → bool) * M unit)) : Prop :=
  match steps with
  | [] => True
  | entry :: rest =>
      Forall (λ later, ∀ s s' r, later.2 s = (s', r) → entry.1.2 s' = entry.1.2 s)
             (entry :: rest)
      ∧ settled_guards rest
  end.

(** The names of the steps that [run] executes when none raises, for the
    options of the run and the number of fetched articles. *)
Definition enabled_steps (opts : options) (articles_ingested : nat) : list string :=
  ["fetch_company_data"]
  ++ (if fetch_stock opts then ["fetch_stock_prices"] else [])
  ++ (if fetch_news opts then ["fetch_news"] else [])
  ++ (if enrich_with_llm opts && negb (articles_ingested =? 0)
      then ["enrich_articles"] else [])
  ++ (if enrich_with_llm opts then ["generate_summary"] else [])
  ++ ["persist_data"].

(** Before step 4 nothing is enriched; after it the counter counts the items
    that carry an enrichment, and the items are the fetched articles. *)
Definition nothing_enriched (s : state) : Prop :=
  enriched_articles s = []
  ∧ PipelineResult.articles_enriched (result s) = 0
  ∧ counted s.

Definition enriched_counted (s : state) : Prop :=
  PipelineResult.articles_enriched (result s) = enriched_count (enriched_articles s)
  ∧ (enriched_articles s = [] ∨ map fst (enriched_articles s) = news_articles s)
  ∧ counted s.

(** With enrichment enabled, the items are the fetched articles. *)
Definition items_follow_news (s : state) : Prop :=
  enrich_with_llm (options_ s) = true →
  map fst (enriched_articles s) = news_articles s.

(** The company dict of a pipeline that got nothing from the provider, before
    and after the summary is attached. *)
Definition fallback_payload (self_symbol : string) (data : gmap string pyval) : Prop :=
  data = fallback_company_data self_symbol
  ∨ ∃ summary, data = <["enriched_summary" := PStr summary]>
                        (fallback_company_data self_symbol).

(** A result that is settled: completed without an error, or failed with one,
    and with a completion time. *)
Definition settled (r : PipelineResult.t) : Prop :=
  is_Some (PipelineResult.completed_at r)
  ∧ ((PipelineResult.status r = "completed" ∧ PipelineResult.error r = None)
     ∨ (PipelineResult.status r = "failed" ∧ is_Some (PipelineResult.error r))).

End RunNotions.

(** *** app/pipeline.py: [run_batch_pipeline] *)

Module Batch.
Import DataSources Enrichment Database Pipeline.

(** What a run is surrounded by: the five services it calls. *)
Record services := Services {
  company_overview : string → outcome (option (gmap string pyval));
  stock_prices : string → Z → outcome (list StockRecord.t);
  news : pyval → string → Z → Z → outcome (list Article.t);
  analysis : nat → Article.t → pyval → outcome enrichment;
  summary : gmap string pyval → list Article.t → outcome string;
}.

Section Batch.

(** [during k] is how the services answer during the [k]-th run of the batch;
    the clock goes on counting from one run to the next. *)
Variable during : nat → services.
Variable utcnow : nat → Z.

(** The loop of [run_batch_pipeline], from the [k]-th symbol on.  An exception
    of [run_pipeline] would end the loop. *)
Fixpoint run_batch_from (k : nat) (symbols : list string) (opts : options)
  (d : db) (ticks : nat) : db * nat * outcome (list PipelineResult.t) :=
  match symbols with
  | [] => (d, ticks, Ok [])
  | symbol :: rest =>
      match run_pipeline (company_overview (during k)) (stock_prices (during k))
              (news (during k)) (analysis (during k)) (summary (during k)) utcnow
              symbol opts d ticks with
      | (sf, Ok result_) =>
          match run_batch_from (S k) rest opts (database sf) (clock sf) with
          | (d', ticks', Ok results) => (d', ticks', Ok (result_ :: results))
          | (d', ticks', Raise e) => (d', ticks', Raise e)
          end
      | (sf, Raise e) => (database sf, clock sf, Raise e)
      end
  end.

(** [run_batch_pipeline(symbols, options)] *)
Definition run_batch_pipeline (symbols : list string) (opts : options) (d : db)
  (ticks : nat) : db * nat * outcome (list PipelineResult.t) :=
  run_batch_from 0 symbols opts d ticks.

End Batch.

End Batch.

(** *** app/main.py: starting a run and asking for its status *)

Module Api.
Import DataSources Enrichment Database Pipeline.

(** The validated body of [POST /api/ingest]. *)
Module IngestRequest.
Record t := Make {
  symbol : string;
  fetch_news : bool;
  fetch_stock : bool;
  enrich_with_llm : bool;
}.
End IngestRequest.

(** What a handler answers: a body, or [HTTPException(status_code=404)] with
    its detail. *)
Inductive response (A : Type) : Type :=
| Body (a : A)
| NotFound (detail : string).
Arguments Body {A} a.
Arguments NotFound {A} detail.

(** The two bodies of [ingest_company]; [status] is the result whose
    [to_dict()] is sent. *)
Inductive ingest_body :=
| AlreadyRunning (message : string) (status : PipelineResult.t)
| Started (message : string) (status_url : string).

(** The options dict built from a request: three keys, the others being read
    with their defaults by the pipeline. *)
Definition request_options (request : IngestRequest.t) : options :=
  {| fetch_stock := IngestRequest.fetch_stock request;
     fetch_news := IngestRequest.fetch_news request;
     enrich_with_llm := IngestRequest.enrich_with_llm request;
     stock_days := 30; news_days := 7; max_articles := 10 |}.

(** [ingest_company(request, background_tasks, db)] on the module-level dict
    [pipeline_status], at clock reading [utcnow]: the dict it leaves, its
    answer, and the task it adds to [background_tasks], if any: the symbol and
    the options that [run_and_store] has captured. *)
Definition ingest_company (request : IngestRequest.t)
  (pipeline_status : gmap string PipelineResult.t) (utcnow : Z)
  : gmap string PipelineResult.t * ingest_body * option (string * options) :=
  let symbol := upper (IngestRequest.symbol request) in
  let start :=
    (<[symbol := PipelineResult.Make "running" symbol [] None None utcnow None 0 0 0]>
       pipeline_status,
     Started ("Pipeline started for " +:+ symbol) ("/api/status/" +:+ symbol),
     Some (symbol, request_options request)) in
  match pipeline_status !! symbol with
  | Some running =>
      if String.eqb (PipelineResult.status running) "running"
      then (pipeline_status,
            AlreadyRunning ("Pipeline already running for " +:+ symbol) running,
            None)
      else start
  | None => start
  end.

(** [get_pipeline_status(symbol)] *)
Definition get_pipeline_status (symbol : string)
  (pipeline_status : gmap string PipelineResult.t) : response PipelineResult.t :=
  match pipeline_status !! upper symbol with
  | Some r => Body r
  | None => NotFound ("No pipeline found for " +:+ upper symbol)
  end.

Section Tasks.

Variable fetch_company_overview : string → outcome (option (gmap string pyval)).
Variable fetch_stock_data : string → Z → outcome (list StockRecord.t).
Variable fetch_news_articles : pyval → string → Z → Z → outcome (list Article.t).
Variable enrich_news_article : nat → Article.t → pyval → outcome enrichment.
Variable generate_company_summary :
  gmap string pyval → list Article.t → outcome string.
Variable utcnow : nat → Z.

(** The background task [run_and_store] of a started ingestion, on the dict,
    the database and the clock. *)
Definition run_and_store (task : string * options)
  (pipeline_status : gmap string PipelineResult.t) (d : db) (ticks : nat)
  : gmap string PipelineResult.t * db * nat * outcome unit :=
  match run_pipeline fetch_company_overview fetch_stock_data fetch_news_articles
          enrich_news_article generate_company_summary utcnow task.1 task.2 d ticks with
  | (sf, Ok result_) => (<[task.1 := result_]> pipeline_status, database sf, clock sf, Ok tt)
  | (sf, Raise e) => (pipeline_status, database sf, clock sf, Raise e)
  end.

End Tasks.

End Api.

(** *** A further input of the examples *)

Module NewsScenarios.
Import DataSources.

(** A news provider that answers every request with one article. *)
Definition newsapi_one : string → Z → Z → Z → outcome news_response :=
  λ _ _ _ _, Ok {| resp_status := Some "ok"; resp_articles := [Scenarios.upbeat] |}.

End NewsScenarios.

(** ** Theorems: Python preliminaries *)

Module PyFacts.

Lemma Qltb_lt (x y : Q) : Qltb x y = true ↔ (x < y)%Q.
Proof.
  unfold Qltb. rewrite negb_true_iff. split.
  - intros H. apply Qnot_le_lt. intros Hle. apply Qle_bool_iff in Hle. congruence.
  - intros H. destruct (Qle_bool y x) eqn:E; [|done].
    apply Qle_bool_iff in E. exfalso. by apply (Qlt_not_le x y).
Qed.

Lemma Qltb_ge (x y : Q) : Qltb x y = false ↔ (y <= x)%Q.
Proof.
  unfold Qltb. rewrite negb_false_iff. apply Qle_bool_iff.
Qed.

(** [clamp_score] is what the two builtins compute. *)
Lemma clamp_score_is_max_min (x : pyfloat) :
  py_max (Finite (-1)) (py_min (Finite 1) x) = Finite (clamp_score x).
Proof.
  destruct x as [q| | |]; try reflexivity.
  unfold py_min, py_max, clamp_score, float_lt.
  destruct (Qltb q 1) eqn:E1; [|reflexivity].
  by destruct (Qltb (-1) q).
Qed.

Lemma clamp_score_bounds (x : pyfloat) : (-1 <= clamp_score x <= 1)%Q.
Proof.
  destruct x as [q| | |]; simpl; try (split; discriminate).
  destruct (Qltb q 1) eqn:E1.
  - apply Qltb_lt in E1. destruct (Qltb (-1) q) eqn:E2.
    + apply Qltb_lt in E2. split; by apply Qlt_le_weak.
    + split; discriminate.
  - split; discriminate.
Qed.

(** Rounding to the nearest integer moves a number by at most one half, so it
    keeps integer bounds. *)
Lemma round_half_even_bounds (x : Q) (lo hi : Z) :
  (inject_Z lo <= x <= inject_Z hi)%Q → (lo ≤ round_half_even x ≤ hi)%Z.
Proof.
  intros [Hlo Hhi]. unfold round_half_even.
  assert (Hf1 : (lo ≤ Qfloor x)%Z).
  { rewrite <- (Qfloor_Z lo). by apply Qfloor_resp_le. }
  assert (Hf2 : (Qfloor x ≤ hi)%Z).
  { rewrite <- (Qfloor_Z hi). by apply Qfloor_resp_le. }
  assert (Hup : (Qfloor x < hi)%Z ∨ (x == inject_Z (Qfloor x))%Q).
  { destruct (Z.eq_dec (Qfloor x) hi) as [Heq|Hne]; [right|left; lia].
    apply Qle_antisym; [by rewrite Heq | apply Qfloor_le]. }
  destruct (Qcompare_spec (x - inject_Z (Qfloor x)) (1 # 2)) as [He|Hl|Hg].
  - destruct Hup as [?|Heq]; [destruct (Z.even _); lia|].
    rewrite Heq in He at 1. exfalso.
    assert (H0 : (inject_Z (Qfloor x) - inject_Z (Qfloor x) == 0)%Q) by ring.
    rewrite H0 in He. discriminate.
  - lia.
  - destruct Hup as [?|Heq]; [lia|].
    rewrite Heq in Hg at 1. exfalso.
    assert (H0 : (inject_Z (Qfloor x) - inject_Z (Qfloor x) == 0)%Q) by ring.
    rewrite H0 in Hg. discriminate.
Qed.

(** [round(x, n)] keeps [x] within [-1, 1]. *)
Lemma py_round_unit (x : Q) (n : nat) :
  (-1 <= x <= 1)%Q → (-1 <= py_round x n <= 1)%Q.
Proof.
  intros [Hlo Hhi]. unfold py_round.
  set (k := (10 ^ Z.of_nat n)%Z).
  assert (Hk : (0 < k)%Z) by (unfold k; apply Z.pow_pos_nonneg; lia).
  assert (HkQ : (inject_Z 0 < inject_Z k)%Q) by (by rewrite <- Zlt_Qlt).
  assert (E1 : (inject_Z (- k) == (-1) * inject_Z k)%Q).
  { rewrite inject_Z_opp. ring. }
  assert (E2 : (inject_Z k == 1 * inject_Z k)%Q) by ring.
  destruct (round_half_even_bounds (x * inject_Z k) (- k) k) as [H1 H2].
  { split.
    - rewrite E1. apply Qmult_le_compat_r; [done | by apply Qlt_le_weak].
    - rewrite E2 at 2. apply Qmult_le_compat_r; [done | by apply Qlt_le_weak]. }
  split.
  - apply Qle_shift_div_l; [done|]. rewrite <- E1. by rewrite <- Zle_Qle.
  - apply Qle_shift_div_r; [done|]. rewrite <- E2. by rewrite <- Zle_Qle.
Qed.



(** A number of whole hundredths is its own rounding to two digits. *)
Lemma py_round_hundredths (x : Q) (k : Z) :
  (x * 100 == inject_Z k)%Q → (py_round x 2 == x)%Q.
Proof.
  intros Hk. unfold py_round.
  change (inject_Z (10 ^ Z.of_nat 2)) with 100%Q.
  assert (Hr : round_half_even (x * 100) = k).
  { unfold round_half_even. rewrite (Qfloor_comp _ _ Hk), Qfloor_Z.
    assert (H0 : (x * 100 - inject_Z k == 0)%Q) by (rewrite Hk; ring).
    rewrite H0. reflexivity. }
  rewrite Hr, <- Hk. field.
Qed.

Lemma upper_ascii_idem (a : ascii) : upper_ascii (upper_ascii a) = upper_ascii a.
Proof. destruct a as [[] [] [] [] [] [] [] []]; reflexivity. Qed.

Lemma upper_idem (s : string) : upper (upper s) = upper s.
Proof.
  induction s as [|a s IH]; [done|]. simpl. by rewrite upper_ascii_idem, IH.
Qed.

End PyFacts.

(** ** Theorems: the cache *)

Module CacheFacts.
Import DataSources.

Section Cache.

Context {V : Type}.
Implicit Types (c : gmap string (V * Z)) (cs : list (Z * @cache_call V)).

Lemma get_cached_keeps c now key : (_get_cached c now key).1 = c.
Proof.
  unfold _get_cached. destruct (c !! key) as [[d t]|]; [|done].
  by destruct (_ <? _)%Z.
Qed.

Lemma get_cached_Some c now key data :
  (_get_cached c now key).2 = Some data ↔
  ∃ t, c !! key = Some (data, t) ∧ (now - t < seconds 300)%Z.
Proof.
  unfold _get_cached, CACHE_TTL.
  destruct (c !! key) as [[d t]|] eqn:E.
  - destruct (Z.ltb_spec (now - t) (seconds 300)) as [Hlt|Hge]; simpl.
    + split.
      * intros [= ->]. eauto.
      * intros (t' & [= -> ->] & _). done.
    + split; [done|]. intros (t' & [= -> ->] & ?). lia.
  - simpl. split; [done|]. by intros (? & ? & _).
Qed.

(** After a history of calls, the entry under [key] is the one written by the
    most recent [set] for it (or the one the cache started with). *)
Lemma do_calls_lookup cs : ∀ c key,
  do_calls c cs !! key = latest_set key cs (c !! key).
Proof.
  induction cs as [|[t [k d|k]] cs IH]; intros c key; simpl; [done| |].
  - unfold do_calls in *. simpl. rewrite IH. unfold _set_cache.
    destruct (decide (k = key)) as [->|Hne].
    + by rewrite lookup_insert_eq.
    + by rewrite lookup_insert_ne.
  - unfold do_calls in *. simpl. rewrite IH. by rewrite get_cached_keeps.
Qed.

(** C9.  Starting from the empty cache and after any history of [set] and
    [get] calls, a [get] for [key] at time [utcnow] returns [data] exactly
    when the most recent [set] for [key] stored [data] and fewer than 300
    seconds have elapsed since it; a [get] never changes the cache; a [get]
    at the very time of a [set] returns the value just stored; and a [get]
    300 seconds or more after the [set] returns nothing while the entry is
    still in the cache. *)
Theorem cache_get_iff_within_ttl cs (key : string) (utcnow : Z) :
  let c := do_calls ∅ cs in
  (∀ data, (_get_cached c utcnow key).2 = Some data ↔
     ∃ t, latest_set key cs None = Some (data, t) ∧ (utcnow - t < seconds 300)%Z)
  ∧ (_get_cached c utcnow key).1 = c
  ∧ (∀ data, (_get_cached (_set_cache c utcnow key data) utcnow key).2 = Some data)
  ∧ (∀ data t, latest_set key cs None = Some (data, t) →
       (seconds 300 ≤ utcnow - t)%Z →
       _get_cached c utcnow key = (c, None) ∧ c !! key = Some (data, t)).
Proof.
  intros c.
  assert (Hc : c !! key = latest_set key cs None).
  { unfold c. rewrite do_calls_lookup. by rewrite lookup_empty. }
  repeat split.
  - intros H. apply get_cached_Some in H. by rewrite <- Hc.
  - intros H. apply get_cached_Some. by rewrite Hc.
  - apply get_cached_keeps.
  - intros data. apply get_cached_Some. exists utcnow. split.
    + unfold _set_cache. by rewrite lookup_insert_eq.
    + unfold seconds. lia.
  - unfold _get_cached, CACHE_TTL. rewrite Hc, H.
    destruct (Z.ltb_spec (utcnow - t) (seconds 300)); [lia|done].
  - by rewrite Hc.
Qed.

End Cache.

End CacheFacts.

(** ** Theorems: enrichment *)

Module EnrichmentFacts.
Import DataSources Enrichment PyFacts.

(** The generator sum of the code is the presence count. *)
Lemma sum_present_count (words : list string) (text : string) :
  sum_present words text = presence_count words text.
Proof.
  unfold sum_present, presence_count.
  assert (H : ∀ acc,
    fold_left (λ acc word, if str_in word text then acc + 1 else acc) words acc
    = acc + length (List.filter (λ word, str_in word text) words)).
  { induction words as [|w ws IH]; intros acc; simpl; [lia|].
    rewrite IH. destruct (str_in w text); simpl; lia. }
  apply (H 0).
Qed.

Lemma inject_nat_nonneg (n : nat) : (0 <= inject_Z (Z.of_nat n))%Q.
Proof. change 0%Q with (inject_Z 0). rewrite <- Zle_Qle. lia. Qed.

Lemma positive_score (n : nat) :
  (py_round (clamp_score (Finite (0.3 + inject_Z (Z.of_nat n) * 0.1))) 2
   == Qmin 1 (0.3 + 0.1 * inject_Z (Z.of_nat n)))%Q.
Proof.
  pose proof (inject_nat_nonneg n) as Hn.
  set (a := inject_Z (Z.of_nat n)) in *.
  unfold clamp_score.
  destruct (Qltb (0.3 + a * 0.1) 1) eqn:E1.
  - apply Qltb_lt in E1.
    assert (E2 : Qltb (-1) (0.3 + a * 0.1) = true) by (apply Qltb_lt; lra).
    rewrite E2, Q.min_r by lra.
    rewrite (py_round_hundredths _ (30 + 10 * Z.of_nat n)).
    + ring.
    + rewrite inject_Z_plus, inject_Z_mult. fold a.
      change (inject_Z 30) with 30%Q. change (inject_Z 10) with 10%Q. ring.
  - apply Qltb_ge in E1. rewrite Q.min_l by lra.
    apply (py_round_hundredths _ 100). reflexivity.
Qed.

Lemma negative_score (n : nat) :
  (py_round (clamp_score (Finite (- 0.3 - inject_Z (Z.of_nat n) * 0.1))) 2
   == Qmax (-1) (- 0.3 - 0.1 * inject_Z (Z.of_nat n)))%Q.
Proof.
  pose proof (inject_nat_nonneg n) as Hn.
  set (a := inject_Z (Z.of_nat n)) in *.
  unfold clamp_score.
  assert (E1 : Qltb (- 0.3 - a * 0.1) 1 = true) by (apply Qltb_lt; lra).
  rewrite E1.
  destruct (Qltb (-1) (- 0.3 - a * 0.1)) eqn:E2.
  - apply Qltb_lt in E2. rewrite Q.max_r by lra.
    rewrite (py_round_hundredths _ (- 30 - 10 * Z.of_nat n)).
    + ring.
    + unfold Z.sub. rewrite inject_Z_plus, !inject_Z_opp, inject_Z_mult. fold a.
      change (inject_Z 30) with 30%Q. change (inject_Z 10) with 10%Q. ring.
  - apply Qltb_ge in E2. rewrite Q.max_l by lra.
    apply (py_round_hundredths _ (-100)). reflexivity.
Qed.

(** X28.  The formula of the fallback.  For an article whose title and
    content are strings, the fallback counts which of the positive and of the
    negative keywords occur in the lowercased "title content" text and
    returns: score
    [min(1.0, 0.3 + 0.1 * positive_count)] with label "positive" when the
    positives outnumber the negatives; score
    [max(-1.0, -0.3 - 0.1 * negative_count)] with label "negative" when the
    negatives outnumber the positives; score 0 with label "neutral" when the
    counts are equal. *)
Theorem mock_sentiment_formula (article : Article.t) (t c : string) :
  Article.title article = Some t →
  Article.content article = Some c →
  let text := lower (t +:+ " " +:+ c) in
  let positive_count := presence_count positive_keywords text in
  let negative_count := presence_count negative_keywords text in
  ∃ e, _mock_enrich_article article = Ok e ∧
    (negative_count < positive_count →
       (sentiment_score e == Qmin 1 (0.3 + 0.1 * inject_Z (Z.of_nat positive_count)))%Q
       ∧ sentiment_label e = "positive") ∧
    (positive_count < negative_count →
       (sentiment_score e == Qmax (-1) (- 0.3 - 0.1 * inject_Z (Z.of_nat negative_count)))%Q
       ∧ sentiment_label e = "negative") ∧
    (positive_count = negative_count →
       (sentiment_score e == 0)%Q ∧ sentiment_label e = "neutral").
Proof.
  intros Ht Hc text pc nc.
  unfold _mock_enrich_article. rewrite Ht, Hc.
  rewrite !sum_present_count. fold text. fold pc. fold nc.
  eexists. split; [reflexivity|].
  unfold keyword_sentiment. cbn [sentiment_score sentiment_label].
  repeat split.
  - apply Nat.ltb_lt in H. rewrite H. apply positive_score.
  - apply Nat.ltb_lt in H. by rewrite H.
  - assert (H1 : (nc <? pc) = false) by (apply Nat.ltb_ge; lia).
    apply Nat.ltb_lt in H. rewrite H1, H. apply negative_score.
  - assert (H1 : (nc <? pc) = false) by (apply Nat.ltb_ge; lia).
    apply Nat.ltb_lt in H. by rewrite H1, H.
  - rewrite H, Nat.ltb_irrefl. simpl. apply (py_round_hundredths _ 0). reflexivity.
  - by rewrite H, Nat.ltb_irrefl.
Qed.

(** The fallback raises on an article without title or without content. *)
Lemma mock_raises_without_text (article : Article.t) :
  Article.title article = None ∨ Article.content article = None →
  is_ok (_mock_enrich_article article) = false.
Proof.
  unfold _mock_enrich_article.
  intros [H|H]; rewrite H; [done|]. by destruct (Article.title article).
Qed.

(** C3, at the failing input.  On the article that the news adapter builds
    from an item whose content and description are null (its title is
    "Markets today", its content [None]), the fallback returns no score and
    no label: the concatenation of the title, a space and the content raises
    [TypeError]. *)
Example mock_raises_on_no_content :
  _mock_enrich_article Scenarios.no_content
  = Raise (Exn "TypeError" "can only concatenate str (not 'NoneType') to str").
Proof. reflexivity. Qed.

Lemma mock_bounded (article : Article.t) (e : enrichment) :
  _mock_enrich_article article = Ok e → (-1 <= sentiment_score e <= 1)%Q.
Proof.
  unfold _mock_enrich_article.
  destruct (Article.title article) as [t|]; [|done].
  destruct (Article.content article) as [c|]; [|done].
  intros [= <-]. cbn [sentiment_score].
  apply py_round_unit. exact (clamp_score_bounds (Finite _)).
Qed.

Section Service.

Variable ANTHROPIC_API_KEY : string.
Variable anthropic_installed : bool.
Variable analysis_reply : Article.t → pyval → outcome json.
Variable float_of_str : string → option pyfloat.

Lemma normalize_bounded (parsed : json) (e : enrichment) :
  normalize float_of_str parsed = Ok e → (-1 <= sentiment_score e <= 1)%Q.
Proof.
  unfold normalize. destruct parsed as [| | | | |members]; try done.
  unfold mbind, outcome_bind.
  destruct (py_float _ _) as [x|]; [|done].
  repeat (destruct (py_lower _) as [?|]; [|done]).
  intros [= <-]. cbn [sentiment_score]. apply clamp_score_bounds.
Qed.

Lemma enrich_bounded (article : Article.t) (name : pyval) (e : enrichment) :
  enrich_news_article ANTHROPIC_API_KEY anthropic_installed analysis_reply
    float_of_str article name = Ok e →
  (-1 <= sentiment_score e <= 1)%Q.
Proof.
  unfold enrich_news_article.
  destruct (_get_anthropic_client _ _); [|apply mock_bounded].
  unfold mbind, outcome_bind.
  destruct (analysis_reply article name) as [parsed|]; [|apply mock_bounded].
  destruct (normalize float_of_str parsed) as [r|] eqn:E; [|apply mock_bounded].
  intros [= <-]. by apply (normalize_bounded parsed).
Qed.

(** C4.  Whatever produces an enrichment result (the keyword fallback, the
    normalisation of a decoded reply of the analysis service, or
    [enrich_news_article] as a whole, which is one or the other), its
    sentiment score lies in the closed interval from -1 to 1. *)
Theorem sentiment_score_in_unit_interval
  (article : Article.t) (name : pyval) (parsed : json) (e : enrichment) :
  _mock_enrich_article article = Ok e
  ∨ normalize float_of_str parsed = Ok e
  ∨ enrich_news_article ANTHROPIC_API_KEY anthropic_installed analysis_reply
      float_of_str article name = Ok e →
  (-1 <= sentiment_score e <= 1)%Q.
Proof.
  intros [H|[H|H]].
  - by apply (mock_bounded article).
  - by apply (normalize_bounded parsed).
  - by apply (enrich_bounded article name).
Qed.

End Service.

(** The service answers 7.5; the stored score is 1. *)
Example wild_reply_is_clamped :
  ∃ e, enrich_news_article "key" true (λ _ _, Ok Scenarios.wild_reply) (λ _, None)
         Scenarios.upbeat (PStr "Acme") = Ok e
       ∧ sentiment_score e = 1%Q ∧ sentiment_label e = "positive".
Proof. eexists. split; [reflexivity|]. split; reflexivity. Qed.

Lemma mock_sentiment_formula_witness :
  ∃ e, _mock_enrich_article Scenarios.upbeat = Ok e
       ∧ (sentiment_score e == 0.7)%Q ∧ sentiment_label e = "positive".
Proof.
  destruct (mock_sentiment_formula Scenarios.upbeat _ _ eq_refl eq_refl)
    as (e & He & Hpos & _).
  exists e. split; [exact He|].
  destruct Hpos as [Hs Hl]; [vm_compute; lia|].
  split; [|exact Hl]. rewrite Hs. reflexivity.
Defined.

Lemma sentiment_score_in_unit_interval_witness :
  ∃ e, _mock_enrich_article Scenarios.upbeat = Ok e
       ∧ (-1 <= sentiment_score e <= 1)%Q.
Proof.
  eexists. split; [reflexivity|].
  apply (sentiment_score_in_unit_interval "" false (λ _ _, Ok JNull) (λ _, None)
           Scenarios.upbeat PNone JNull).
  left. reflexivity.
Defined.

End EnrichmentFacts.

(** ** Theorems: the news adapter *)

Module NewsFacts.
Import DataSources.

Lemma mock_news_same_text (utcnow utcnow' : nat → Z) (company_name symbol : string) :
  Forall2 same_text (_get_mock_news utcnow company_name symbol)
    (_get_mock_news utcnow' company_name symbol).
Proof. unfold _get_mock_news. repeat constructor. Qed.

(** C10 (amended).  Without a news credential, [fetch_news_articles] returns
    the five articles of [_get_mock_news] and hands the cache back as it got
    it, whatever [days], [max_articles], the cache and the provider are.
    Title, source, author, url and content of the five are fixed by the
    company name and the symbol; the publication times are 1, 3, 5, 2 and 4
    days before the clock readings of the call. *)
Theorem no_key_returns_mock_news
  (newsapi : string → Z → Z → Z → outcome news_response)
  (_cache : gmap string (list Article.t * Z)) (utcnow : nat → Z)
  (company_name symbol : string) (days_ max_articles : Z) :
  let fetched :=
    fetch_news_articles "" newsapi _cache utcnow company_name symbol days_ max_articles in
  fetched = (_cache, _get_mock_news utcnow company_name symbol)
  ∧ length fetched.2 = 5
  ∧ map Article.published_at fetched.2
    = [ Some (utcnow 0%nat - days 1)%Z; Some (utcnow 1%nat - days 3)%Z;
        Some (utcnow 2%nat - days 5)%Z; Some (utcnow 3%nat - days 2)%Z;
        Some (utcnow 4%nat - days 4)%Z ]
  ∧ (∀ newsapi' _cache' utcnow' days' max_articles',
       Forall2 same_text fetched.2
         (fetch_news_articles "" newsapi' _cache' utcnow' company_name symbol
            days' max_articles').2).
Proof.
  intros fetched.
  assert (E : ∀ n c u d m,
    fetch_news_articles "" n c u company_name symbol d m
    = (c, _get_mock_news u company_name symbol)) by reflexivity.
  unfold fetched. rewrite E. repeat split.
  intros ? ? ? ? ?. rewrite E. apply mock_news_same_text.
Qed.

(** Two calls for the same company and symbol, one microsecond apart, do not
    return the same list. *)
Lemma mock_news_follows_the_clock :
  (fetch_news_articles "" Scenarios.newsapi_down ∅ (λ _, 0%Z) "Acme" "ACME" 7 10).2
  ≠ (fetch_news_articles "" Scenarios.newsapi_down ∅ (λ _, 1%Z) "Acme" "ACME" 7 10).2.
Proof.
  intros H.
  apply (f_equal (λ l, Article.published_at <$> head l)) in H.
  vm_compute in H. discriminate.
Qed.

End NewsFacts.

(** ** Theorems: persistence *)

Module DatabaseFacts.
Import DataSources Enrichment Database PyFacts.

(** *** Columns *)

Lemma column_of_name (c : column) : column_of (column_name c) = Some c.
Proof. by destruct c. Qed.

Lemma column_of_Some (k : string) (c : column) :
  column_of k = Some c → column_name c = k.
Proof.
  unfold column_of. intros H. apply find_some in H as [_ H].
  by apply String.eqb_eq in H.
Qed.

Lemma column_of_None (k : string) (c : column) :
  column_of k = None → column_name c ≠ k.
Proof. intros H <-. by rewrite column_of_name in H. Qed.

Lemma column_name_inj (c c' : column) : column_name c = column_name c' → c = c'.
Proof.
  intros H. apply (f_equal column_of) in H. rewrite !column_of_name in H. congruence.
Qed.

Lemma getattr_setattr (r : CompanyDB.t) (c : column) (v : pyval) :
  getattr (setattr r c v) c = v.
Proof. by destruct c. Qed.

Lemma getattr_setattr_ne (r : CompanyDB.t) (c c' : column) (v : pyval) :
  c ≠ c' → getattr (setattr r c v) c' = getattr r c'.
Proof. by destruct c, c'. Qed.

(** *** Rows *)

Lemma length_replace_first {A} (p : A → bool) (new : A) (rows : list A) :
  length (replace_first p new rows) = length rows.
Proof.
  induction rows as [|r rows IH]; [done|]. simpl.
  destruct (p r); simpl; by rewrite ?IH.
Qed.

Lemma find_replace_first {A} (p : A → bool) (new : A) (rows : list A) :
  p new = true → is_Some (find p rows) → find p (replace_first p new rows) = Some new.
Proof.
  intros Hnew. induction rows as [|r rows IH]; simpl.
  - by intros [? ?].
  - destruct (p r) eqn:E; simpl.
    + by rewrite Hnew.
    + rewrite E. apply IH.
Qed.

Lemma replace_first_twice {A} (p : A → bool) (new new' : A) (rows : list A) :
  p new = true →
  replace_first p new' (replace_first p new rows) = replace_first p new' rows.
Proof.
  intros Hnew. induction rows as [|r rows IH]; [done|]. simpl.
  destruct (p r) eqn:E; simpl.
  - by rewrite Hnew.
  - by rewrite E, IH.
Qed.

(** *** [upsert_company] *)

(** The loop of the update branch computes the merge the specification
    describes, column by column. *)
Lemma assign_items_getattr (existing : CompanyDB.t) (company_data : gmap string pyval)
  (c : column) :
  getattr (assign_items existing company_data) c = merged existing company_data c.
Proof.
  revert c. unfold assign_items.
  apply (map_fold_weak_ind (λ row m, ∀ c, getattr row c = merged existing m c)).
  - intros c. unfold merged. by rewrite lookup_empty.
  - intros key value m row Hfresh IH c. unfold merged in *.
    destruct (column_of key) as [c0|] eqn:Ekey.
    + apply column_of_Some in Ekey as <-.
      destruct (decide (c0 = c)) as [->|Hne].
      * rewrite lookup_insert_eq. specialize (IH c). rewrite Hfresh in IH.
        destruct (is_none value); [done|]. apply getattr_setattr.
      * rewrite lookup_insert_ne by (intros H; by apply column_name_inj in H).
        destruct (is_none value); [done|].
        by rewrite getattr_setattr_ne.
    + rewrite lookup_insert_ne by (by apply not_eq_sym, column_of_None).
      apply IH.
Qed.

Lemma merged_not_null (existing : CompanyDB.t) (company_data : gmap string pyval)
  (c : column) :
  getattr existing c ≠ PNone → merged existing company_data c ≠ PNone.
Proof.
  unfold merged. intros H.
  destruct (company_data !! column_name c) as [v|]; [|done].
  by destruct v.
Qed.

Lemma merged_merged (existing r : CompanyDB.t) (company_data : gmap string pyval)
  (c : column) :
  getattr r c = merged existing company_data c →
  merged r company_data c = getattr r c.
Proof.
  unfold merged. intros H.
  destruct (company_data !! column_name c) as [v|]; [|done].
  by destruct (is_none v).
Qed.

(** The update branch, when the payload leaves the primary key as stored. *)
Lemma upsert_company_update (d : db) (utcnow : Z) (company_data : gmap string pyval)
  (symbol : string) (existing : CompanyDB.t) :
  payload_symbol company_data = Ok symbol →
  get_company d symbol = Some existing →
  merged existing company_data C_symbol = CompanyDB.symbol existing →
  let row := setattr (assign_items existing company_data) C_updated_at (PTime utcnow) in
  upsert_company d utcnow company_data
  = Ok ({| companies := replace_first (symbol_is (upper symbol)) row (companies d);
           stock_data := stock_data d;
           news_articles := news_articles d |}, row).
Proof.
  intros Hsym Hget Hkey row. unfold upsert_company.
  rewrite Hsym. unfold mbind, outcome_bind. rewrite Hget. fold row.
  assert (E : CompanyDB.symbol row = CompanyDB.symbol existing).
  { change (getattr row C_symbol = CompanyDB.symbol existing). unfold row.
    rewrite getattr_setattr_ne by done. by rewrite assign_items_getattr. }
  rewrite E. rewrite bool_decide_eq_false_2 by (intros H; by apply H).
  reflexivity.
Qed.

(** X29.  Upserts that spell the symbol as stored.  Let a payload name a
    stored company by its stored symbol (or carry no symbol while the company
    found is the one under the empty symbol).  Then
    [upsert_company] succeeds and the row it leaves has, in every column
    other than [updated_at], the incoming value where that is not null and
    the previous value where it is null or absent, so nothing stored is
    nulled out; [updated_at] is the time of the call; the other rows are as
    before.  A second upsert of the same payload succeeds as well and leaves
    the same number of rows, the row having the same values in every column
    other than [updated_at]. *)
Theorem upsert_overwrites_only_non_null (d : db) (utcnow utcnow' : Z)
  (company_data : gmap string pyval) (symbol : string) (existing : CompanyDB.t) :
  payload_symbol company_data = Ok symbol →
  get_company d symbol = Some existing →
  company_data !! "symbol" = None
  ∨ company_data !! "symbol" = Some (CompanyDB.symbol existing) →
  ∃ d1 r1,
    upsert_company d utcnow company_data = Ok (d1, r1)
    ∧ (∀ c, c ≠ C_updated_at → getattr r1 c = merged existing company_data c)
    ∧ (∀ c, getattr existing c ≠ PNone → getattr r1 c ≠ PNone)
    ∧ getattr r1 C_updated_at = PTime utcnow
    ∧ companies d1 = replace_first (symbol_is (upper symbol)) r1 (companies d)
    ∧ get_company d1 symbol = Some r1
    ∧ ∃ d2 r2,
        upsert_company d1 utcnow' company_data = Ok (d2, r2)
        ∧ (∀ c, c ≠ C_updated_at → getattr r2 c = getattr r1 c)
        ∧ getattr r2 C_updated_at = PTime utcnow'
        ∧ companies d2 = replace_first (symbol_is (upper symbol)) r2 (companies d)
        ∧ length (companies d2) = length (companies d)
        ∧ get_company d2 symbol = Some r2.
Proof.
  intros Hsym Hget Hkey.
  assert (Hfound : symbol_is (upper symbol) existing = true).
  { unfold get_company in Hget. by apply find_some in Hget as [_ H]. }
  assert (Hstr : ∃ x, CompanyDB.symbol existing = PStr x).
  { unfold symbol_is in Hfound. destruct (CompanyDB.symbol existing); eauto; done. }
  assert (Hm : ∀ r, CompanyDB.symbol r = CompanyDB.symbol existing →
                    merged r company_data C_symbol = CompanyDB.symbol r).
  { intros r Hr. unfold merged. change (column_name C_symbol) with "symbol".
    destruct Hkey as [-> | ->]; [done|].
    destruct Hstr as [x Hx]. rewrite Hx in *. simpl. congruence. }
  set (r1 := setattr (assign_items existing company_data) C_updated_at (PTime utcnow)).
  assert (Hr1 : ∀ c, c ≠ C_updated_at → getattr r1 c = merged existing company_data c).
  { intros c Hc. unfold r1. rewrite getattr_setattr_ne by done.
    apply assign_items_getattr. }
  assert (Hs1 : CompanyDB.symbol r1 = CompanyDB.symbol existing).
  { change (getattr r1 C_symbol = CompanyDB.symbol existing).
    rewrite Hr1 by done. by apply Hm. }
  assert (Hp1 : symbol_is (upper symbol) r1 = true).
  { unfold symbol_is in *. by rewrite Hs1. }
  set (d1 := {| companies := replace_first (symbol_is (upper symbol)) r1 (companies d);
                stock_data := stock_data d;
                news_articles := news_articles d |}).
  assert (Hget1 : get_company d1 symbol = Some r1).
  { unfold get_company, d1. simpl.
    apply find_replace_first; [done|].
    unfold get_company in Hget. by rewrite Hget. }
  exists d1, r1. split; [by apply upsert_company_update; [| |apply Hm]|].
  split; [exact Hr1|]. split.
  { intros c Hc. destruct (decide (c = C_updated_at)) as [->|Hne].
    - unfold r1. by rewrite getattr_setattr.
    - rewrite Hr1 by done. by apply merged_not_null. }
  split; [unfold r1; by rewrite getattr_setattr|].
  split; [done|]. split; [done|].
  set (r2 := setattr (assign_items r1 company_data) C_updated_at (PTime utcnow')).
  assert (Hp2 : symbol_is (upper symbol) r2 = true).
  { unfold symbol_is in *.
    assert (E : CompanyDB.symbol r2 = CompanyDB.symbol r1).
    { change (getattr r2 C_symbol = CompanyDB.symbol r1). unfold r2.
      rewrite getattr_setattr_ne by done. rewrite assign_items_getattr.
      by apply Hm. }
    by rewrite E. }
  eexists _, r2. split.
  { apply (upsert_company_update d1 utcnow' company_data symbol r1); [done|done|].
    by apply Hm. }
  split.
  { intros c Hc. unfold r2. rewrite getattr_setattr_ne by done.
    rewrite assign_items_getattr. apply (merged_merged existing). by apply Hr1. }
  split; [unfold r2; by rewrite getattr_setattr|].
  split; [simpl; by apply replace_first_twice|].
  split; [simpl; by rewrite replace_first_twice, length_replace_first|].
  unfold get_company. simpl. rewrite replace_first_twice by done.
  apply find_replace_first; [done|].
  unfold get_company in Hget. by rewrite Hget.
Qed.

Lemma upsert_overwrites_only_non_null_witness :
  ∃ d1 r1 d2 r2,
    upsert_company Scenarios.apple_db 5 Scenarios.apple_update = Ok (d1, r1)
    ∧ CompanyDB.name r1 = PStr "Apple Inc"
    ∧ CompanyDB.sector r1 = PStr "Technology"
    ∧ CompanyDB.updated_at r1 = PTime 5
    ∧ upsert_company d1 9 Scenarios.apple_update = Ok (d2, r2)
    ∧ CompanyDB.name r2 = CompanyDB.name r1
    ∧ CompanyDB.sector r2 = CompanyDB.sector r1
    ∧ length (companies d2) = 1.
Proof.
  destruct (upsert_overwrites_only_non_null Scenarios.apple_db 5 9
              Scenarios.apple_update "AAPL" Scenarios.apple_row)
    as (d1 & r1 & H1 & Hcols & _ & Hat & _ & _ & d2 & r2 & H2 & Hsame & _ & _ & Hlen & _).
  - reflexivity.
  - reflexivity.
  - right. reflexivity.
  - exists d1, r1, d2, r2. split; [exact H1|].
    split; [exact (Hcols C_name ltac:(discriminate))|].
    split; [exact (Hcols C_sector ltac:(discriminate))|].
    split; [exact Hat|]. split; [exact H2|].
    split; [exact (Hsame C_name ltac:(discriminate))|].
    split; [exact (Hsame C_sector ltac:(discriminate))|].
    exact Hlen.
Defined.

(** C7, at the failing input.  An upsert of a payload whose symbol is in lower
    case into an empty store succeeds and stores the symbol as given; an
    upsert of the same company spelled in upper case then adds a second row,
    so that the store holds two rows for one case-insensitive symbol. *)
Theorem upsert_stores_the_symbol_as_given :
  ∃ d1 r1 d2 r2,
    upsert_company empty_db 0 Scenarios.apple_lowercase = Ok (d1, r1)
    ∧ CompanyDB.symbol r1 = PStr "aapl"
    ∧ upsert_company d1 1 Scenarios.apple_uppercase = Ok (d2, r2)
    ∧ map CompanyDB.symbol (companies d2) = [PStr "aapl"; PStr "AAPL"].
Proof.
  eexists _, _, _, _. split; [vm_compute; reflexivity|].
  split; [reflexivity|]. split; [vm_compute; reflexivity|]. reflexivity.
Qed.

(** C6, at the failing input.  On the store that holds the company "AAPL",
    an upsert of the payload [{symbol: "aapl", name: "Apple"}] finds the row
    and rewrites its key to "aapl"; a second upsert of the same payload
    looks for "AAPL", finds no row, and the insert it attempts instead
    violates the primary key: it raises [IntegrityError] where one row with
    the same values was to remain. *)
Example lowercase_upsert_is_not_repeatable :
  ∃ d1 r1,
    upsert_company Scenarios.apple_db 5 Scenarios.apple_lowercase = Ok (d1, r1)
    ∧ CompanyDB.symbol r1 = PStr "aapl"
    ∧ upsert_company d1 9 Scenarios.apple_lowercase
      = Raise (Exn "IntegrityError" "UNIQUE constraint failed: companies.symbol").
Proof.
  eexists _, _. split; [vm_compute; reflexivity|].
  split; [reflexivity|]. vm_compute. reflexivity.
Qed.

(** *** [upsert_company] leaves the other tables alone *)

Lemma upsert_company_tables (d d' : db) (utcnow : Z) (company_data : gmap string pyval)
  (row : CompanyDB.t) :
  upsert_company d utcnow company_data = Ok (d', row) →
  stock_data d' = stock_data d ∧ news_articles d' = news_articles d.
Proof.
  unfold upsert_company, mbind, outcome_bind.
  destruct (payload_symbol company_data) as [symbol|]; [|done].
  destruct (get_company d symbol) as [existing|].
  - destruct (_ && _); [done|]. by intros [= <- _].
  - destruct (construct company_data utcnow) as [company|]; [|done].
    repeat (destruct (_ : bool); [done|]). by intros [= <- _].
Qed.

(** *** [add_stock_data] *)

Lemma add_stock_loop (d : db) (symbol : string) (records pending : list StockRecord.t)
  (count : nat) :
  fold_left
    (λ '(pending, count) record,
       match stock_on d symbol (StockRecord.date record) with
       | Some _ => (pending, count)
       | None => (pending ++ [record], count + 1)
       end)
    records (pending, count)
  = (pending ++ List.filter (wanted d symbol) records,
     count + length (List.filter (wanted d symbol) records)).
Proof.
  revert pending count. induction records as [|r rs IH]; intros pending count; simpl.
  - by rewrite app_nil_r, Nat.add_0_r.
  - destruct (stock_on d symbol (StockRecord.date r)) as [t|] eqn:E.
    + assert (Hw : wanted d symbol r = false) by (unfold wanted; by rewrite E).
      rewrite Hw. apply IH.
    + assert (Hw : wanted d symbol r = true) by (unfold wanted; by rewrite E).
      rewrite Hw, IH, <- app_assoc. simpl. f_equal. lia.
Qed.

Lemma flush_stock_app (rows : list StockDataDB.t) (symbol : string)
  (pending : list StockRecord.t) :
  ∃ added,
    flush_stock rows symbol pending = rows ++ added
    ∧ map stock_key added = map (λ r, (symbol, StockRecord.date r)) pending.
Proof.
  revert rows. induction pending as [|r pending IH]; intros rows; simpl.
  - exists []. by rewrite app_nil_r.
  - destruct (IH (rows ++ [stock_row (next_id StockDataDB.id rows) symbol r]))
      as (added & -> & Hkeys).
    eexists (_ :: added). rewrite <- app_assoc. split; [done|].
    simpl. by rewrite Hkeys.
Qed.

Lemma add_stock_data_spec (d : db) (symbol : string) (records : list StockRecord.t) :
  ∃ added,
    stock_data (add_stock_data d symbol records).1 = stock_data d ++ added
    ∧ (add_stock_data d symbol records).2 = length added
    ∧ map stock_key added
      = map (λ r, (upper symbol, StockRecord.date r))
          (List.filter (wanted d (upper symbol)) records)
    ∧ companies (add_stock_data d symbol records).1 = companies d
    ∧ news_articles (add_stock_data d symbol records).1 = news_articles d.
Proof.
  unfold add_stock_data. rewrite add_stock_loop. simpl.
  destruct (flush_stock_app (stock_data d) (upper symbol)
              (List.filter (wanted d (upper symbol)) records)) as (added & -> & Hkeys).
  exists added. repeat split; [|done].
  by rewrite <- (length_map stock_key), Hkeys, length_map.
Qed.

Lemma stock_on_None (d : db) (symbol : string) (date : Z) :
  stock_on d symbol date = None → (symbol, date) ∉ map stock_key (stock_data d).
Proof.
  unfold stock_on. intros Hnone Hin.
  apply list_elem_of_fmap in Hin as (r & Hkey & Hr).
  apply list_elem_of_In in Hr.
  pose proof (find_none _ _ Hnone r Hr) as Hf. simpl in Hf.
  unfold stock_key in Hkey. injection Hkey as -> ->.
  rewrite String.eqb_refl, Z.eqb_refl in Hf. done.
Qed.

Lemma add_stock_data_keeps_keys (d : db) (symbol : string) (records : list StockRecord.t) :
  NoDup (map StockRecord.date records) →
  NoDup (map stock_key (stock_data d)) →
  NoDup (map stock_key (stock_data (add_stock_data d symbol records).1)).
Proof.
  intros Hdates Hd.
  destruct (add_stock_data_spec d symbol records) as (added & -> & _ & Hkeys & _).
  rewrite map_app. apply NoDup_app. split; [done|]. split.
  - intros k Hk Hk'. rewrite Hkeys in Hk'.
    apply list_elem_of_fmap in Hk' as (r & -> & Hr).
    apply list_elem_of_In, filter_In in Hr as [_ Hw].
    unfold wanted in Hw. apply bool_decide_eq_true in Hw.
    by apply stock_on_None in Hw.
  - rewrite Hkeys.
    assert (Hsub : NoDup (map StockRecord.date
                            (List.filter (wanted d (upper symbol)) records))).
    { clear -Hdates. induction records as [|r rs IH]; simpl; [constructor|].
      simpl in Hdates. apply NoDup_cons in Hdates as [Hr Hrs].
      destruct (wanted d (upper symbol) r); simpl; [|by apply IH].
      apply NoDup_cons. split; [|by apply IH].
      intros Hin. apply Hr. apply list_elem_of_fmap in Hin as (r' & -> & Hr').
      apply list_elem_of_fmap. exists r'. split; [done|].
      apply list_elem_of_In. apply list_elem_of_In, filter_In in Hr' as [? _]. done. }
    revert Hsub. generalize (List.filter (wanted d (upper symbol)) records).
    intros l Hl. induction l as [|r l IH]; simpl; [constructor|].
    simpl in Hl. apply NoDup_cons in Hl as [Hr Hl].
    apply NoDup_cons. split; [|by apply IH].
    intros Hin. apply Hr. apply list_elem_of_fmap in Hin as (r' & [= ->] & Hr').
    apply list_elem_of_fmap. by exists r'.
Qed.

(** *** [add_news_article] and [update_article_enrichment] *)

Lemma find_app_None {A} (p : A → bool) (l : list A) (x : A) :
  find p l = None → p x = true → find p (l ++ [x]) = Some x.
Proof.
  induction l as [|y l IH]; simpl; intros Hn Hx; [by rewrite Hx|].
  destruct (p y); [done|]. by apply IH.
Qed.

Lemma url_is_keyed (u : string) (l : list NewsArticleDB.t) :
  truthy_str u = true →
  find (url_is (Some u)) l = None → u ∉ omap keyed_url l.
Proof.
  intros Hu Hnone Hin.
  apply list_elem_of_omap in Hin as (r & Hr & Hk).
  apply list_elem_of_In in Hr.
  pose proof (find_none _ _ Hnone r Hr) as Hf.
  unfold keyed_url in Hk. unfold url_is in Hf.
  destruct (NewsArticleDB.url r) as [v|]; [|done].
  destruct (truthy_str v); [|done]. injection Hk as ->.
  by rewrite bool_decide_eq_true_2 in Hf.
Qed.

(** What one call of [add_news_article] does: it returns a stored row with
    the article's URL and leaves the store alone, or it appends one row built
    from the article. *)
Lemma add_news_article_spec (d d' : db) (symbol : string) (article_data : Article.t)
  (row : NewsArticleDB.t) :
  add_news_article d symbol article_data = Ok (d', row) →
  (d' = d
   ∧ truthy_opt (Article.url article_data) = true
   ∧ find (url_is (Article.url article_data)) (news_articles d) = Some row)
  ∨ (∃ title,
       Article.title article_data = Some title
       ∧ row = news_row (next_id NewsArticleDB.id (news_articles d)) (upper symbol)
                 title article_data
       ∧ d' = Db (companies d) (stock_data d) (news_articles d ++ [row])
       ∧ (truthy_opt (Article.url article_data) = true →
          find (url_is (Article.url article_data)) (news_articles d) = None)).
Proof.
  unfold add_news_article.
  destruct (truthy_opt (Article.url article_data)) eqn:Eu.
  - destruct (find _ _) as [existing|] eqn:Ef.
    + intros [= <- <-]. by left.
    + destruct (Article.title article_data) as [title|]; [|done].
      intros [= <- <-]. right. by exists title.
  - destruct (Article.title article_data) as [title|]; [|done].
    intros [= <- <-]. right. by exists title.
Qed.

Lemma add_news_article_keeps_urls (d d' : db) (symbol : string)
  (article_data : Article.t) (row : NewsArticleDB.t) :
  add_news_article d symbol article_data = Ok (d', row) →
  NoDup (omap keyed_url (news_articles d)) →
  NoDup (omap keyed_url (news_articles d')).
Proof.
  intros Hadd Hd.
  apply add_news_article_spec in Hadd
    as [(-> & _ & _)|(title & Ht & -> & -> & Hfresh)]; [done|].
  simpl. rewrite omap_app. simpl. unfold keyed_url at 2. simpl.
  destruct (Article.url article_data) as [u|] eqn:Eu; [|by rewrite app_nil_r].
  destruct (truthy_str u) eqn:Etu; [|by rewrite app_nil_r].
  apply NoDup_app. split; [done|]. split; [|apply NoDup_singleton].
  intros v Hv Hv'. apply list_elem_of_singleton in Hv' as ->.
  revert Hv. apply url_is_keyed; [done|]. apply Hfresh. simpl. done.
Qed.

Lemma add_news_article_again (d d' : db) (symbol symbol' : string)
  (article_data article_data' : Article.t) (row : NewsArticleDB.t) :
  truthy_opt (Article.url article_data) = true →
  add_news_article d symbol article_data = Ok (d', row) →
  Article.url article_data' = Article.url article_data →
  add_news_article d' symbol' article_data' = Ok (d', row).
Proof.
  intros Hu Hadd Hsame.
  apply add_news_article_spec in Hadd
    as [(-> & _ & Hf)|(title & Ht & Hrow & -> & Hfresh)].
  - unfold add_news_article. by rewrite Hsame, Hu, Hf.
  - unfold add_news_article. rewrite Hsame, Hu. simpl.
    rewrite (find_app_None _ _ row); [done|by apply Hfresh|].
    rewrite Hrow. unfold url_is, news_row. simpl. by apply bool_decide_eq_true.
Qed.

Lemma replace_first_keyed (p : NewsArticleDB.t → bool) (article new : NewsArticleDB.t)
  (l : list NewsArticleDB.t) :
  find p l = Some article →
  NewsArticleDB.url new = NewsArticleDB.url article →
  omap keyed_url (replace_first p new l) = omap keyed_url l.
Proof.
  intros Hf Hu. induction l as [|r l IH]; [done|].
  cbn [find replace_first] in *. destruct (p r).
  - injection Hf as ->.
    assert (E : keyed_url new = keyed_url article) by (unfold keyed_url; by rewrite Hu).
    change (omap keyed_url (new :: l)) with
      (match keyed_url new with Some y => y :: omap keyed_url l | None => omap keyed_url l end).
    by rewrite E.
  - change (omap keyed_url (r :: replace_first p new l)) with
      (match keyed_url r with
       | Some y => y :: omap keyed_url (replace_first p new l)
       | None => omap keyed_url (replace_first p new l)
       end).
    by rewrite IH.
Qed.

Lemma update_article_enrichment_tables (d : db) (utcnow : Z) (article_id : nat)
  (e : enrichment) :
  omap keyed_url (news_articles (update_article_enrichment d utcnow article_id e))
  = omap keyed_url (news_articles d)
  ∧ stock_data (update_article_enrichment d utcnow article_id e) = stock_data d
  ∧ companies (update_article_enrichment d utcnow article_id e) = companies d.
Proof.
  unfold update_article_enrichment.
  destruct (find _ _) as [article|] eqn:Ef; [|done]. simpl.
  split; [|done]. by apply (replace_first_keyed _ article).
Qed.

(** *** Invariants of the store *)

Lemma do_db_call_deduplicated (d : db) (c : db_call) :
  distinct_dates c → deduplicated d → deduplicated (do_db_call d c).
Proof.
  intros Hc [Hs Hn]. destruct c as [t data|symbol records|symbol article|t id e]; simpl.
  - destruct (upsert_company d t data) as [[d' row]|] eqn:E; [|done].
    apply upsert_company_tables in E as [Es En]. unfold deduplicated.
    by rewrite Es, En.
  - destruct (add_stock_data_spec d symbol records) as (added & _ & _ & _ & _ & En).
    split; [by apply add_stock_data_keeps_keys|]. by rewrite En.
  - destruct (add_news_article d symbol article) as [[d' row]|] eqn:E; [|done].
    split; [|by eapply add_news_article_keeps_urls].
    apply add_news_article_spec in E as [(-> & _)|(? & _ & _ & -> & _)]; done.
  - destruct (update_article_enrichment_tables d t id e) as (En & Es & _).
    unfold deduplicated. by rewrite En, Es.
Qed.

Lemma do_db_calls_deduplicated (cs : list db_call) (d : db) :
  Forall distinct_dates cs → deduplicated d → deduplicated (do_db_calls d cs).
Proof.
  unfold do_db_calls. revert d.
  induction cs as [|c cs IH]; intros d Hcs Hd; simpl; [done|].
  apply Forall_cons in Hcs as [Hc Hcs].
  apply IH; [done|]. by apply do_db_call_deduplicated.
Qed.

(** C5 (amended).  Start from the empty store and make any calls of the
    persistence layer, each batch of stock records naming every date once.
    Then the stock table holds at most one row per (symbol, date) and the
    news table at most one row per non-empty URL.  From such a store (as from
    any), [add_stock_data] only appends rows, leaving the stored ones as they
    are, and returns the number of rows it appended; and once
    [add_news_article] has returned for an article with a non-empty URL, a
    further call for that URL returns the same row and leaves the store as
    it is. *)
Theorem persistence_deduplicates (cs : list db_call) :
  Forall distinct_dates cs →
  let d := do_db_calls empty_db cs in
  NoDup (map stock_key (stock_data d))
  ∧ NoDup (omap keyed_url (news_articles d))
  ∧ (∀ symbol stock_records,
       ∃ added,
         stock_data (add_stock_data d symbol stock_records).1 = stock_data d ++ added
         ∧ (add_stock_data d symbol stock_records).2 = length added)
  ∧ (∀ symbol article_data d' row symbol' article_data',
       truthy_opt (Article.url article_data) = true →
       add_news_article d symbol article_data = Ok (d', row) →
       Article.url article_data' = Article.url article_data →
       add_news_article d' symbol' article_data' = Ok (d', row)).
Proof.
  intros Hcs d.
  destruct (do_db_calls_deduplicated cs empty_db Hcs) as [Hs Hn].
  { split; simpl; constructor. }
  split; [done|]. split; [done|]. split.
  - intros symbol records.
    destruct (add_stock_data_spec d symbol records) as (added & H1 & H2 & _).
    by exists added.
  - intros. by eapply add_news_article_again.
Qed.

(** Against C5 as stated: one batch that names a date twice leaves two rows
    for one (symbol, date); two articles whose URL is the empty string, which
    is not null, leave two rows with that URL. *)
Lemma duplicates_get_through :
  ¬ NoDup (map stock_key
             (stock_data
                (do_db_calls empty_db
                   [CallAddStock "ACME" [Scenarios.day_one; Scenarios.day_one]])))
  ∧ ¬ NoDup (omap NewsArticleDB.url
               (news_articles
                  (do_db_calls empty_db
                     [ CallAddNews "ACME" Scenarios.blank_url;
                       CallAddNews "ACME" Scenarios.blank_url ]))).
Proof.
  split; vm_compute; intros H; apply NoDup_cons in H as [H _]; apply H; by left.
Qed.

(** *** Sorting *)

Section Sorting.

Context {A : Type} (leb : A → A → bool).

Lemma insert_sorted_perm (x : A) (l : list A) : insert_sorted leb x l ≡ₚ x :: l.
Proof.
  induction l as [|y l IH]; simpl; [done|].
  destruct (leb x y); [done|]. rewrite IH. apply Permutation_swap.
Qed.

Lemma stable_sort_perm (l : list A) : stable_sort leb l ≡ₚ l.
Proof.
  induction l as [|x l IH]; simpl; [done|].
  by rewrite insert_sorted_perm, IH.
Qed.

Hypothesis leb_total : ∀ x y, leb x y = true ∨ leb y x = true.
Hypothesis leb_trans : ∀ x y z, leb x y = true → leb y z = true → leb x z = true.

Lemma insert_sorted_sorted (x : A) (l : list A) :
  StronglySorted (λ a b, leb a b = true) l →
  StronglySorted (λ a b, leb a b = true) (insert_sorted leb x l).
Proof.
  induction 1 as [|y l Hs IH Hy]; simpl.
  - repeat constructor.
  - destruct (leb x y) eqn:E.
    + constructor; [by constructor|].
      constructor; [done|].
      eapply Forall_impl; [exact Hy|]. intros z Hz. by eapply leb_trans.
    + constructor; [done|].
      rewrite insert_sorted_perm. constructor; [|done].
      destruct (leb_total x y); [congruence|done].
Qed.

Lemma stable_sort_sorted (l : list A) :
  StronglySorted (λ a b, leb a b = true) (stable_sort leb l).
Proof.
  induction l as [|x l IH]; simpl; [constructor|].
  by apply insert_sorted_sorted.
Qed.

End Sorting.

Lemma strongly_sorted_weaken {A} (R R' : A → A → Prop) (l : list A) :
  (∀ x y, R x y → R' x y) → StronglySorted R l → StronglySorted R' l.
Proof.
  intros HR. induction 1 as [|x l Hs IH Hx]; constructor; [done|].
  eapply Forall_impl; [exact Hx|]. intros y. apply HR.
Qed.










Lemma persistence_deduplicates_witness :
  NoDup (map stock_key (stock_data (do_db_calls empty_db Scenarios.overlapping)))
  ∧ length (stock_data (do_db_calls empty_db Scenarios.overlapping)) = 2
  ∧ NoDup (omap keyed_url (news_articles (do_db_calls empty_db Scenarios.overlapping)))
  ∧ length (news_articles (do_db_calls empty_db Scenarios.overlapping)) = 1.
Proof.
  destruct (persistence_deduplicates Scenarios.overlapping) as (H1 & H2 & _).
  - unfold Scenarios.overlapping.
    repeat (apply Forall_cons; split; [simpl|]); try apply Forall_nil; try exact I.
    + apply NoDup_cons. split; [|apply NoDup_singleton].
      intros H. apply list_elem_of_singleton in H. discriminate.
    + apply NoDup_cons. split; [|apply NoDup_singleton].
      intros H. apply list_elem_of_singleton in H. discriminate.
  - split; [exact H1|]. split; [reflexivity|]. split; [exact H2|]. reflexivity.
Defined.

(** *** Stored symbols are strings *)


Lemma construct_symbol (company_data : gmap string pyval) (utcnow : Z)
  (company : CompanyDB.t) :
  construct company_data utcnow = Ok company →
  CompanyDB.symbol company = default PNone (company_data !! "symbol").
Proof.
  unfold construct. destruct (map_fold _ _ _); [|done]. by intros [= <-].
Qed.

Lemma Forall_replace_first {A} (P : A → Prop) (p : A → bool) (new : A) (l : list A) :
  P new → Forall P l → Forall P (replace_first p new l).
Proof.
  intros Hnew. induction 1 as [|x l Hx Hl IH]; simpl; [constructor|].
  destruct (p x); by constructor.
Qed.





(** The example of the specification: means 0.1, -0.9 and 0.4. *)
Example three_means_ranked :
  ∃ insights,
    get_all_insights Scenarios.three_means = Ok insights
    ∧ map Insight.symbol insights = ["B"; "C"; "A"]
    ∧ Forall2 Qeq (map Insight.avg_sentiment insights) [(-0.9)%Q; 0.4%Q; 0.1%Q].
Proof.
  eexists. split; [vm_compute; reflexivity|]. split; [reflexivity|].
  repeat constructor.
Qed.

(** *** Rows under later writes *)

Lemma next_id_gt {A} (id : A → nat) (rows : list A) (r : A) :
  r ∈ rows → id r < next_id id rows.
Proof.
  unfold next_id. induction 1 as [r rows|r r' rows _ IH]; simpl; lia.
Qed.

Lemma find_app_miss {A} (p : A → bool) (l : list A) (x : A) :
  find p l = None → p x = false → find p (l ++ [x]) = None.
Proof.
  induction l as [|y l IH]; simpl; [by intros _ ->|].
  destruct (p y); [done|]. apply IH.
Qed.

Lemma find_replace_first_miss {A} (p q : A → bool) (new : A) (l : list A) :
  find q l = None → q new = false → find q (replace_first p new l) = None.
Proof.
  induction l as [|y l IH]; simpl; [done|].
  destruct (q y) eqn:Eq; [done|]. intros Hn Hx.
  destruct (p y); simpl; [by rewrite Hx|]. rewrite Eq. by apply IH.
Qed.

Lemma elem_of_replace_first {A} (p : A → bool) (new r : A) (l : list A) :
  r ∈ replace_first p new l → r = new ∨ r ∈ l.
Proof.
  induction l as [|y l IH]; simpl; [by intros ?%elem_of_nil|].
  destruct (p y).
  - intros [->|?]%elem_of_cons; [by left|right; by right].
  - intros [->|H]%elem_of_cons; [right; by left|].
    destruct (IH H); [by left|right; by right].
Qed.

Lemma replace_first_keeps {A} (p : A → bool) (new r : A) (l : list A) :
  r ∈ l → p r = false → r ∈ replace_first p new l.
Proof.
  induction 1 as [r l|r y l Hr IH]; simpl; intros Hp.
  - rewrite Hp. by left.
  - destruct (p y); [by right|]. right. by apply IH.
Qed.

Lemma replace_first_has_url (p : NewsArticleDB.t → bool) (article new r : NewsArticleDB.t)
  (l : list NewsArticleDB.t) :
  find p l = Some article →
  NewsArticleDB.url new = NewsArticleDB.url article →
  r ∈ l →
  ∃ r', r' ∈ replace_first p new l ∧ NewsArticleDB.url r' = NewsArticleDB.url r.
Proof.
  intros Hf Hu. induction 1 as [r l|r y l Hr IH]; simpl in *.
  - destruct (p r).
    + injection Hf as ->. exists new. split; [by left|done].
    + exists r. split; [by left|done].
  - destruct (p y).
    + exists r. split; [by right|done].
    + destruct (IH Hf) as (r' & Hr' & Hu'). exists r'. split; [by right|done].
Qed.

Lemma update_keeps_url_absent (u : option string) (d : db) (t : Z) (i : nat)
  (e : enrichment) :
  url_absent u d → url_absent u (update_article_enrichment d t i e).
Proof.
  unfold update_article_enrichment.
  destruct (find _ _) as [article|] eqn:Ef; [|done].
  unfold url_absent. simpl. intros Ha.
  apply find_replace_first_miss; [done|].
  apply find_some in Ef as [Hin _].
  apply (find_none _ _ Ha) in Hin. exact Hin.
Qed.

Lemma written_keeps_url_absent (u : option string) (d d1 : db) (symbol : string)
  (article_data : Article.t) (row : NewsArticleDB.t) (en : option enrichment) (t : Z) :
  Article.url article_data ≠ u →
  add_news_article d symbol article_data = Ok (d1, row) →
  url_absent u d → url_absent u (written d1 row en t).
Proof.
  intros Hne Hadd Ha.
  assert (Ha1 : url_absent u d1).
  { apply add_news_article_spec in Hadd
      as [(-> & _)|(title & _ & -> & -> & _)]; [done|].
    unfold url_absent. simpl. apply find_app_miss; [done|].
    unfold url_is, news_row. simpl. by apply bool_decide_eq_false. }
  destruct en; simpl; [by apply update_keeps_url_absent|done].
Qed.

Lemma update_keeps_row (row : NewsArticleDB.t) (d : db) (t : Z) (i : nat)
  (e : enrichment) :
  i ≠ NewsArticleDB.id row →
  row_kept row d → row_kept row (update_article_enrichment d t i e).
Proof.
  unfold row_kept, update_article_enrichment. intros Hi [Hin Huniq].
  destruct (find _ _) as [article|] eqn:Ef; [|done]. simpl.
  apply find_some in Ef as [_ Hid]. apply Nat.eqb_eq in Hid.
  split.
  - apply replace_first_keeps; [done|]. apply Nat.eqb_neq. congruence.
  - intros r Hr Hrid. apply elem_of_replace_first in Hr as [->|Hr]; [|by apply Huniq].
    simpl in Hrid. congruence.
Qed.

Lemma written_keeps_row (row0 : NewsArticleDB.t) (d d1 : db) (symbol : string)
  (article_data : Article.t) (row : NewsArticleDB.t) (en : option enrichment) (t : Z) :
  (truthy_opt (Article.url article_data) = true →
   Article.url article_data ≠ NewsArticleDB.url row0) →
  add_news_article d symbol article_data = Ok (d1, row) →
  row_kept row0 d → row_kept row0 (written d1 row en t).
Proof.
  intros Hne Hadd [Hin Huniq].
  assert (H1 : row_kept row0 d1 ∧ NewsArticleDB.id row ≠ NewsArticleDB.id row0).
  { apply add_news_article_spec in Hadd
      as [(-> & Hu & Hf)|(title & _ & Hrow & -> & _)].
    - split; [done|]. apply find_some in Hf as [Hr Hurl].
      apply list_elem_of_In in Hr.
      unfold url_is in Hurl. apply bool_decide_eq_true in Hurl.
      intros Hid. apply Huniq in Hid; [|done]. subst row.
      by apply Hne.
    - assert (Hlt : NewsArticleDB.id row0 < NewsArticleDB.id row).
      { rewrite Hrow. simpl. by apply next_id_gt. }
      split; [|lia]. split; simpl.
      + apply elem_of_app. by left.
      + intros r [Hr|Hr]%elem_of_app Hid; [by apply Huniq|].
        apply list_elem_of_singleton in Hr as ->. lia. }
  destruct H1 as [Hk Hid]. destruct en; simpl; [|done].
  by apply update_keeps_row.
Qed.

Lemma update_keeps_url_stored (u : option string) (d : db) (t : Z) (i : nat)
  (e : enrichment) :
  url_stored u d → url_stored u (update_article_enrichment d t i e).
Proof.
  unfold url_stored, update_article_enrichment. intros (r & Hr & Hu).
  destruct (find _ _) as [article|] eqn:Ef; [|by exists r]. simpl.
  destruct (replace_first_has_url _ article (enriched_row article e t) r _ Ef) as (r' & ? & ?);
    [done|done|].
  exists r'. split; [done|congruence].
Qed.

Lemma written_keeps_url_stored (u : option string) (d d1 : db) (symbol : string)
  (article_data : Article.t) (row : NewsArticleDB.t) (en : option enrichment) (t : Z) :
  add_news_article d symbol article_data = Ok (d1, row) →
  url_stored u d → url_stored u (written d1 row en t).
Proof.
  intros Hadd (r & Hr & Hu).
  assert (H1 : url_stored u d1).
  { apply add_news_article_spec in Hadd
      as [(-> & _)|(title & _ & _ & -> & _)]; [by exists r|].
    exists r. split; [|done]. simpl. apply elem_of_app. by left. }
  destruct en; simpl; [by apply update_keeps_url_stored|done].
Qed.

Lemma written_stores_url (d d1 : db) (symbol : string)
  (article_data : Article.t) (row : NewsArticleDB.t) (en : option enrichment) (t : Z) :
  add_news_article d symbol article_data = Ok (d1, row) →
  url_stored (Article.url article_data) (written d1 row en t).
Proof.
  intros Hadd.
  assert (H1 : url_stored (Article.url article_data) d1).
  { apply add_news_article_spec in Hadd
      as [(-> & _ & Hf)|(title & _ & -> & -> & _)].
    - apply find_some in Hf as [Hr Hurl]. apply list_elem_of_In in Hr.
      unfold url_is in Hurl. apply bool_decide_eq_true in Hurl. by exists row.
    - eexists. split; [simpl; apply elem_of_app; right; by left|done]. }
  destruct en; simpl; [by apply update_keeps_url_stored|done].
Qed.

(** A fresh insert: the article's URL keys no stored row. *)
Lemma add_news_article_fresh (d d1 : db) (symbol : string)
  (article_data : Article.t) (row : NewsArticleDB.t) :
  (truthy_opt (Article.url article_data) = true →
   url_absent (Article.url article_data) d) →
  add_news_article d symbol article_data = Ok (d1, row) →
  ∃ title,
    Article.title article_data = Some title
    ∧ row = news_row (next_id NewsArticleDB.id (Database.news_articles d)) (upper symbol)
              title article_data
    ∧ row_kept row d1.
Proof.
  intros Habs Hadd.
  apply add_news_article_spec in Hadd
    as [(-> & Hu & Hf)|(title & Ht & Hrow & -> & _)].
  - apply Habs in Hu. unfold url_absent in Hu. congruence.
  - exists title. split; [done|]. split; [done|]. split; simpl.
    + apply elem_of_app. right. by left.
    + intros r [Hr|Hr]%elem_of_app Hid; [|by apply list_elem_of_singleton in Hr].
      apply (next_id_gt NewsArticleDB.id) in Hr. rewrite Hrow in Hid. simpl in Hid. lia.
Qed.

End DatabaseFacts.

(** ** Theorems: the pipeline *)

Module PipelineFacts.
Import DataSources Enrichment Database Pipeline PyFacts DatabaseFacts.

(** Unfold the monad of [Pipeline] down to state passing. *)
Ltac unfold_m :=
  cbv [mbind M_bind mret M_ret modify read call skip update_result now when try_except].

(** Case analysis on every outcome, option and condition in the goal. *)
Ltac cases :=
  repeat match goal with
         | |- context [match ?x with Ok _ => _ | Raise _ => _ end] => destruct x eqn:?
         | |- context [match ?x with Some _ => _ | None => _ end] => destruct x eqn:?
         | |- context [if ?x then _ else _] => destruct x eqn:?
         end.

Section Run.

(** The adapters and the clock are arbitrary, as in [Pipeline]. *)
Variable fetch_company_overview : string → outcome (option (gmap string pyval)).
Variable fetch_stock_data : string → Z → outcome (list StockRecord.t).
Variable fetch_news_articles : pyval → string → Z → Z → outcome (list Article.t).
Variable enrich_news_article : nat → Article.t → pyval → outcome enrichment.
Variable generate_company_summary :
  gmap string pyval → list Article.t → outcome string.
Variable utcnow : nat → Z.

#[local] Abbreviation step_company := (_step_fetch_company fetch_company_overview).
#[local] Abbreviation step_stock := (_step_fetch_stock fetch_stock_data).
#[local] Abbreviation step_news := (_step_fetch_news fetch_news_articles).
#[local] Abbreviation step_enrich := (_step_enrich_articles enrich_news_article).
#[local] Abbreviation step_summary := (_step_generate_summary generate_company_summary).
#[local] Abbreviation step_persist := (_step_persist_data utcnow).
#[local] Abbreviation the_plan :=
  (plan fetch_company_overview fetch_stock_data fetch_news_articles
     enrich_news_article generate_company_summary utcnow).
#[local] Abbreviation the_run :=
  (run fetch_company_overview fetch_stock_data fetch_news_articles
     enrich_news_article generate_company_summary utcnow).
#[local] Abbreviation the_steps :=
  (run_steps fetch_company_overview fetch_stock_data fetch_news_articles
     enrich_news_article generate_company_summary utcnow).
#[local] Abbreviation the_pipeline :=
  (run_pipeline fetch_company_overview fetch_stock_data fetch_news_articles
     enrich_news_article generate_company_summary utcnow).
#[local] Abbreviation the_attempts := (attempts enrich_news_article).

(** *** What the fetching steps leave alone *)

Lemma same_work_refl s : same_work s s.
Proof. by repeat split. Qed.

Lemma same_work_trans s1 s2 s3 : same_work s1 s2 → same_work s2 s3 → same_work s1 s3.
Proof.
  unfold same_work. intros (?&?&?&?&?) (?&?&?&?&?). repeat split; congruence.
Qed.

Lemma fetch_company_frame s s' r :
  step_company s = (s', r) →
  same_work s s'
  ∧ PipelineResult.current_step (result s') = Some "fetch_company_data"
  ∧ PipelineResult.steps_completed (result s')
    = PipelineResult.steps_completed (result s) ++ (if is_ok r then ["fetch_company_data"] else []).
Proof.
  unfold _step_fetch_company. unfold_m.
  cases; intros [= <- <-]; simpl; by rewrite ?app_nil_r.
Qed.

Lemma fetch_stock_frame s s' r :
  step_stock s = (s', r) →
  same_work s s'
  ∧ PipelineResult.current_step (result s') = Some "fetch_stock_prices"
  ∧ PipelineResult.steps_completed (result s')
    = PipelineResult.steps_completed (result s) ++ (if is_ok r then ["fetch_stock_prices"] else []).
Proof.
  unfold _step_fetch_stock. unfold_m.
  cases; intros [= <- <-]; simpl; by rewrite ?app_nil_r.
Qed.

Lemma fetch_news_frame s s' r :
  step_news s = (s', r) →
  same_work s s'
  ∧ PipelineResult.current_step (result s') = Some "fetch_news"
  ∧ PipelineResult.steps_completed (result s')
    = PipelineResult.steps_completed (result s) ++ (if is_ok r then ["fetch_news"] else []).
Proof.
  unfold _step_fetch_news. unfold_m.
  cases; intros [= <- <-]; simpl; by rewrite ?app_nil_r.
Qed.

Lemma generate_summary_frame s s' r :
  step_summary s = (s', r) →
  same_work s s'
  ∧ PipelineResult.current_step (result s') = Some "generate_summary"
  ∧ PipelineResult.steps_completed (result s')
    = PipelineResult.steps_completed (result s) ++ (if is_ok r then ["generate_summary"] else []).
Proof.
  unfold _step_generate_summary. unfold_m.
  cases; intros [= <- <-]; simpl; by rewrite ?app_nil_r.
Qed.

(** *** The enrichment loop *)

Lemma enrich_from_spec articles : ∀ i name s,
  ∃ s',
    enrich_from enrich_news_article i name articles s = (s', Ok tt)
    ∧ symbol s' = symbol s
    ∧ options_ s' = options_ s
    ∧ database s' = database s
    ∧ enriched_articles s' = enriched_articles s ++ the_attempts i name articles
    ∧ PipelineResult.articles_enriched (result s')
      = PipelineResult.articles_enriched (result s) + enriched_count (the_attempts i name articles)
    ∧ PipelineResult.current_step (result s') = PipelineResult.current_step (result s)
    ∧ PipelineResult.steps_completed (result s')
      = PipelineResult.steps_completed (result s).
Proof.
  induction articles as [|article rest IH]; intros i name s.
  - exists s. simpl. unfold skip, mret, M_ret.
    rewrite app_nil_r, Nat.add_0_r. done.
  - cbn [enrich_from attempts]. unfold_m.
    destruct (enrich_news_article i article name) as [e|err].
    + edestruct IH as (s' & -> & H1 & H2 & H3 & H4 & H5 & H6 & H7).
      exists s'. split; [reflexivity|].
      rewrite H1, H2, H3, H4, H5, H6, H7. simpl.
      split_and!; try done; try (by rewrite <- app_assoc).
      all: unfold enriched_count; simpl; lia.
    + edestruct IH as (s' & -> & H1 & H2 & H3 & H4 & H5 & H6 & H7).
      exists s'. split; [reflexivity|].
      rewrite H1, H2, H3, H4, H5, H6, H7. simpl.
      split_and!; try done; try (by rewrite <- app_assoc).
      all: unfold enriched_count; simpl; lia.
Qed.

(** Step 4 never raises. *)
Lemma enrich_articles_spec s :
  ∃ s',
    step_enrich s = (s', Ok tt)
    ∧ symbol s' = symbol s
    ∧ options_ s' = options_ s
    ∧ database s' = database s
    ∧ enriched_articles s'
      = enriched_articles s ++ the_attempts 0 (company_name s) (news_articles s)
    ∧ PipelineResult.articles_enriched (result s')
      = PipelineResult.articles_enriched (result s)
        + enriched_count (the_attempts 0 (company_name s) (news_articles s))
    ∧ PipelineResult.current_step (result s') = Some "enrich_articles"
    ∧ PipelineResult.steps_completed (result s')
      = PipelineResult.steps_completed (result s) ++ ["enrich_articles"].
Proof.
  unfold _step_enrich_articles. unfold_m.
  edestruct (enrich_from_spec (news_articles s)) as (s' & -> & H1 & H2 & H3 & H4 & H5 & H6 & H7).
  eexists. split; [reflexivity|]. simpl.
  rewrite H1, H2, H3, H4, H5, H6, H7. done.
Qed.

Lemma attempts_lookup articles : ∀ base i name,
  the_attempts base name articles !! i
  = (λ article,
       (article,
        match enrich_news_article (base + i) article name with
        | Ok e => Some e
        | Raise _ => None
        end)) <$> articles !! i.
Proof.
  induction articles as [|a rest IH]; intros base i name; [done|].
  destruct i as [|i]; simpl.
  - by rewrite Nat.add_0_r.
  - rewrite IH. simpl. by rewrite Nat.add_succ_r.
Qed.

Lemma attempts_count articles : ∀ base k name,
  (∀ i article, articles !! i = Some article →
     is_ok (enrich_news_article (base + i) article name) = false ↔ base + i = k) →
  enriched_count (the_attempts base name articles)
  = length articles - (if bool_decide (base ≤ k < base + length articles) then 1 else 0).
Proof.
  induction articles as [|a rest IH]; intros base k name H; [done|].
  assert (Hrest : enriched_count (the_attempts (S base) name rest)
                  = length rest
                    - (if bool_decide (S base ≤ k < S base + length rest) then 1 else 0)).
  { apply IH. intros i article Hi. specialize (H (S i) article Hi).
    by rewrite Nat.add_succ_r in H. }
  pose proof (H 0 a eq_refl) as H0. rewrite Nat.add_0_r in H0.
  cbn [attempts]. unfold enriched_count in *. cbn [List.filter length snd].
  destruct (enrich_news_article base a name) as [e|err]; cbn [is_ok] in H0.
  - assert (base ≠ k) by (intros ->; by destruct H0 as [_ H0]; specialize (H0 eq_refl)).
    rewrite (bool_decide_eq_true_2 (is_Some (Some e))) by eauto.
    cbn [length]. rewrite Hrest. repeat case_bool_decide; lia.
  - assert (base = k) by (by apply H0).
    rewrite (bool_decide_eq_false_2 (is_Some None)) by (by intros [? ?]).
    rewrite Hrest. repeat case_bool_decide; lia.
Qed.

Lemma attempts_split articles k article_k name :
  articles !! k = Some article_k →
  is_ok (enrich_news_article k article_k name) = false →
  the_attempts 0 name articles
  = take k (the_attempts 0 name articles)
    ++ (article_k, None) :: drop (S k) (the_attempts 0 name articles).
Proof.
  intros Hk Hraise. symmetry. apply take_drop_middle.
  rewrite attempts_lookup, Hk. simpl.
  by destruct (enrich_news_article k article_k name).
Qed.

Lemma attempts_others articles k name article en :
  (article, en)
    ∈ take k (the_attempts 0 name articles) ++ drop (S k) (the_attempts 0 name articles) →
  ∃ j, j ≠ k ∧ articles !! j = Some article.
Proof.
  intros [Hin|Hin]%elem_of_app; apply list_elem_of_lookup in Hin as [j Hj].
  - apply lookup_take_Some in Hj as [Hj Hlt].
    rewrite attempts_lookup in Hj. apply fmap_Some in Hj as (a & Ha & [= -> _]).
    exists j. split; [lia|done].
  - rewrite lookup_drop in Hj.
    rewrite attempts_lookup in Hj. apply fmap_Some in Hj as (a & Ha & [= -> _]).
    exists (S k + j). split; [lia|done].
Qed.

(** *** The persistence loop *)

(** The persistence loop touches the database and the clock only. *)
Lemma persist_articles_frame self_symbol items : ∀ s s' r,
  persist_articles utcnow self_symbol items s = (s', r) →
  result s' = result s
  ∧ symbol s' = symbol s
  ∧ options_ s' = options_ s
  ∧ enriched_articles s' = enriched_articles s.
Proof.
  induction items as [|[article_data enrichment] rest IH]; intros s s' r.
  - unfold persist_articles, skip, mret, M_ret. by intros [= <- <-].
  - cbn [persist_articles]. unfold_m.
    destruct (add_news_article (database s) self_symbol article_data) as [[d row]|err];
      [|by intros [= <- <-]].
    destruct enrichment as [e|]; intros H; apply IH in H; exact H.
Qed.

Lemma persist_data_frame s s' r :
  step_persist s = (s', r) →
  PipelineResult.current_step (result s') = Some "persist_data"
  ∧ PipelineResult.steps_completed (result s')
    = PipelineResult.steps_completed (result s) ++ (if is_ok r then ["persist_data"] else [])
  ∧ PipelineResult.articles_enriched (result s')
    = PipelineResult.articles_enriched (result s)
  ∧ symbol s' = symbol s
  ∧ options_ s' = options_ s.
Proof.
  unfold _step_persist_data. unfold_m.
  destruct (upsert_company _ _ _) as [[d row]|err];
    [|intros [= <- <-]; simpl; by rewrite app_nil_r].
  cbn [symbol with_result with_clock with_database stock_data].
  destruct (stock_data s) as [|record records].
  - destruct (persist_articles _ _ _ _) as [s1 [[]|err]] eqn:E;
      apply persist_articles_frame in E as (E1 & E2 & E3 & E4);
      intros [= <- <-]; simpl; rewrite E1, E2, E3; simpl; by rewrite ?app_nil_r.
  - destruct (add_stock_data _ _ _) as [d' count].
    destruct (persist_articles _ _ _ _) as [s1 [[]|err]] eqn:E;
      apply persist_articles_frame in E as (E1 & E2 & E3 & E4);
      intros [= <- <-]; simpl; rewrite E1, E2, E3; simpl; by rewrite ?app_nil_r.
Qed.

Lemma persist_articles_cons self_symbol article_data en rest s s' :
  persist_articles utcnow self_symbol ((article_data, en) :: rest) s = (s', Ok tt) →
  ∃ d1 row t s1,
    add_news_article (database s) self_symbol article_data = Ok (d1, row)
    ∧ database s1 = written d1 row en t
    ∧ persist_articles utcnow self_symbol rest s1 = (s', Ok tt).
Proof.
  cbn [persist_articles]. unfold_m.
  destruct (add_news_article (database s) self_symbol article_data) as [[d1 row]|err];
    [|done].
  destruct en as [e|]; intros H.
  - eexists d1, row, _, _. split; [done|]. split; [|exact H]. reflexivity.
  - eexists d1, row, 0%Z, _. split; [done|]. split; [|exact H]. reflexivity.
Qed.

Lemma persist_articles_app self_symbol l1 l2 : ∀ s,
  persist_articles utcnow self_symbol (l1 ++ l2) s
  = match persist_articles utcnow self_symbol l1 s with
    | (s1, Ok _) => persist_articles utcnow self_symbol l2 s1
    | (s1, Raise e) => (s1, Raise e)
    end.
Proof.
  induction l1 as [|[article_data en] l1 IH]; intros s; [done|].
  cbn [app persist_articles]. unfold_m.
  destruct (add_news_article (database s) self_symbol article_data) as [[d1 row]|err];
    [|done].
  destruct en as [e|]; apply IH.
Qed.

(** A property of the store that the writes for every item keep is kept by
    the loop. *)
Lemma persist_articles_invariant (P : db → Prop) self_symbol items :
  (∀ article_data en d d1 row t,
     (article_data, en) ∈ items → P d →
     add_news_article d self_symbol article_data = Ok (d1, row) →
     P (written d1 row en t)) →
  ∀ s s', persist_articles utcnow self_symbol items s = (s', Ok tt) →
          P (database s) → P (database s').
Proof.
  induction items as [|[a en] rest IH]; intros Hstep s s'.
  - unfold persist_articles, skip, mret, M_ret. by intros [= <-].
  - intros (d1 & row & t & s1 & Hadd & Hdb & Hrest)%persist_articles_cons HP.
    eapply IH; [|exact Hrest|].
    + intros article_data en' d0 d2 row' t' Hin. apply Hstep. by right.
    + rewrite Hdb. eapply Hstep; [by left|exact HP|exact Hadd].
Qed.

(** Step 6 up to its loop leaves the stored articles alone. *)
Lemma persist_data_loop s s' :
  step_persist s = (s', Ok tt) →
  ∃ s1 s2,
    Database.news_articles (database s1) = Database.news_articles (database s)
    ∧ persist_articles utcnow (symbol s) (enriched_articles s) s1 = (s2, Ok tt)
    ∧ database s' = database s2.
Proof.
  unfold _step_persist_data. unfold_m.
  destruct (upsert_company _ _ _) as [[d row]|err] eqn:Eu; [|done].
  apply upsert_company_tables in Eu as [_ Hnews].
  cbn [symbol with_result with_clock with_database stock_data enriched_articles].
  destruct (stock_data s) as [|record records].
  - destruct (persist_articles _ _ _ _) as [s2 [[]|err]] eqn:E; [|done].
    intros [= <-]. eexists _, s2. split; [|split; [exact E|done]]. exact Hnews.
  - destruct (add_stock_data_spec d (symbol s) (record :: records))
      as (added & _ & _ & _ & _ & Hn).
    destruct (add_stock_data d (symbol s) (record :: records)) as [d' count].
    destruct (persist_articles _ _ _ _) as [s2 [[]|err]] eqn:E; [|done].
    intros [= <-]. eexists _, s2. split; [|split; [exact E|done]].
    simpl in *. congruence.
Qed.

(** *** The run as a sequence of steps *)

Lemma run_plan_app pre post s :
  run_plan (pre ++ post) s
  = match run_plan pre s with
    | (s', Ok _) => run_plan post s'
    | (s', Raise e) => (s', Raise e)
    end.
Proof.
  revert s. induction pre as [|[[name enabled] step] pre IH]; intros s; [done|].
  cbn [app run_plan]. unfold_m.
  destruct (enabled s).
  - destruct (step s) as [s1 [[]|e]]; [apply IH|done].
  - apply IH.
Qed.

Lemma run_steps_plan s :
  the_steps s
  = match run_plan the_plan s with
    | (s', Ok _) => (completed utcnow s', Ok tt)
    | (s', Raise e) => (s', Raise e)
    end.
Proof.
  unfold run_steps, plan, run_plan. unfold_m.
  destruct (step_company s) as [s1 [[]|e]]; [|done].
  destruct (fetch_stock (options_ s1)).
  - destruct (step_stock s1) as [s2 [[]|e]]; [|done].
    destruct (fetch_news (options_ s2)).
    + destruct (step_news s2) as [s3 [[]|e]]; [|done].
      destruct (_ && _).
      * destruct (step_enrich s3) as [s4 [[]|e]]; [|done].
        destruct (enrich_with_llm (options_ s4)).
        -- destruct (step_summary s4) as [s5 [[]|e]]; [|done].
           by destruct (step_persist s5) as [s6 [[]|e]].
        -- by destruct (step_persist s4) as [s6 [[]|e]].
      * destruct (enrich_with_llm (options_ s3)).
        -- destruct (step_summary s3) as [s5 [[]|e]]; [|done].
           by destruct (step_persist s5) as [s6 [[]|e]].
        -- by destruct (step_persist s3) as [s6 [[]|e]].
    + destruct (_ && _).
      * destruct (step_enrich s2) as [s4 [[]|e]]; [|done].
        destruct (enrich_with_llm (options_ s4)).
        -- destruct (step_summary s4) as [s5 [[]|e]]; [|done].
           by destruct (step_persist s5) as [s6 [[]|e]].
        -- by destruct (step_persist s4) as [s6 [[]|e]].
      * destruct (enrich_with_llm (options_ s2)).
        -- destruct (step_summary s2) as [s5 [[]|e]]; [|done].
           by destruct (step_persist s5) as [s6 [[]|e]].
        -- by destruct (step_persist s2) as [s6 [[]|e]].
  - destruct (fetch_news (options_ s1)).
    + destruct (step_news s1) as [s3 [[]|e]]; [|done].
      destruct (_ && _).
      * destruct (step_enrich s3) as [s4 [[]|e]]; [|done].
        destruct (enrich_with_llm (options_ s4)).
        -- destruct (step_summary s4) as [s5 [[]|e]]; [|done].
           by destruct (step_persist s5) as [s6 [[]|e]].
        -- by destruct (step_persist s4) as [s6 [[]|e]].
      * destruct (enrich_with_llm (options_ s3)).
        -- destruct (step_summary s3) as [s5 [[]|e]]; [|done].
           by destruct (step_persist s5) as [s6 [[]|e]].
        -- by destruct (step_persist s3) as [s6 [[]|e]].
    + destruct (_ && _).
      * destruct (step_enrich s1) as [s4 [[]|e]]; [|done].
        destruct (enrich_with_llm (options_ s4)).
        -- destruct (step_summary s4) as [s5 [[]|e]]; [|done].
           by destruct (step_persist s5) as [s6 [[]|e]].
        -- by destruct (step_persist s4) as [s6 [[]|e]].
      * destruct (enrich_with_llm (options_ s1)).
        -- destruct (step_summary s1) as [s5 [[]|e]]; [|done].
           by destruct (step_persist s5) as [s6 [[]|e]].
        -- by destruct (step_persist s1) as [s6 [[]|e]].
Qed.

Lemma run_by_plan s0 :
  the_run s0
  = match run_plan the_plan (started utcnow s0) with
    | (s', Ok _) => (completed utcnow s', Ok (result (completed utcnow s')))
    | (s', Raise e) => (failed utcnow e s', Ok (result (failed utcnow e s')))
    end.
Proof.
  unfold run. unfold_m. rewrite run_steps_plan.
  match goal with
  | |- context [run_plan the_plan ?x] => change x with (started utcnow s0)
  end.
  by destruct (run_plan the_plan (started utcnow s0)) as [s' [[]|e]].
Qed.

Lemma plan_well_named : Forall well_named the_plan.
Proof.
  unfold plan.
  repeat (apply Forall_cons; split); [..|by apply Forall_nil];
    unfold well_named; intros s s' r H; simpl in *.
  - apply fetch_company_frame in H. tauto.
  - apply fetch_stock_frame in H. tauto.
  - apply fetch_news_frame in H. tauto.
  - destruct (enrich_articles_spec s) as (s1 & E & _ & _ & _ & _ & _ & H1 & H2).
    rewrite E in H. injection H as <- <-. done.
  - apply generate_summary_frame in H. tauto.
  - apply persist_data_frame in H. tauto.
Qed.

Lemma plan_records_its_steps steps :
  Forall well_named steps →
  ∀ s s' r, run_plan steps s = (s', r) →
  ∀ n, n ∈ PipelineResult.steps_completed (result s') →
       n ∈ PipelineResult.steps_completed (result s) ∨ n ∈ map (λ entry, entry.1.1) steps.
Proof.
  induction 1 as [|[[name enabled] step] steps Hx Hs IH]; intros s s' r.
  - unfold run_plan, skip, mret, M_ret. intros [= <- <-]. by left.
  - cbn [run_plan]. unfold_m. destruct (enabled s).
    + destruct (step s) as [s1 [[]|e]] eqn:E.
      * intros H n Hn. destruct (IH _ _ _ H n Hn) as [Hn'|Hn']; [|right; by right].
        destruct (Hx _ _ _ E) as [_ Hc]. simpl in Hc. rewrite Hc in Hn'.
        apply elem_of_app in Hn' as [?|Hn']; [by left|].
        apply list_elem_of_singleton in Hn' as ->. right. by left.
      * intros [= <- <-] n Hn. destruct (Hx _ _ _ E) as [_ Hc]. simpl in Hc.
        rewrite Hc, app_nil_r in Hn. by left.
    + intros H n Hn. destruct (IH _ _ _ H n Hn) as [Hn'|Hn']; [by left|right; by right].
Qed.

(** Steps 1 to 3 fetch: they write neither to the store nor to the list of
    enriched articles. *)
Lemma fetch_steps_frame s s' r :
  run_plan (take 3 the_plan) s = (s', r) → same_work s s'.
Proof.
  unfold plan. cbn [take run_plan]. unfold_m.
  destruct (step_company s) as [s1 r1] eqn:E1.
  apply fetch_company_frame in E1 as [F1 _].
  destruct r1 as [[]|e]; [|by intros [= <- _]].
  assert (∃ s2 r2, (if fetch_stock (options_ s1) then step_stock s1 else (s1, Ok tt))
                   = (s2, r2) ∧ same_work s1 s2) as (s2 & r2 & -> & F2).
  { destruct (fetch_stock (options_ s1)).
    - destruct (step_stock s1) as [s2 r2] eqn:E2.
      apply fetch_stock_frame in E2 as [F2 _]. by exists s2, r2.
    - exists s1, (Ok tt). split; [done|apply same_work_refl]. }
  destruct r2 as [[]|e];
    [|intros [= <- _]; by apply (same_work_trans _ s1)].
  assert (∃ s3 r3, (if fetch_news (options_ s2) then step_news s2 else (s2, Ok tt))
                   = (s3, r3) ∧ same_work s2 s3) as (s3 & r3 & -> & F3).
  { destruct (fetch_news (options_ s2)).
    - destruct (step_news s2) as [s3 r3] eqn:E3.
      apply fetch_news_frame in E3 as [F3 _]. by exists s3, r3.
    - exists s2, (Ok tt). split; [done|apply same_work_refl]. }
  assert (same_work s s3) by (apply (same_work_trans _ s1); [done|by apply (same_work_trans _ s2)]).
  by destruct r3 as [[]|e]; intros [= <- _].
Qed.

(** C2.  A run fails or completes.  When an enabled step of the plan raises,
    the steps before it having returned, the run returns a result whose
    status is "failed", whose error is the message of that exception and
    whose completion time is the reading of the clock taken on the way out.
    That step is not the enrichment step, which never raises.  It stays the
    current step; neither it nor a later step is among the completed steps,
    and the store is as the failing step left it.  When every enabled step
    returns, the status is "completed". *)
Theorem run_fails_or_completes (s0 : state) :
  (∀ pre name enabled step post sX s' e,
     the_plan = pre ++ (name, enabled, step) :: post →
     run_plan pre (started utcnow s0) = (sX, Ok tt) →
     enabled sX = true →
     step sX = (s', Raise e) →
     name ≠ "enrich_articles"
     ∧ the_run s0 = (failed utcnow e s', Ok (result (failed utcnow e s')))
     ∧ PipelineResult.status (result (failed utcnow e s')) = "failed"
     ∧ PipelineResult.error (result (failed utcnow e s')) = Some (str e)
     ∧ PipelineResult.completed_at (result (failed utcnow e s')) = Some (utcnow (clock s'))
     ∧ PipelineResult.current_step (result (failed utcnow e s')) = Some name
     ∧ PipelineResult.steps_completed (result (failed utcnow e s'))
       = PipelineResult.steps_completed (result sX)
     ∧ database (failed utcnow e s') = database s'
     ∧ (PipelineResult.steps_completed (result s0) = [] →
        ∀ n, n ∈ name :: map (λ entry, entry.1.1) post →
             n ∉ PipelineResult.steps_completed (result (failed utcnow e s'))))
  ∧ (∀ s',
       run_plan the_plan (started utcnow s0) = (s', Ok tt) →
       the_run s0 = (completed utcnow s', Ok (result (completed utcnow s')))
       ∧ PipelineResult.status (result (completed utcnow s')) = "completed"
       ∧ PipelineResult.error (result (completed utcnow s')) = PipelineResult.error (result s')
       ∧ PipelineResult.completed_at (result (completed utcnow s'))
         = Some (utcnow (clock s'))).
Proof.
  split.
  - intros pre name enabled step post sX s' e Hplan Hpre Hen Hstep.
    assert (Hnamed : Forall well_named (pre ++ (name, enabled, step) :: post)).
    { rewrite <- Hplan. apply plan_well_named. }
    apply Forall_app in Hnamed as [Hnpre Hnamed].
    apply Forall_cons in Hnamed as [Hnx _].
    destruct (Hnx _ _ _ Hstep) as [Hcur Hdone]. simpl in Hcur, Hdone.
    rewrite app_nil_r in Hdone.
    assert (Hrun : run_plan the_plan (started utcnow s0) = (s', Raise e)).
    { rewrite Hplan, run_plan_app, Hpre. cbn [run_plan]. unfold_m.
      by rewrite Hen, Hstep. }
    split_and!; try done.
    + intros ->.
      assert (Hin : ("enrich_articles", enabled, step) ∈ the_plan).
      { rewrite Hplan. apply elem_of_app. right. by left. }
      unfold plan in Hin.
      repeat (apply elem_of_cons in Hin as [Hin|Hin]; [try discriminate|]).
      * injection Hin as _ ->.
        destruct (enrich_articles_spec sX) as (s1 & E & _). congruence.
      * by apply elem_of_nil in Hin.
    + by rewrite run_by_plan, Hrun.
    + intros Hfresh n Hn Hc. simpl in Hc. rewrite Hdone in Hc.
      destruct (plan_records_its_steps pre Hnpre _ _ _ Hpre n Hc) as [Hc'|Hc'].
      * simpl in Hc'. rewrite Hfresh in Hc'. by apply elem_of_nil in Hc'.
      * assert (Hnd : NoDup (map (λ entry, entry.1.1) the_plan)).
        { unfold plan. simpl. by apply (bool_decide_unpack _). }
        rewrite Hplan, map_app in Hnd. apply NoDup_app in Hnd as (_ & Hdisj & _).
        by apply (Hdisj n).
  - intros s' Hrun. by rewrite run_by_plan, Hrun.
Qed.

(** C1 (amended).  Enrichment being enabled, let the fetching steps return
    with N articles, let the enrichment call raise for the article at index
    [k] and for no other, and let every step of the run return.  Then the run
    ends "completed" with [articles_enriched] equal to N - 1, and an article
    with the URL of item [k] is in the store.  If moreover the URL of item
    [k] is null or empty, or is the URL of no article stored before the run
    and of no other fetched article, then item [k] is stored as a row of its
    own whose enrichment fields are all null ([news_row]). *)
Theorem enrichment_failure_is_isolated
  (symbol_ : string) (opts : options) (d : db) (ticks : nat)
  (s3 s6 : state) (k : nat) (article_k : Article.t) :
  enrich_with_llm opts = true →
  run_plan (take 3 the_plan) (started utcnow (init utcnow symbol_ opts d ticks))
  = (s3, Ok tt) →
  news_articles s3 !! k = Some article_k →
  (∀ i article, news_articles s3 !! i = Some article →
     is_ok (enrich_news_article i article (company_name s3)) = false ↔ i = k) →
  run_plan the_plan (started utcnow (init utcnow symbol_ opts d ticks)) = (s6, Ok tt) →
  ∃ sf r,
    the_pipeline symbol_ opts d ticks = (sf, Ok r)
    ∧ PipelineResult.status r = "completed"
    ∧ PipelineResult.articles_enriched r = length (news_articles s3) - 1
    ∧ url_stored (Article.url article_k) (database sf)
    ∧ ((truthy_opt (Article.url article_k) = true →
        url_absent (Article.url article_k) d
        ∧ ∀ j article, j ≠ k → news_articles s3 !! j = Some article →
            Article.url article ≠ Article.url article_k) →
       ∃ id title,
         Article.title article_k = Some title
         ∧ news_row id (upper symbol_) title article_k
           ∈ Database.news_articles (database sf)).
Proof.
  intros Hllm H3 Hk Hone Hall.
  pose proof Hall as Hrun.
  pose proof (fetch_steps_frame _ _ _ H3) as (Hsym & Hopt & Hdb & Hen & Hcount).
  simpl in Hsym, Hopt, Hdb, Hen, Hcount.
  replace the_plan with (take 3 the_plan ++ drop 3 the_plan) in Hall
    by apply take_drop.
  rewrite run_plan_app, H3 in Hall.
  revert Hall. unfold plan. cbn [drop run_plan]. unfold_m.
  rewrite Hopt, Hllm.
  rewrite bool_decide_eq_true_2 by (intros E; by rewrite E in Hk).
  cbn [andb].
  destruct (enrich_articles_spec s3)
    as (s4 & -> & S1 & S2 & S3 & S4 & S5 & _ & _).
  rewrite S2, Hopt, Hllm.
  destruct (step_summary s4) as [s5 [[]|e]] eqn:E5; [|done].
  apply generate_summary_frame in E5 as ((T1 & T2 & T3 & T4 & T5) & _).
  destruct (step_persist s5) as [s6' [[]|e]] eqn:E6; [|done].
  intros [= <-].
  pose proof (persist_data_frame _ _ _ E6) as (_ & _ & U1 & _ & _).
  apply persist_data_loop in E6 as (sa & sz & Hnews & Hloop & Hfinal).
  assert (Hraise : is_ok (enrich_news_article k article_k (company_name s3)) = false)
    by (by apply Hone).
  rewrite T4, S4, Hen, app_nil_l in Hloop.
  rewrite (attempts_split _ k article_k _ Hk Hraise) in Hloop.
  set (items := the_attempts 0 (company_name s3) (news_articles s3)) in *.
  assert (Hothers : ∀ article en, (article, en) ∈ take k items ++ drop (S k) items →
            ∃ j, j ≠ k ∧ news_articles s3 !! j = Some article)
    by (intros article en; apply attempts_others).
  rewrite persist_articles_app in Hloop.
  destruct (persist_articles utcnow (symbol s5) (take k items) sa)
    as [sb [[]|e]] eqn:Ebefore; [|done].
  apply persist_articles_cons in Hloop as (d1 & row & t & sc & Hadd & Hsc & Hafter).
  simpl in Hsc.
  exists (completed utcnow s6'), (result (completed utcnow s6')).
  split_and!.
  - unfold run_pipeline. by rewrite run_by_plan, Hrun.
  - done.
  - simpl. rewrite U1, T5, S5, Hcount. unfold items.
    rewrite (attempts_count _ 0 k (company_name s3)) by exact Hone.
    apply lookup_lt_Some in Hk.
    rewrite bool_decide_eq_true_2 by lia. done.
  - simpl. rewrite Hfinal.
    eapply (persist_articles_invariant (url_stored (Article.url article_k)));
      [|exact Hafter|].
    + intros article_data en d0 d2 row' t' _ Hst Hadd'.
      by eapply written_keeps_url_stored.
    + rewrite Hsc. by apply (written_stores_url _ _ _ _ _ None 0%Z) in Hadd.
  - intros Hfresh. simpl. rewrite Hfinal.
    assert (Hdiff : ∀ article en, (article, en) ∈ take k items ++ drop (S k) items →
              truthy_opt (Article.url article) = true →
              Article.url article ≠ Article.url article_k).
    { intros article en (j & Hj & Hlook)%Hothers Htruthy Heq.
      rewrite Heq in Htruthy. destruct (Hfresh Htruthy) as [_ Hno].
      by apply (Hno j article). }
    assert (Habsent : truthy_opt (Article.url article_k) = true →
              url_absent (Article.url article_k) (database sb)).
    { intros Htruthy. destruct (Hfresh Htruthy) as [Hd Hno].
      eapply (persist_articles_invariant (url_absent (Article.url article_k)));
        [|exact Ebefore|].
      - intros article_data en d0 d2 row' t' Hin Hab Hadd'.
        eapply written_keeps_url_absent; [|exact Hadd'|exact Hab].
        destruct (Hothers article_data en) as (j & Hj & Hlook);
          [apply elem_of_app; by left|].
        by apply (Hno j).
      - unfold url_absent. by rewrite Hnews, T3, S3, Hdb. }
    destruct (add_news_article_fresh _ _ _ _ _ Habsent Hadd) as (title & Htitle & Hrow & Hkept).
    exists (NewsArticleDB.id row), title. split; [done|].
    assert (Hlast : row_kept row (database sz)).
    { eapply (persist_articles_invariant (row_kept row)); [|exact Hafter|by rewrite Hsc].
      intros article_data en d0 d2 row' t' Hin Hk0 Hadd'.
      eapply written_keeps_row; [|exact Hadd'|exact Hk0].
      intros Htruthy. rewrite Hrow. simpl.
      apply (Hdiff article_data en); [|done]. apply elem_of_app. by right. }
    destruct Hlast as [Hin _].
    rewrite Hrow in Hin |- *. simpl.
    by rewrite T1, S1, Hsym, upper_idem in Hin.
Qed.

End Run.

(** A failing run: the article fetched has no title, and the insert of step 6
    is refused. *)
Lemma run_fails_or_completes_witness :
  ∃ sf r,
    Scenarios.run_on empty_db [Scenarios.untitled] = (sf, Ok r)
    ∧ PipelineResult.status r = "failed"
    ∧ PipelineResult.error r = Some "NOT NULL constraint failed: news_articles.title"
    ∧ is_Some (PipelineResult.completed_at r)
    ∧ PipelineResult.current_step r = Some "persist_data"
    ∧ "persist_data" ∉ PipelineResult.steps_completed r.
Proof.
  destruct (run_fails_or_completes Scenarios.no_overview Scenarios.no_prices
              (Scenarios.news_of [Scenarios.untitled]) Scenarios.fallback_enricher
              Scenarios.fixed_summary Scenarios.ticking
              (init Scenarios.ticking "acme" default_options empty_db 0))
    as [Hfail _].
  edestruct (Hfail
               (take 5 (plan Scenarios.no_overview Scenarios.no_prices
                          (Scenarios.news_of [Scenarios.untitled])
                          Scenarios.fallback_enricher Scenarios.fixed_summary
                          Scenarios.ticking))
               "persist_data" (λ _, true) (_step_persist_data Scenarios.ticking) [])
    as (_ & Hrun & Hstatus & Herror & Hat & Hstep & _ & _ & Hlater).
  - reflexivity.
  - vm_compute. reflexivity.
  - reflexivity.
  - vm_compute. reflexivity.
  - eexists _, _. split; [exact Hrun|]. split; [exact Hstatus|].
    split; [exact Herror|]. split; [by rewrite Hat|]. split; [exact Hstep|].
    apply Hlater; [reflexivity|by left].
Defined.

(** Two articles fetched into an empty store, the second without content:
    the keyword fallback raises on it, and it is stored unenriched. *)
Lemma enrichment_failure_is_isolated_witness :
  ∃ sf r,
    Scenarios.run_on empty_db [Scenarios.upbeat; Scenarios.no_content] = (sf, Ok r)
    ∧ PipelineResult.status r = "completed"
    ∧ PipelineResult.articles_enriched r = 1
    ∧ ∃ id, news_row id "ACME" "Markets today" Scenarios.no_content
            ∈ Database.news_articles (database sf).
Proof.
  edestruct (enrichment_failure_is_isolated Scenarios.no_overview Scenarios.no_prices
               (Scenarios.news_of [Scenarios.upbeat; Scenarios.no_content])
               Scenarios.fallback_enricher Scenarios.fixed_summary Scenarios.ticking
               "acme" default_options empty_db 0)
    with (k := 1) (article_k := Scenarios.no_content)
    as (sf & r & Hrun & Hstatus & Hcount & _ & Hrow).
  - reflexivity.
  - vm_compute. reflexivity.
  - reflexivity.
  - intros [|[|i]] article Hi; vm_compute in Hi; [injection Hi as <-..|discriminate];
      vm_compute; split; congruence.
  - vm_compute. reflexivity.
  - exists sf, r. split; [exact Hrun|]. split; [exact Hstatus|]. split; [exact Hcount|].
    destruct Hrow as (id & title & Htitle & Hin).
    + intros _. split; [reflexivity|].
      intros [|[|j]] article Hj Hlook.
      * vm_compute in Hlook. injection Hlook as <-. discriminate.
      * congruence.
      * vm_compute in Hlook. discriminate.
    + vm_compute in Htitle. injection Htitle as <-. by exists id.
Defined.

(** C1, as stated, fails.  A first run stored and enriched an article; a
    second run fetches the same URL, now without content, and the enrichment
    call raises on it.  The second run completes with N - 1 = 0 articles
    enriched, yet no stored article has a null sentiment: the insert of step
    6 returned the row of the first run. *)
Lemma refetched_article_stays_enriched :
  ∃ sf r,
    Scenarios.run_on Scenarios.after_first_run [Scenarios.no_content] = (sf, Ok r)
    ∧ is_ok (Scenarios.fallback_enricher 0 Scenarios.no_content (PStr "ACME")) = false
    ∧ PipelineResult.status r = "completed"
    ∧ PipelineResult.error r = None
    ∧ PipelineResult.articles_enriched r = 1 - 1
    ∧ ¬ ∃ row, row ∈ Database.news_articles (database sf)
               ∧ NewsArticleDB.sentiment_score row = None.
Proof.
  eexists _, _. split; [vm_compute; reflexivity|].
  split; [reflexivity|]. split; [reflexivity|]. split; [reflexivity|].
  split; [reflexivity|].
  intros (row & Hin & Hnull). vm_compute in Hin.
  apply list_elem_of_singleton in Hin. subst row. discriminate.
Qed.

End PipelineFacts.

(** ** Theorems: queries on the store *)

Module QueryFacts.
Import DataSources Enrichment Database PyFacts DatabaseFacts Aggregates.

(** *** Letter case *)

Lemma upper_lower_ascii (a : ascii) : upper_ascii (lower_ascii a) = upper_ascii a.
Proof. destruct a as [[] [] [] [] [] [] [] []]; reflexivity. Qed.

Lemma upper_lower (s : string) : upper (lower s) = upper s.
Proof.
  induction s as [|a s IH]; [done|]. simpl. by rewrite upper_lower_ascii, IH.
Qed.

Lemma whole_db (x : db) :
  {| companies := companies x; stock_data := stock_data x;
     news_articles := news_articles x |} = x.
Proof. by destruct x. Qed.

(** X1.  [get_company] does not depend on the letter case of the symbol
    it is asked for: the lower-case and the upper-case spelling find what the
    symbol itself finds.  A row it returns is a stored company whose symbol
    is the upper-case spelling. *)
Theorem get_company_ignores_case (d : db) (symbol : string) :
  get_company d (lower symbol) = get_company d symbol
  ∧ get_company d (upper symbol) = get_company d symbol
  ∧ ∀ row, get_company d symbol = Some row →
      row ∈ companies d ∧ CompanyDB.symbol row = PStr (upper symbol).
Proof.
  unfold get_company. rewrite upper_lower, upper_idem.
  split; [done|]. split; [done|].
  intros row [Hin Hp]%find_some. split; [by apply list_elem_of_In|].
  unfold symbol_is in Hp. destruct (CompanyDB.symbol row) as [|x| |]; try done.
  by apply String.eqb_eq in Hp as ->.
Qed.

(** X2.  After [upsert_company] has returned for a payload whose symbol is
    a string in upper case, the row it returned carries that symbol and
    [get_company] finds it under every spelling of the symbol. *)
Theorem upsert_then_get (d d' : db) (utcnow : Z) (company_data : gmap string pyval)
  (s : string) (row : CompanyDB.t) :
  company_data !! "symbol" = Some (PStr s) →
  upper s = s →
  upsert_company d utcnow company_data = Ok (d', row) →
  CompanyDB.symbol row = PStr s
  ∧ ∀ s', upper s' = s → get_company d' s' = Some row.
Proof.
  intros Hs Hup. unfold upsert_company, payload_symbol. rewrite Hs.
  unfold mbind, outcome_bind. rewrite Hup.
  destruct (get_company d s) as [existing|] eqn:Eg.
  - set (row' := setattr (assign_items existing company_data) C_updated_at (PTime utcnow)).
    assert (Hsym : CompanyDB.symbol row' = PStr s).
    { pose proof (getattr_setattr_ne (assign_items existing company_data)
                    C_updated_at C_symbol (PTime utcnow) ltac:(done)) as H1.
      rewrite assign_items_getattr in H1. unfold merged in H1.
      change (column_name C_symbol) with "symbol" in H1. rewrite Hs in H1.
      exact H1. }
    destruct (_ && _); [done|]. intros ?; simplify_eq. split; [done|].
    intros s' <-. unfold get_company in *. cbn [companies].
    rewrite upper_idem in *. apply find_replace_first.
    + unfold symbol_is. rewrite Hsym. apply String.eqb_refl.
    + by rewrite Eg.
  - destruct (construct company_data utcnow) as [company|] eqn:Ec; [|done].
    apply construct_symbol in Ec. rewrite Hs in Ec. simpl in Ec.
    destruct (is_none (CompanyDB.symbol company)); [done|].
    destruct (is_none (CompanyDB.name company)); [done|].
    destruct (has_symbol _ _); [done|]. intros ?; simplify_eq. split; [done|].
    intros s' <-. unfold get_company in *. cbn [companies].
    rewrite upper_idem in *. apply find_app_None; [done|].
    unfold symbol_is. rewrite Ec. apply String.eqb_refl.
Qed.

Lemma upsert_then_get_witness :
  ∃ d' row,
    upsert_company Scenarios.apple_db 5 Scenarios.apple_update = Ok (d', row)
    ∧ get_company d' "aapl" = Some row.
Proof.
  eexists _, _. split; [vm_compute; reflexivity|].
  eapply (upsert_then_get Scenarios.apple_db _ 5 Scenarios.apple_update "AAPL").
  - reflexivity.
  - reflexivity.
  - vm_compute. reflexivity.
  - reflexivity.
Defined.

(** *** Stock rows *)

Lemma find_is_Some {A} (p : A → bool) (l : list A) (x : A) :
  x ∈ l → p x = true → is_Some (find p l).
Proof.
  intros Hin Hp. destruct (find p l) eqn:E; [done|].
  apply list_elem_of_In in Hin. apply (find_none _ _ E) in Hin. congruence.
Qed.

Lemma find_app_is_Some {A} (p : A → bool) (l l' : list A) :
  is_Some (find p l) → is_Some (find p (l ++ l')).
Proof.
  intros [x Hx]. apply find_some in Hx as [Hin Hp].
  apply (find_is_Some p _ x); [|done].
  apply elem_of_app. left. by apply list_elem_of_In.
Qed.

(** After a batch has been added, every date it names has a stored row. *)
Lemma add_stock_data_covers (d : db) (symbol : string) (records : list StockRecord.t)
  (r : StockRecord.t) :
  r ∈ records →
  is_Some (stock_on (add_stock_data d symbol records).1 (upper symbol)
             (StockRecord.date r)).
Proof.
  intros Hr.
  destruct (add_stock_data_spec d symbol records) as (added & Hd & _ & Hkeys & _).
  unfold stock_on. rewrite Hd.
  destruct (stock_on d (upper symbol) (StockRecord.date r)) as [x|] eqn:E.
  - apply find_app_is_Some. unfold stock_on in E. by rewrite E.
  - assert (Hin : (upper symbol, StockRecord.date r) ∈ map stock_key added).
    { rewrite Hkeys. apply list_elem_of_fmap. exists r. split; [done|].
      apply list_elem_of_In, filter_In. split; [by apply list_elem_of_In|].
      unfold wanted. by apply bool_decide_eq_true. }
    apply list_elem_of_fmap in Hin as (row & Hk & Hrow).
    apply (find_is_Some _ _ row).
    + apply elem_of_app. by right.
    + injection Hk as -> ->. by rewrite String.eqb_refl, Z.eqb_refl.
Qed.

(** X3.  Once [add_stock_data] has stored a batch for a symbol, a
    further batch for the same symbol, in any letter case, whose dates all
    occur in the first adds no row and returns 0. *)
Theorem add_stock_data_again_adds_nothing (d : db) (symbol symbol' : string)
  (records records' : list StockRecord.t) :
  upper symbol' = upper symbol →
  (∀ r, r ∈ records' → StockRecord.date r ∈ map StockRecord.date records) →
  add_stock_data (add_stock_data d symbol records).1 symbol' records'
  = ((add_stock_data d symbol records).1, 0).
Proof.
  intros Hsym Hsub.
  set (d1 := (add_stock_data d symbol records).1).
  assert (Hnone : List.filter (wanted d1 (upper symbol)) records' = []).
  { clear - Hsub. induction records' as [|r rs IH]; [done|]. simpl.
    assert (Hr : wanted d1 (upper symbol) r = false).
    { pose proof (Hsub r ltac:(by left)) as (r0 & Hdate & Hr0)%list_elem_of_fmap.
      destruct (add_stock_data_covers d symbol records r0 Hr0) as [x Hx].
      unfold wanted. apply bool_decide_eq_false. fold d1 in Hx.
      rewrite Hdate. congruence. }
    rewrite Hr. apply IH. intros r' Hr'. apply Hsub. by right. }
  unfold add_stock_data at 1. rewrite Hsym, add_stock_loop, Hnone. simpl.
  by rewrite whole_db.
Qed.

Lemma add_stock_data_again_adds_nothing_witness :
  (add_stock_data
     (add_stock_data empty_db "acme" [Scenarios.day_one; Scenarios.day_two]).1
     "ACME" [Scenarios.day_two]).2 = 0
  ∧ length
      (stock_data
         (add_stock_data
            (add_stock_data empty_db "acme" [Scenarios.day_one; Scenarios.day_two]).1
            "ACME" [Scenarios.day_two]).1) = 2.
Proof.
  rewrite (add_stock_data_again_adds_nothing empty_db "acme" "ACME"
             [Scenarios.day_one; Scenarios.day_two] [Scenarios.day_two]).
  - split; reflexivity.
  - reflexivity.
  - intros r Hr. apply list_elem_of_singleton in Hr as ->. right. left.
Defined.

(** *** The most recent rows *)

Section Recent.

Context {A : Type} (leb : A → A → bool) (p : A → bool).
Hypothesis leb_total : ∀ x y, leb x y = true ∨ leb y x = true.
Hypothesis leb_trans : ∀ x y z, leb x y = true → leb y z = true → leb x z = true.

(** [ORDER BY ... LIMIT n] on the rows that satisfy [p]: at most [n] rows,
    all of them stored rows that satisfy [p], in order, and no row left out
    comes before a row returned. *)
Lemma order_by_limit (l : list A) (limit : nat) :
  let rows := take limit (stable_sort leb (List.filter p l)) in
  length rows ≤ limit
  ∧ (∀ r, r ∈ rows → r ∈ l ∧ p r = true)
  ∧ StronglySorted (λ a b, leb a b = true) rows
  ∧ (∀ r r', r ∈ rows → r' ∈ l → p r' = true → r' ∉ rows → leb r r' = true)
  ∧ (length rows < limit → ∀ r', r' ∈ l → p r' = true → r' ∈ rows).
Proof.
  intros rows.
  set (sorted := stable_sort leb (List.filter p l)) in *.
  assert (Hperm : sorted ≡ₚ List.filter p l) by apply stable_sort_perm.
  assert (Hsorted : StronglySorted (λ a b, leb a b = true) sorted)
    by (by apply stable_sort_sorted).
  assert (Hmem : ∀ r, r ∈ sorted ↔ r ∈ l ∧ p r = true).
  { intros r. rewrite Hperm. rewrite list_elem_of_In, filter_In, <- list_elem_of_In.
    done. }
  rewrite <- (take_drop limit sorted) in Hsorted.
  apply StronglySorted_app in Hsorted as (Hcross & Htake & _).
  split_and!.
  - unfold rows. rewrite length_take. lia.
  - intros r Hr. apply Hmem. rewrite <- (take_drop limit sorted).
    apply elem_of_app. by left.
  - exact Htake.
  - intros r r' Hr Hr' Hp Hout. apply Hcross; [done|].
    assert (Hin : r' ∈ sorted) by (by apply Hmem).
    rewrite <- (take_drop limit sorted) in Hin.
    apply elem_of_app in Hin as [?|?]; done.
  - intros Hlen r' Hr' Hp. unfold rows in *.
    rewrite take_ge; [by apply Hmem|]. rewrite length_take in Hlen. lia.
Qed.

End Recent.

(** X4.  [get_recent_stock_data] returns at most [limit] rows, all of
    them stored rows whose symbol is the requested one in upper case, newest
    date first.  No row of the symbol that it leaves out is newer than a row
    it returns, and when it returns fewer than [limit] rows it leaves none
    out. *)
Theorem recent_stock_data_newest_first (d : db) (symbol : string) (limit : nat) :
  let rows := get_recent_stock_data d symbol limit in
  length rows ≤ limit
  ∧ (∀ r, r ∈ rows → r ∈ stock_data d ∧ StockDataDB.symbol r = upper symbol)
  ∧ StronglySorted (λ a b, (StockDataDB.date b ≤ StockDataDB.date a)%Z) rows
  ∧ (∀ r r', r ∈ rows → r' ∈ stock_data d → StockDataDB.symbol r' = upper symbol →
       r' ∉ rows → (StockDataDB.date r' ≤ StockDataDB.date r)%Z)
  ∧ (length rows < limit →
     ∀ r', r' ∈ stock_data d → StockDataDB.symbol r' = upper symbol → r' ∈ rows).
Proof.
  intros rows.
  destruct (order_by_limit (λ a b, (StockDataDB.date b <=? StockDataDB.date a)%Z)
              (λ r, String.eqb (StockDataDB.symbol r) (upper symbol))
              ltac:(intros x y; rewrite !Z.leb_le; lia)
              ltac:(intros x y z; rewrite !Z.leb_le; lia)
              (stock_data d) limit) as (H1 & H2 & H3 & H4 & H5).
  fold (get_recent_stock_data d symbol limit) in H1, H2, H3, H4, H5. fold rows in H1, H2, H3, H4, H5.
  split_and!.
  - exact H1.
  - intros r Hr. destruct (H2 r Hr) as [? ?%String.eqb_eq]. done.
  - eapply strongly_sorted_weaken; [|exact H3]. intros x y. by rewrite Z.leb_le.
  - intros r r' Hr Hr' Hs Hout. apply Z.leb_le. apply H4; try done.
    by apply String.eqb_eq.
  - intros Hlen r' Hr' Hs. apply H5; try done. by apply String.eqb_eq.
Qed.

Lemma newer_first_total (a b : NewsArticleDB.t) :
  newer_first a b = true ∨ newer_first b a = true.
Proof.
  unfold newer_first.
  destruct (NewsArticleDB.published_at a), (NewsArticleDB.published_at b);
    rewrite ?Z.leb_le; try lia; auto.
Qed.

Lemma newer_first_trans (a b c : NewsArticleDB.t) :
  newer_first a b = true → newer_first b c = true → newer_first a c = true.
Proof.
  unfold newer_first.
  destruct (NewsArticleDB.published_at a), (NewsArticleDB.published_at b),
    (NewsArticleDB.published_at c); rewrite ?Z.leb_le; try done; lia.
Qed.

(** X5.  [get_company_news] returns at most [limit] rows, all of them
    stored rows whose symbol is the requested one in upper case, most
    recently published first, the rows without a publication time last.  No
    row of the symbol that it leaves out comes before a row it returns, and
    when it returns fewer than [limit] rows it leaves none out. *)
Theorem company_news_newest_first (d : db) (symbol : string) (limit : nat) :
  let rows := get_company_news d symbol limit in
  length rows ≤ limit
  ∧ (∀ r, r ∈ rows → r ∈ news_articles d ∧ NewsArticleDB.symbol r = upper symbol)
  ∧ StronglySorted (λ a b, newer_first a b = true) rows
  ∧ (∀ r r', r ∈ rows → r' ∈ news_articles d → NewsArticleDB.symbol r' = upper symbol →
       r' ∉ rows → newer_first r r' = true)
  ∧ (length rows < limit →
     ∀ r', r' ∈ news_articles d → NewsArticleDB.symbol r' = upper symbol → r' ∈ rows)
  ∧ (∀ before r after, rows = before ++ r :: after →
       NewsArticleDB.published_at r = None →
       ∀ r', r' ∈ after → NewsArticleDB.published_at r' = None).
Proof.
  intros rows.
  destruct (order_by_limit newer_first
              (λ r, String.eqb (NewsArticleDB.symbol r) (upper symbol))
              newer_first_total newer_first_trans
              (news_articles d) limit) as (H1 & H2 & H3 & H4 & H5).
  fold (get_company_news d symbol limit) in H1, H2, H3, H4, H5. fold rows in H1, H2, H3, H4, H5.
  split_and!.
  - exact H1.
  - intros r Hr. destruct (H2 r Hr) as [? ?%String.eqb_eq]. done.
  - exact H3.
  - intros r r' Hr Hr' Hs Hout. apply H4; try done. by apply String.eqb_eq.
  - intros Hlen r' Hr' Hs. apply H5; try done. by apply String.eqb_eq.
  - intros before r after Hrows Hn r' Hr'. rewrite Hrows in H3.
    apply StronglySorted_app in H3 as (_ & _ & H3).
    apply StronglySorted_inv in H3 as [_ H3].
    rewrite Forall_forall in H3. specialize (H3 r' Hr').
    unfold newer_first in H3. rewrite Hn in H3.
    by destruct (NewsArticleDB.published_at r').
Qed.

(** *** Keys and symbols of the stored rows *)

Lemma next_id_fresh {A} (id : A → nat) (rows : list A) :
  next_id id rows ∉ map id rows.
Proof.
  intros (r & Hid & Hr)%list_elem_of_fmap.
  apply (next_id_gt id) in Hr. lia.
Qed.

Lemma NoDup_snoc {A} (l : list A) (x : A) : NoDup l → x ∉ l → NoDup (l ++ [x]).
Proof.
  intros Hl Hx. apply NoDup_app. split; [done|]. split; [|apply NoDup_singleton].
  intros y Hy ->%list_elem_of_singleton. done.
Qed.

Lemma map_replace_first {A B} (f : A → B) (p : A → bool) (a new : A) (l : list A) :
  find p l = Some a → f new = f a → map f (replace_first p new l) = map f l.
Proof.
  intros Hf Hnew. induction l as [|y l IH]; [done|]. simpl in *.
  destruct (p y).
  - injection Hf as ->. simpl. by rewrite Hnew.
  - simpl. by rewrite IH.
Qed.

Lemma flush_stock_keeps (rows : list StockDataDB.t) (symbol : string)
  (pending : list StockRecord.t) :
  NoDup (map StockDataDB.id rows) →
  Forall (λ r, upper (StockDataDB.symbol r) = StockDataDB.symbol r) rows →
  upper symbol = symbol →
  NoDup (map StockDataDB.id (flush_stock rows symbol pending))
  ∧ Forall (λ r, upper (StockDataDB.symbol r) = StockDataDB.symbol r)
      (flush_stock rows symbol pending).
Proof.
  intros Hids Hsyms Hup. revert rows Hids Hsyms.
  induction pending as [|record pending IH]; intros rows Hids Hsyms; [done|].
  simpl. apply IH.
  - rewrite map_app. simpl. apply NoDup_snoc; [done|]. apply next_id_fresh.
  - apply Forall_app. split; [done|]. by apply Forall_singleton.
Qed.

Lemma do_db_call_well_keyed (d : db) (c : db_call) :
  well_keyed d → well_keyed (do_db_call d c).
Proof.
  intros (Hs1 & Hs2 & Hn1 & Hn2).
  destruct c as [t data|symbol records|symbol article|t id e]; simpl.
  - destruct (upsert_company d t data) as [[d' row]|] eqn:E; [|done].
    apply upsert_company_tables in E as [Es En]. unfold well_keyed.
    by rewrite Es, En.
  - unfold add_stock_data. rewrite add_stock_loop. simpl.
    destruct (flush_stock_keeps (stock_data d) (upper symbol)
                (List.filter (wanted d (upper symbol)) records) Hs1 Hs2
                (upper_idem symbol)) as [H1 H2].
    done.
  - destruct (add_news_article d symbol article) as [[d' row]|] eqn:E; [|done].
    apply add_news_article_spec in E as [(-> & _)|(title & _ & Hrow & -> & _)]; [done|].
    unfold well_keyed. simpl. split_and!; try done.
    + rewrite map_app. simpl. apply NoDup_snoc; [done|].
      rewrite Hrow. simpl. apply next_id_fresh.
    + apply Forall_app. split; [done|]. apply Forall_singleton.
      rewrite Hrow. simpl. apply upper_idem.
  - unfold update_article_enrichment.
    destruct (find _ _) as [article|] eqn:E; [|done].
    unfold well_keyed. simpl. split_and!; try done.
    + by rewrite (map_replace_first _ _ article).
    + apply Forall_replace_first; [|done]. simpl.
      apply find_some in E as [Hin _]. apply list_elem_of_In in Hin.
      by apply (proj1 (Forall_forall _ _) Hn2).
Qed.

Lemma do_db_calls_well_keyed (cs : list db_call) (d : db) :
  well_keyed d → well_keyed (do_db_calls d cs).
Proof.
  unfold do_db_calls. revert d.
  induction cs as [|c cs IH]; intros d Hd; simpl; [done|].
  apply IH. by apply do_db_call_well_keyed.
Qed.

Lemma empty_db_well_keyed : well_keyed empty_db.
Proof. repeat split; simpl; constructor. Qed.

Lemma same_case_upper (s s' : string) : lower s = lower s' → upper s = upper s'.
Proof. intros H. by rewrite <- (upper_lower s), H, upper_lower. Qed.

Lemma take_all_sorted {A} (leb : A → A → bool) (p : A → bool) (l : list A) (r : A) :
  r ∈ l → p r = true → r ∈ take (length l) (stable_sort leb (List.filter p l)).
Proof.
  intros Hr Hp. rewrite take_ge.
  - rewrite stable_sort_perm. apply list_elem_of_In, filter_In.
    split; [by apply list_elem_of_In|done].
  - rewrite (Permutation_length (stable_sort_perm leb _)). apply List.filter_length_le.
Qed.

(** X6.  In a store built from the empty one by calls of the
    persistence layer, every stock row and every news row has its symbol in
    upper case.  So a row whose symbol is the requested one up to letter case
    is returned by [get_recent_stock_data] and by [get_company_news] when the
    limit cuts nothing off. *)
Theorem stored_symbols_are_upper_case (cs : list db_call) :
  let d := do_db_calls empty_db cs in
  (∀ r, r ∈ stock_data d → upper (StockDataDB.symbol r) = StockDataDB.symbol r)
  ∧ (∀ r, r ∈ news_articles d → upper (NewsArticleDB.symbol r) = NewsArticleDB.symbol r)
  ∧ (∀ symbol r, r ∈ stock_data d →
       lower (StockDataDB.symbol r) = lower symbol →
       r ∈ get_recent_stock_data d symbol (length (stock_data d)))
  ∧ (∀ symbol r, r ∈ news_articles d →
       lower (NewsArticleDB.symbol r) = lower symbol →
       r ∈ get_company_news d symbol (length (news_articles d))).
Proof.
  intros d.
  destruct (do_db_calls_well_keyed cs empty_db empty_db_well_keyed)
    as (_ & Hs & _ & Hn).
  fold d in Hs, Hn. rewrite Forall_forall in Hs. rewrite Forall_forall in Hn.
  split_and!.
  - exact Hs.
  - exact Hn.
  - intros symbol r Hr Hcase. apply take_all_sorted; [done|].
    apply String.eqb_eq. rewrite <- (Hs r Hr). by apply same_case_upper.
  - intros symbol r Hr Hcase. apply take_all_sorted; [done|].
    apply String.eqb_eq. rewrite <- (Hn r Hr). by apply same_case_upper.
Qed.


(** *** Enriching a stored article *)

Lemma find_id_unique (l : list NewsArticleDB.t) (i : nat) (article r : NewsArticleDB.t) :
  NoDup (map NewsArticleDB.id l) →
  find (λ r, NewsArticleDB.id r =? i) l = Some article →
  r ∈ l → NewsArticleDB.id r = i → r = article.
Proof.
  intros Hnd Hf Hr Hid. induction l as [|y l IH]; [by apply elem_of_nil in Hr|].
  simpl in *. apply NoDup_cons in Hnd as [Hy Hnd].
  destruct (Nat.eqb_spec (NewsArticleDB.id y) i) as [Hyi|Hyi].
  - injection Hf as <-. apply elem_of_cons in Hr as [->|Hr]; [done|].
    exfalso. apply Hy. apply list_elem_of_fmap. exists r. split; [congruence|done].
  - apply elem_of_cons in Hr as [->|Hr]; [done|]. by apply IH.
Qed.

Lemma key_unique {A B} (f : A → B) (l : list A) (x y : A) :
  NoDup (map f l) → x ∈ l → y ∈ l → f x = f y → x = y.
Proof.
  intros Hnd Hx Hy Hf. induction l as [|z l IH]; [by apply elem_of_nil in Hx|].
  simpl in Hnd. apply NoDup_cons in Hnd as [Hz Hnd].
  apply elem_of_cons in Hx as [->|Hx]; apply elem_of_cons in Hy as [->|Hy].
  - done.
  - exfalso. apply Hz. rewrite Hf. apply list_elem_of_fmap. by exists y.
  - exfalso. apply Hz. rewrite <- Hf. apply list_elem_of_fmap. by exists x.
  - by apply IH.
Qed.

(** X7.  In a store built from the empty one by calls of the
    persistence layer, [update_article_enrichment] leaves the companies and
    the stock rows alone, keeps the number of news rows, and changes no news
    row but the one with the given id, which becomes that row with the five
    enrichment fields and the time of the call filled in.  With an id that no
    row has it leaves the store as it is. *)
Theorem enrichment_touches_one_row (cs : list db_call) (t : Z) (article_id : nat)
  (e : enrichment) :
  let d := do_db_calls empty_db cs in
  let d' := update_article_enrichment d t article_id e in
  companies d' = companies d
  ∧ stock_data d' = stock_data d
  ∧ length (news_articles d') = length (news_articles d)
  ∧ (∀ r, NewsArticleDB.id r ≠ article_id → r ∈ news_articles d' ↔ r ∈ news_articles d)
  ∧ (∀ r, r ∈ news_articles d → NewsArticleDB.id r = article_id →
       enriched_row r e t ∈ news_articles d'
       ∧ ∀ r', r' ∈ news_articles d' → NewsArticleDB.id r' = article_id →
               r' = enriched_row r e t)
  ∧ ((∀ r, r ∈ news_articles d → NewsArticleDB.id r ≠ article_id) → d' = d).
Proof.
  intros d d'.
  destruct (do_db_calls_well_keyed cs empty_db empty_db_well_keyed)
    as (_ & _ & Hids & _).
  fold d in Hids.
  unfold d', update_article_enrichment.
  destruct (find _ _) as [article|] eqn:E; simpl.
  - pose proof E as [Hin Hid]%find_some.
    apply list_elem_of_In in Hin. apply Nat.eqb_eq in Hid.
    split_and!; try done.
    + apply length_replace_first.
    + intros r Hr. split.
      * intros [->|?]%elem_of_replace_first; [|done]. simpl in Hr. congruence.
      * intros H. apply replace_first_keeps; [done|]. by apply Nat.eqb_neq.
    + intros r Hr Hrid.
      assert (r = article) as -> by (by eapply find_id_unique).
      { assert (Hf : find (λ r, NewsArticleDB.id r =? article_id)
                       (replace_first (λ r, NewsArticleDB.id r =? article_id)
                          (enriched_row article e t) (news_articles d))
                     = Some (enriched_row article e t)).
        { apply find_replace_first; [by apply Nat.eqb_eq|by rewrite E]. }
        split; [apply find_some in Hf as [Hf _]; by apply list_elem_of_In|].
        intros r' Hr' Hid'.
        apply (key_unique NewsArticleDB.id
                 (replace_first (λ r, NewsArticleDB.id r =? article_id)
                    (enriched_row article e t) (news_articles d))).
        -- by rewrite (map_replace_first _ _ article).
        -- done.
        -- apply find_some in Hf as [Hf _]. by apply list_elem_of_In.
        -- simpl. congruence. }
    + intros Hnone. exfalso. by apply (Hnone article).
  - split_and!; try done. intros r Hr Hid. exfalso.
    apply list_elem_of_In in Hr. apply (find_none _ _ E) in Hr.
    apply Nat.eqb_neq in Hr. done.
Qed.

Lemma filter_replace_first (q : NewsArticleDB.t → bool) (i : nat)
  (article new : NewsArticleDB.t) (l : list NewsArticleDB.t) :
  NoDup (map NewsArticleDB.id l) →
  find (λ r, NewsArticleDB.id r =? i) l = Some article →
  q new = false →
  List.filter q (replace_first (λ r, NewsArticleDB.id r =? i) new l)
  = List.filter (λ r, negb (NewsArticleDB.id r =? i)) (List.filter q l).
Proof.
  intros Hnd Hf Hq. induction l as [|y l IH]; [done|].
  simpl in *. apply NoDup_cons in Hnd as [Hy Hnd].
  destruct (Nat.eqb_spec (NewsArticleDB.id y) i) as [Hyi|Hyi].
  - simpl. rewrite Hq.
    assert (Hrest : List.filter (λ r, negb (NewsArticleDB.id r =? i)) (List.filter q l)
                    = List.filter q l).
    { clear IH Hf. induction l as [|z l IH]; [done|]. simpl.
      assert (Hz : NewsArticleDB.id z ≠ i).
      { intros Hz. apply Hy. rewrite Hyi, <- Hz. simpl. by left. }
      apply NoDup_cons in Hnd as [_ Hnd].
      assert (Hy' : NewsArticleDB.id y ∉ map NewsArticleDB.id l).
      { intros H. apply Hy. simpl. by right. }
      specialize (IH Hy' Hnd).
      destruct (q z); simpl; [|done].
      apply Nat.eqb_neq in Hz. rewrite Hz. simpl. by rewrite IH. }
    destruct (q y); simpl; [|by rewrite Hrest].
    apply Nat.eqb_eq in Hyi. rewrite Hyi. simpl. by rewrite Hrest.
  - simpl. destruct (q y); simpl; [|by apply IH].
    apply Nat.eqb_neq in Hyi. rewrite Hyi. simpl. f_equal. by apply IH.
Qed.

Lemma filter_all {A} (f : A → bool) (l : list A) :
  (∀ x, x ∈ l → f x = true) → List.filter f l = l.
Proof.
  induction l as [|y l IH]; intros H; [done|]. simpl.
  rewrite (H y) by (by left). f_equal. apply IH. intros x Hx. apply H. by right.
Qed.

(** X8.  In such a store, after [update_article_enrichment] for an id,
    [get_unenriched_articles] returns what it returned before, in the same
    order, without the row of that id. *)
Theorem enrichment_leaves_the_unenriched (cs : list db_call) (t : Z) (article_id : nat)
  (e : enrichment) (symbol : option string) :
  let d := do_db_calls empty_db cs in
  get_unenriched_articles (update_article_enrichment d t article_id e) symbol
  = List.filter (λ r, negb (NewsArticleDB.id r =? article_id))
      (get_unenriched_articles d symbol).
Proof.
  intros d.
  destruct (do_db_calls_well_keyed cs empty_db empty_db_well_keyed)
    as (_ & _ & Hids & _).
  fold d in Hids.
  unfold get_unenriched_articles, update_article_enrichment.
  destruct (find _ _) as [article|] eqn:E; simpl.
  - by apply (filter_replace_first _ _ article).
  - symmetry. apply filter_all. intros r [Hr _]%list_elem_of_In%filter_In.
    apply (find_none _ _ E) in Hr. by rewrite Hr.
Qed.

(** *** Averages *)

Lemma inject_nat_S (n : nat) :
  (inject_Z (Z.of_nat (S n)) == inject_Z (Z.of_nat n) + 1)%Q.
Proof. rewrite Nat2Z.inj_succ, <- Z.add_1_r, inject_Z_plus. reflexivity. Qed.

Lemma fold_Qplus_bounds (l : list Q) :
  (∀ x, x ∈ l → (-1 <= x <= 1)%Q) →
  ∀ acc,
    (acc - inject_Z (Z.of_nat (length l)) <= fold_left Qplus l acc
     <= acc + inject_Z (Z.of_nat (length l)))%Q.
Proof.
  induction l as [|x l IH]; intros H acc.
  - cbn [fold_left length]. change (inject_Z (Z.of_nat 0)) with 0%Q. split; lra.
  - cbn [fold_left length]. rewrite inject_nat_S.
    destruct (H x ltac:(by left)) as [Hlo Hhi].
    destruct (IH (λ y Hy, H y ltac:(by right)) (acc + x)%Q) as [H1 H2].
    split; lra.
Qed.

(** The mean of numbers between -1 and 1 lies between -1 and 1. *)
Lemma mean_bounds (l : list Q) :
  l ≠ [] →
  (∀ x, x ∈ l → (-1 <= x <= 1)%Q) →
  (-1 <= Qsum l / inject_Z (Z.of_nat (length l)) <= 1)%Q.
Proof.
  intros Hne H.
  assert (Hn : (0 < inject_Z (Z.of_nat (length l)))%Q).
  { change 0%Q with (inject_Z 0). rewrite <- Zlt_Qlt. destruct l; [done|simpl; lia]. }
  destruct (fold_Qplus_bounds l H 0%Q) as [H1 H2]. fold (Qsum l) in H1, H2.
  split.
  - apply Qle_shift_div_l; [done|]. lra.
  - apply Qle_shift_div_r; [done|]. lra.
Qed.

Lemma mean_zero (l : list Q) :
  l ≠ [] →
  (Qsum l / inject_Z (Z.of_nat (length l)) == 0)%Q ↔ (Qsum l == 0)%Q.
Proof.
  intros Hne.
  assert (Hn : ¬ (inject_Z (Z.of_nat (length l)) == 0)%Q).
  { change 0%Q with (inject_Z 0). rewrite inject_Z_injective.
    destruct l; [done|simpl; lia]. }
  split; intros H.
  - transitivity (Qsum l / inject_Z (Z.of_nat (length l))
                  * inject_Z (Z.of_nat (length l)))%Q.
    + field. done.
    + rewrite H. ring.
  - rewrite H. field. done.
Qed.

Lemma fold_Qplus_zeros (l : list Q) :
  (∀ x, x ∈ l → (x == 0)%Q) → ∀ acc, (fold_left Qplus l acc == acc)%Q.
Proof.
  induction l as [|x l IH]; intros H acc; [done|].
  cbn [fold_left]. rewrite IH by (intros y Hy; apply H; by right).
  rewrite (H x) by (by left). ring.
Qed.

(** X9.  [get_company_sentiment_avg] answers [None] for a company
    without a scored article, and also for a company whose scores are all 0:
    the average 0 is taken for no average.  An average it does return lies
    in [-1, 1] when the stored scores of the company do.  The answer does
    not depend on the letter case of the symbol. *)
Theorem sentiment_avg_takes_zero_for_none (d : db) (symbol : string) :
  (stored_scores d symbol = [] → get_company_sentiment_avg d symbol = None)
  ∧ ((∀ y, y ∈ stored_scores d symbol → (y == 0)%Q) →
     get_company_sentiment_avg d symbol = None)
  ∧ (∀ x, get_company_sentiment_avg d symbol = Some x →
       (∀ y, y ∈ stored_scores d symbol → (-1 <= y <= 1)%Q) → (-1 <= x <= 1)%Q)
  ∧ get_company_sentiment_avg d (lower symbol) = get_company_sentiment_avg d symbol
  ∧ get_company_sentiment_avg d (upper symbol) = get_company_sentiment_avg d symbol.
Proof.
  split_and!.
  - unfold get_company_sentiment_avg. by intros ->.
  - intros Hz. unfold get_company_sentiment_avg.
    destruct (stored_scores d symbol) as [|y ys] eqn:E; [done|].
    assert (Hne : y :: ys ≠ []) by done.
    assert (H0 : (Qsum (y :: ys) == 0)%Q) by (by apply fold_Qplus_zeros).
    apply (mean_zero _ Hne) in H0. apply Qeq_bool_iff in H0. by rewrite H0.
  - intros x. unfold get_company_sentiment_avg.
    destruct (stored_scores d symbol) as [|y ys] eqn:E; [done|].
    destruct (Qeq_bool _ 0); [done|]. intros [= <-].
    intros Hb. apply py_round_unit. by apply mean_bounds.
  - unfold get_company_sentiment_avg, stored_scores. by rewrite upper_lower.
  - unfold get_company_sentiment_avg, stored_scores. by rewrite upper_idem.
Qed.

(** *** The entries of [get_all_insights] *)

Lemma collect_insights_elem (d : db) (cs : list CompanyDB.t) (l : list Insight.t)
  (i : Insight.t) :
  collect_insights d cs = Ok l → i ∈ l →
  ∃ company s,
    company ∈ cs ∧ CompanyDB.symbol company = PStr s
    ∧ company_insight d s company = Some i.
Proof.
  revert l. induction cs as [|company cs IH]; intros l; simpl.
  - intros [= <-] Hi. by apply elem_of_nil in Hi.
  - destruct (CompanyDB.symbol company) as [|s| |] eqn:Es; try done.
    unfold mbind, outcome_bind.
    destruct (collect_insights d cs) as [rest|]; [|done].
    intros [= <-] Hi.
    destruct (company_insight d s company) as [i0|] eqn:Ei.
    + apply elem_of_cons in Hi as [->|Hi].
      * exists company, s. split; [by left|done].
      * destruct (IH rest eq_refl Hi) as (c & s' & ? & ? & ?).
        exists c, s'. split; [by right|done].
    + destruct (IH rest eq_refl Hi) as (c & s' & ? & ? & ?).
      exists c, s'. split; [by right|done].
Qed.

Lemma get_all_insights_elem (d : db) (insights : list Insight.t) (i : Insight.t) :
  get_all_insights d = Ok insights → i ∈ insights →
  ∃ company s,
    company ∈ companies d ∧ CompanyDB.symbol company = PStr s
    ∧ company_insight d s company = Some i.
Proof.
  unfold get_all_insights, mbind, outcome_bind.
  destruct (collect_insights d (get_all_companies d)) as [l|] eqn:E; [|done].
  intros [= <-] Hi. rewrite stable_sort_perm in Hi.
  destruct (collect_insights_elem d _ l i E Hi) as (c & s & Hc & ? & ?).
  exists c, s. split; [|done].
  unfold get_all_companies in Hc. by rewrite stable_sort_perm in Hc.
Qed.

(** The enriched ones among the ten most recent articles of a company are
    stored articles of that company with a score. *)
Lemma recent_enriched_elem (d : db) (s : string) (r : NewsArticleDB.t) :
  r ∈ recent_enriched d s →
  r ∈ news_articles d ∧ NewsArticleDB.symbol r = upper s
  ∧ is_Some (NewsArticleDB.sentiment_score r).
Proof.
  unfold recent_enriched, enriched_only.
  intros [Hr Hs]%list_elem_of_In%filter_In. apply list_elem_of_In in Hr.
  apply bool_decide_eq_true in Hs.
  destruct (order_by_limit newer_first
              (λ r, String.eqb (NewsArticleDB.symbol r) (upper s))
              newer_first_total newer_first_trans (news_articles d) 10)
    as (_ & H2 & _).
  destruct (H2 r Hr) as [? ?%String.eqb_eq]. done.
Qed.

Lemma recent_enriched_length (d : db) (s : string) : length (recent_enriched d s) ≤ 10.
Proof.
  unfold recent_enriched, enriched_only.
  etransitivity; [apply List.filter_length_le|].
  unfold get_company_news. rewrite length_take. lia.
Qed.

Lemma most_impactful_elem (articles : list NewsArticleDB.t) (summary : json) :
  most_impactful articles = Some summary →
  ∃ r members,
    r ∈ articles
    ∧ NewsArticleDB.market_impact r = Some "high"
    ∧ NewsArticleDB.key_insights r = Some (JObj members)
    ∧ members_get "summary" members = Some summary.
Proof.
  induction articles as [|r rest IH]; [done|]. simpl.
  assert (Hrest : most_impactful rest = Some summary →
            ∃ r0 members, r0 ∈ r :: rest
              ∧ NewsArticleDB.market_impact r0 = Some "high"
              ∧ NewsArticleDB.key_insights r0 = Some (JObj members)
              ∧ members_get "summary" members = Some summary).
  { intros (r0 & m & ? & ?)%IH. exists r0, m. split; [by right|done]. }
  destruct (NewsArticleDB.key_insights r) as [[| | | | |members]|] eqn:Ek; try done.
  destruct (NewsArticleDB.market_impact r) as [impact|] eqn:Em; [|done].
  destruct (String.eqb_spec impact "high") as [->|]; [|done].
  destruct (members_get "summary" members) as [v|] eqn:Eg; [|done].
  intros [= <-]. exists r, members. split; [by left|done].
Qed.

Lemma scores_elem (articles : list NewsArticleDB.t) (x : Q) :
  x ∈ scores articles →
  ∃ r, r ∈ articles ∧ NewsArticleDB.sentiment_score r = Some x.
Proof.
  unfold scores. intros (r & ? & ?)%list_elem_of_omap. by exists r.
Qed.

Lemma scores_length (articles : list NewsArticleDB.t) :
  length (scores (enriched_only articles)) = length (enriched_only articles).
Proof.
  unfold scores, enriched_only.
  induction articles as [|r rest IH]; [done|]. cbn [List.filter].
  destruct (NewsArticleDB.sentiment_score r) as [x|] eqn:E.
  - rewrite bool_decide_eq_true_2 by eauto.
    change (omap ?f (r :: ?l)) with
      (match f r with Some y => y :: omap f l | None => omap f l end).
    rewrite E. cbn [length]. by rewrite IH.
  - rewrite bool_decide_eq_false_2 by (by intros [? ?]). exact IH.
Qed.

(** X10.  Every entry of [get_all_insights] carries the symbol and the
    name of a stored company, counts between 1 and 10 articles, and lists at
    most five classifications, all different, none empty, each the
    classification of a stored, scored article of the company.  Its top
    insight, when it has one, is the summary held by a stored, scored article
    of the company whose market impact is "high". *)
Theorem insight_entries_are_well_formed (d : db) (insights : list Insight.t)
  (i : Insight.t) :
  get_all_insights d = Ok insights →
  i ∈ insights →
  (∃ company, company ∈ companies d
      ∧ CompanyDB.symbol company = PStr (Insight.symbol i)
      ∧ CompanyDB.name company = Insight.company_name i)
  ∧ 1 ≤ Insight.article_count i ≤ 10
  ∧ length (Insight.recent_classifications i) ≤ 5
  ∧ NoDup (Insight.recent_classifications i)
  ∧ (∀ c, c ∈ Insight.recent_classifications i →
       c ≠ EmptyString
       ∧ ∃ r, r ∈ news_articles d
              ∧ NewsArticleDB.symbol r = upper (Insight.symbol i)
              ∧ is_Some (NewsArticleDB.sentiment_score r)
              ∧ NewsArticleDB.classification r = Some c)
  ∧ (∀ summary, Insight.top_insight i = Some summary →
       ∃ r members,
         r ∈ news_articles d
         ∧ NewsArticleDB.symbol r = upper (Insight.symbol i)
         ∧ is_Some (NewsArticleDB.sentiment_score r)
         ∧ NewsArticleDB.market_impact r = Some "high"
         ∧ NewsArticleDB.key_insights r = Some (JObj members)
         ∧ members_get "summary" members = Some summary).
Proof.
  intros Hall Hi.
  destruct (get_all_insights_elem d insights i Hall Hi) as (company & s & Hc & Hs & Hci).
  unfold company_insight in Hci. fold (recent_enriched d s) in Hci.
  destruct (recent_enriched d s) as [|a rest] eqn:Er; [done|].
  rewrite <- Er in Hci. injection Hci as <-. cbn [Insight.symbol Insight.company_name
    Insight.article_count Insight.recent_classifications Insight.top_insight].
  split_and!.
  - by exists company.
  - rewrite Er. simpl. lia.
  - apply recent_enriched_length.
  - rewrite length_take. lia.
  - apply (sublist_NoDup _ (remove_dups
             (List.filter truthy_str (omap NewsArticleDB.classification (recent_enriched d s))))).
    + apply NoDup_remove_dups.
    + apply sublist_take.
  - intros c Hc'.
    assert (Hin : c ∈ List.filter truthy_str
                    (omap NewsArticleDB.classification (recent_enriched d s))).
    { apply elem_of_remove_dups.
      eapply elem_of_sublist; [exact Hc'|apply sublist_take]. }
    apply list_elem_of_In, filter_In in Hin as [Hin Ht].
    apply list_elem_of_In, list_elem_of_omap in Hin as (r & Hr & Hcl).
    split; [by intros ->|].
    destruct (recent_enriched_elem d s r Hr) as (? & ? & ?). by exists r.
  - intros summary (r & members & Hr & ? & ? & ?)%most_impactful_elem.
    destruct (recent_enriched_elem d s r Hr) as (? & ? & ?). by exists r, members.
Qed.

(** X11.  When every stored sentiment score lies in [-1, 1], so does
    the average sentiment of every entry of [get_all_insights]. *)
Theorem insight_means_stay_in_range (d : db) (insights : list Insight.t) :
  (∀ r x, r ∈ news_articles d → NewsArticleDB.sentiment_score r = Some x →
          (-1 <= x <= 1)%Q) →
  get_all_insights d = Ok insights →
  ∀ i, i ∈ insights → (-1 <= Insight.avg_sentiment i <= 1)%Q.
Proof.
  intros Hrange Hall i Hi.
  destruct (get_all_insights_elem d insights i Hall Hi) as (company & s & Hc & Hs & Hci).
  unfold company_insight in Hci. fold (recent_enriched d s) in Hci.
  destruct (recent_enriched d s) as [|a rest] eqn:Er; [done|].
  rewrite <- Er in Hci. injection Hci as <-. cbn [Insight.avg_sentiment].
  apply py_round_unit.
  assert (Hlen : length (scores (recent_enriched d s)) = length (recent_enriched d s))
    by apply scores_length.
  rewrite <- Hlen.
  apply mean_bounds.
  - intros Hnil. rewrite Hnil, Er in Hlen. done.
  - intros x (r & Hr & Hx)%scores_elem.
    destruct (recent_enriched_elem d s r Hr) as (Hin & _). by apply (Hrange r).
Qed.

Lemma insight_entries_are_well_formed_witness :
  ∃ insights i,
    get_all_insights Scenarios.three_means = Ok insights
    ∧ i ∈ insights
    ∧ 1 ≤ Insight.article_count i ≤ 10
    ∧ length (Insight.recent_classifications i) ≤ 5.
Proof.
  eexists _, _. split; [vm_compute; reflexivity|]. split; [left|].
  edestruct (insight_entries_are_well_formed Scenarios.three_means)
    as (_ & H1 & H2 & _).
  - vm_compute. reflexivity.
  - left.
  - split; [exact H1|exact H2].
Defined.

Lemma insight_means_stay_in_range_witness :
  ∃ insights,
    get_all_insights Scenarios.three_means = Ok insights
    ∧ ∀ i, i ∈ insights → (-1 <= Insight.avg_sentiment i <= 1)%Q.
Proof.
  eexists. split; [vm_compute; reflexivity|].
  apply (insight_means_stay_in_range Scenarios.three_means).
  - intros r x Hr Hx. vm_compute in Hr.
    repeat (apply elem_of_cons in Hr as [->|Hr]);
      [..|by apply elem_of_nil in Hr];
      vm_compute in Hx; injection Hx as <-; split; vm_compute; discriminate.
  - vm_compute. reflexivity.
Defined.

End QueryFacts.

(** ** Theorems: the two enrichment paths *)

Module FallbackFacts.
Import DataSources Enrichment Database PyFacts EnrichmentFacts.

Lemma mock_raises_iff (article : Article.t) :
  is_ok (_mock_enrich_article article) = false
  ↔ Article.title article = None ∨ Article.content article = None.
Proof.
  split; [|apply mock_raises_without_text].
  unfold _mock_enrich_article.
  destruct (Article.title article), (Article.content article); simpl; auto; done.
Qed.

Section Service.

Variable ANTHROPIC_API_KEY : string.
Variable anthropic_installed : bool.
Variable analysis_reply : Article.t → pyval → outcome json.
Variable float_of_str : string → option pyfloat.

(** X12.  [enrich_news_article] raises exactly when the article has
    [None] for a title or for a content and, moreover, there is no client or
    the reply of the service cannot be used.  With a client and a usable
    reply it returns the normalized reply; in every other case it returns or
    raises as [_mock_enrich_article] does on the article. *)
Theorem enrich_raises_only_without_text (article : Article.t) (name : pyval) :
  (is_ok (enrich_news_article ANTHROPIC_API_KEY anthropic_installed analysis_reply
            float_of_str article name) = false
   ↔ (Article.title article = None ∨ Article.content article = None)
     ∧ (_get_anthropic_client ANTHROPIC_API_KEY anthropic_installed = None
        ∨ is_ok (analysis_reply article name ≫= normalize float_of_str) = false))
  ∧ (∀ e, analysis_reply article name ≫= normalize float_of_str = Ok e →
       _get_anthropic_client ANTHROPIC_API_KEY anthropic_installed = Some tt →
       enrich_news_article ANTHROPIC_API_KEY anthropic_installed analysis_reply
         float_of_str article name = Ok e)
  ∧ (_get_anthropic_client ANTHROPIC_API_KEY anthropic_installed = None
     ∨ is_ok (analysis_reply article name ≫= normalize float_of_str) = false →
     enrich_news_article ANTHROPIC_API_KEY anthropic_installed analysis_reply
       float_of_str article name = _mock_enrich_article article).
Proof.
  unfold enrich_news_article.
  destruct (_get_anthropic_client _ _) as [[]|].
  - destruct (analysis_reply article name ≫= normalize float_of_str) as [e|err].
    + split_and!.
      * split; [done|]. by intros [_ [?|?]].
      * by intros e' [= ->] _.
      * by intros [?|?].
    + split_and!; try done.
      rewrite mock_raises_iff. split; [by intros ?; split; [|right]|by intros [? _]].
  - split_and!; try done.
    rewrite mock_raises_iff. split; [by intros ?; split; [|left]|by intros [? _]].
Qed.

End Service.

(** *** Letter case of the labels *)

Lemma lower_ascii_idem (a : ascii) : lower_ascii (lower_ascii a) = lower_ascii a.
Proof.
  destruct a as [[] [] [] [] [] [] [] []]; reflexivity.
Qed.

Lemma lower_idem (s : string) : lower (lower s) = lower s.
Proof.
  induction s as [|a s IH]; [done|]. cbn [lower]. by rewrite lower_ascii_idem, IH.
Qed.

Lemma py_lower_lower (v : json) (s : string) : py_lower v = Ok s → lower s = s.
Proof.
  destruct v; try done. intros [= <-]. apply lower_idem.
Qed.

Lemma classification_lower (title : string) :
  lower (keyword_classification title) = keyword_classification title.
Proof.
  unfold keyword_classification.
  repeat (destruct (any_present _ title); [done|]). done.
Qed.

Lemma mock_labels_lower (article : Article.t) (e : enrichment) :
  _mock_enrich_article article = Ok e →
  lower (sentiment_label e) = sentiment_label e
  ∧ lower (classification e) = classification e
  ∧ lower (market_impact e) = market_impact e.
Proof.
  unfold _mock_enrich_article.
  destruct (Article.title article) as [t|]; [|done].
  destruct (Article.content article) as [c|]; [|done].
  intros [= <-]. cbn [sentiment_label classification market_impact].
  split_and!; [|apply classification_lower|done].
  unfold keyword_sentiment. by repeat (destruct (_ <? _)).
Qed.

Section Labels.

Variable ANTHROPIC_API_KEY : string.
Variable anthropic_installed : bool.
Variable analysis_reply : Article.t → pyval → outcome json.
Variable float_of_str : string → option pyfloat.

(** X13.  In every enrichment that [enrich_news_article] returns, on
    the service path as on the fallback path, the sentiment label, the
    classification and the market impact are in lower case. *)
Theorem enrichment_labels_are_lower_case (article : Article.t) (name : pyval)
  (e : enrichment) :
  enrich_news_article ANTHROPIC_API_KEY anthropic_installed analysis_reply
    float_of_str article name = Ok e →
  lower (sentiment_label e) = sentiment_label e
  ∧ lower (classification e) = classification e
  ∧ lower (market_impact e) = market_impact e.
Proof.
  unfold enrich_news_article.
  destruct (_get_anthropic_client _ _) as [[]|]; [|apply mock_labels_lower].
  destruct (analysis_reply article name) as [parsed|err]; [|apply mock_labels_lower].
  cbn [mbind outcome_bind].
  destruct (normalize float_of_str parsed) as [e'|err] eqn:En; [|apply mock_labels_lower].
  intros [= <-]. revert En. unfold normalize.
  destruct parsed as [| | | | |members]; try done. unfold mbind, outcome_bind.
  destruct (py_float _ _) as [x|]; [|done].
  destruct (py_lower (get_or members "sentiment_label" _)) as [label|] eqn:E1; [|done].
  destruct (py_lower (get_or members "classification" _)) as [class|] eqn:E2; [|done].
  destruct (py_lower (get_or members "market_impact" _)) as [impact|] eqn:E3; [|done].
  intros [= <-]. cbn [sentiment_label classification market_impact].
  split_and!; by eapply py_lower_lower.
Qed.

End Labels.

(** A reply whose label is capitalised. *)
Lemma enrichment_labels_are_lower_case_witness :
  ∃ e,
    enrich_news_article "key" true (λ _ _, Ok Scenarios.wild_reply) (λ _, None)
      Scenarios.upbeat (PStr "Acme") = Ok e
    ∧ sentiment_label e = "positive"
    ∧ lower (sentiment_label e) = sentiment_label e.
Proof.
  eexists. split; [reflexivity|]. split; [reflexivity|].
  exact (proj1 (enrichment_labels_are_lower_case "key" true
                  (λ _ _, Ok Scenarios.wild_reply) (λ _, None)
                  Scenarios.upbeat (PStr "Acme") _ eq_refl)).
Defined.

(** *** The keyword fallback *)

Lemma lower_app (s1 s2 : string) : lower (s1 +:+ s2) = lower s1 +:+ lower s2.
Proof. induction s1 as [|a s1 IH]; [done|]. simpl. by rewrite IH. Qed.

(** X14.  [_mock_enrich_article] looks at the lowercased text only: two
    articles whose titles agree up to letter case, and whose contents do, get
    the same enrichment. *)
Theorem mock_ignores_letter_case (a b : Article.t) (t t' c c' : string) :
  Article.title a = Some t → Article.title b = Some t' →
  Article.content a = Some c → Article.content b = Some c' →
  lower t = lower t' → lower c = lower c' →
  _mock_enrich_article a = _mock_enrich_article b.
Proof.
  intros Ha Hb Hca Hcb Ht Hc. unfold _mock_enrich_article.
  rewrite Ha, Hb, Hca, Hcb. rewrite !lower_app. by rewrite Ht, Hc.
Qed.

Lemma any_classification (title : string) :
  keyword_classification title
    ∈ ["earnings"; "product"; "legal"; "executive"; "market"; "other"].
Proof.
  unfold keyword_classification.
  repeat (destruct (any_present _ title); [set_solver|]). set_solver.
Qed.

Lemma inject_nat_pos (n : nat) : 0 < n → (1 <= inject_Z (Z.of_nat n))%Q.
Proof. intros H. change 1%Q with (inject_Z 1). rewrite <- Zle_Qle. lia. Qed.

(** X15.  In an enrichment returned by [_mock_enrich_article], label
    and score agree: "positive" comes with a score from 0.4 to 1, "negative"
    with a score from -1 to -0.4, "neutral" with the score 0, and there is no
    other label.  The market impact is "medium", and the classification is
    one of the six the function knows. *)
Theorem mock_label_agrees_with_score (article : Article.t) (e : enrichment) :
  _mock_enrich_article article = Ok e →
  ((sentiment_label e = "positive" ∧ (0.4 <= sentiment_score e <= 1)%Q)
   ∨ (sentiment_label e = "negative" ∧ (-1 <= sentiment_score e <= -0.4)%Q)
   ∨ (sentiment_label e = "neutral" ∧ (sentiment_score e == 0)%Q))
  ∧ market_impact e = "medium"
  ∧ classification e ∈ ["earnings"; "product"; "legal"; "executive"; "market"; "other"].
Proof.
  unfold _mock_enrich_article.
  destruct (Article.title article) as [t|]; [|done].
  destruct (Article.content article) as [c|]; [|done].
  intros [= <-]. cbn [sentiment_label sentiment_score market_impact classification key_insights].
  split_and!; try done; [|apply any_classification].
  unfold keyword_sentiment.
  set (pc := sum_present positive_keywords _).
  set (nc := sum_present negative_keywords _).
  destruct (Nat.ltb_spec nc pc) as [Hp|Hp]; cbn [fst snd].
  - left. split; [done|]. pose proof (positive_score pc) as E.
    pose proof (inject_nat_pos pc ltac:(lia)).
    destruct (Q.min_spec 1 (0.3 + 0.1 * inject_Z (Z.of_nat pc))) as [[? Hm]|[? Hm]].
    all: unfold clamp_score in E; split; lra.
  - destruct (Nat.ltb_spec pc nc) as [Hn|Hn]; cbn [fst snd].
    + right. left. split; [done|]. pose proof (negative_score nc) as E.
      pose proof (inject_nat_pos nc ltac:(lia)).
      destruct (Q.max_spec (-1) (- 0.3 - 0.1 * inject_Z (Z.of_nat nc))) as [[? Hm]|[? Hm]].
      all: unfold clamp_score in E; split; lra.
    + right. right. split; [done|]. apply (py_round_hundredths _ 0). reflexivity.
Qed.

Lemma mock_ignores_letter_case_witness :
  _mock_enrich_article
    (Article.Make (Some "PROFIT GROWTH BEATS FORECASTS") None None None None
       (Some "a strong QUARTER"))
  = _mock_enrich_article Scenarios.upbeat.
Proof.
  eapply mock_ignores_letter_case; reflexivity.
Defined.

Lemma mock_label_agrees_with_score_witness :
  ∃ e, _mock_enrich_article Scenarios.upbeat = Ok e
       ∧ market_impact e = "medium"
       ∧ classification e ∈ ["earnings"; "product"; "legal"; "executive"; "market"; "other"].
Proof.
  eexists. split; [reflexivity|].
  destruct (mock_label_agrees_with_score Scenarios.upbeat _ eq_refl) as (_ & H1 & H2).
  split; [exact H1|exact H2].
Defined.

End FallbackFacts.

(** ** Theorems: cleaning of the company data *)

Module CleaningFacts.
Import DataSources Enrichment Database Pipeline PyFacts.

Lemma str_take_length n : ∀ s, String.length (str_take n s) = Nat.min n (String.length s).
Proof.
  induction n as [|n IH]; intros [|a s]; simpl; try done. by rewrite IH.
Qed.

Lemma str_length_app (a b : string) :
  String.length (a +:+ b) = String.length a + String.length b.
Proof. induction a as [|c a IH]; simpl; [done|by rewrite IH]. Qed.

Lemma str_take_take n : ∀ s t,
  n ≤ String.length s → str_take n (str_take n s +:+ t) = str_take n s.
Proof.
  induction n as [|n IH]; intros s t H.
  - by destruct s, t.
  - destruct s as [|a s]; simpl in *; [lia|]. rewrite IH; [done|lia].
Qed.

Lemma setdefault_lookup key value (m : gmap string pyval) k :
  setdefault key value m !! k
  = match m !! k with
    | Some v => Some v
    | None => if decide (k = key) then Some value else None
    end.
Proof.
  unfold setdefault. destruct (m !! key) as [v|] eqn:E.
  - destruct (m !! k) eqn:Ek; [done|]. destruct (decide (k = key)); congruence.
  - destruct (decide (k = key)) as [->|Hne].
    + by rewrite lookup_insert_eq, E.
    + rewrite lookup_insert_ne by done. by destruct (m !! k).
Qed.

(** The dict before the description is looked at. *)
Lemma defaults_lookup self_symbol (data : gmap string pyval) k :
  setdefault "name" (PStr self_symbol)
    (setdefault "symbol" (PStr self_symbol) (filter (λ kv, kv.2 ≠ PNone) data)) !! k
  = match data !! k with
    | Some v => if decide (v = PNone)
                then (if decide (k = "symbol" ∨ k = "name") then Some (PStr self_symbol) else None)
                else Some v
    | None => if decide (k = "symbol" ∨ k = "name") then Some (PStr self_symbol) else None
    end.
Proof.
  rewrite !setdefault_lookup.
  assert (Hf : filter (λ kv : string * pyval, kv.2 ≠ PNone) data !! k
               = match data !! k with
                 | Some v => if decide (v = PNone) then None else Some v
                 | None => None
                 end).
  { destruct (data !! k) as [v|] eqn:E.
    - destruct (decide (v = PNone)) as [->|Hv].
      + apply map_lookup_filter_None. right. intros v' Hv' Hne. apply Hne. simpl. congruence.
      + apply map_lookup_filter_Some. done.
    - apply map_lookup_filter_None. by left. }
  rewrite Hf.
  destruct (data !! k) as [v|]; [destruct (decide (v = PNone))|]; try done;
    destruct (decide (k = "symbol")), (decide (k = "name")),
      (decide (k = "symbol" ∨ k = "name"));
    solve [done | tauto | intuition congruence].
Qed.

Lemma description_lookup self_symbol (data : gmap string pyval) :
  setdefault "name" (PStr self_symbol)
    (setdefault "symbol" (PStr self_symbol) (filter (λ kv, kv.2 ≠ PNone) data))
    !! "description"
  = match data !! "description" with
    | Some v => if decide (v = PNone) then None else Some v
    | None => None
    end.
Proof.
  rewrite defaults_lookup.
  rewrite (decide_False (P := "description" = "symbol" ∨ "description" = "name"))
    by (intros [?|?]; discriminate).
  done.
Qed.

(** X16.  [_clean_company_data] raises only a [TypeError], and only
    on data whose description is neither a string nor [None].  Otherwise the
    dict it returns holds no [None], has a symbol and a name, keeps every
    non-null entry of the data other than the description as it is, holds
    nothing else but a symbol or a name set to the pipeline's symbol, has a
    description that is a string of at most 2003 characters, and is left as
    it is by a second cleaning. *)
Theorem cleaning_normalizes_company_data (self_symbol : string)
  (data : gmap string pyval) :
  match _clean_company_data self_symbol data with
  | Raise e =>
      exn_class e = "TypeError"
      ∧ ∃ v, data !! "description" = Some v ∧ v ≠ PNone ∧ ∀ s, v ≠ PStr s
  | Ok cleaned =>
      (∀ k v, cleaned !! k = Some v → v ≠ PNone)
      ∧ is_Some (cleaned !! "symbol")
      ∧ is_Some (cleaned !! "name")
      ∧ (∀ k v, k ≠ "description" → data !! k = Some v → v ≠ PNone →
                cleaned !! k = Some v)
      ∧ (∀ k v, cleaned !! k = Some v →
                is_Some (data !! k) ∨ (k = "symbol" ∨ k = "name") ∧ v = PStr self_symbol)
      ∧ (∀ v, cleaned !! "description" = Some v →
              ∃ s, v = PStr s ∧ String.length s ≤ 2003)
      ∧ _clean_company_data self_symbol cleaned = Ok cleaned
  end.
Proof.
  pose proof (defaults_lookup self_symbol data) as Hl.
  pose proof (description_lookup self_symbol data) as Hdesc.
  unfold _clean_company_data. cbv zeta.
  set (cleaned := setdefault "name" _ (setdefault "symbol" _ (filter _ data))) in *.
  assert (Hnn : ∀ k v, cleaned !! k = Some v → v ≠ PNone).
  { intros k v. rewrite Hl.
    destruct (data !! k) as [w|]; [destruct (decide (w = PNone))|];
      repeat case_decide; congruence. }
  assert (Hs : is_Some (cleaned !! "symbol")).
  { rewrite Hl.
    destruct (data !! "symbol") as [w|]; [destruct (decide (w = PNone))|];
      repeat case_decide; try done; tauto. }
  assert (Hn : is_Some (cleaned !! "name")).
  { rewrite Hl.
    destruct (data !! "name") as [w|]; [destruct (decide (w = PNone))|];
      repeat case_decide; try done; tauto. }
  assert (Hkeep : ∀ k v, data !! k = Some v → v ≠ PNone → cleaned !! k = Some v).
  { intros k v Hk Hv. rewrite Hl, Hk. by destruct (decide (v = PNone)). }
  assert (Hfrom : ∀ k v, cleaned !! k = Some v →
            is_Some (data !! k) ∨ (k = "symbol" ∨ k = "name") ∧ v = PStr self_symbol).
  { intros k v. rewrite Hl.
    destruct (data !! k) as [w|]; [by left|].
    case_decide; [|done]. intros [= <-]. by right. }
  assert (Hid : ∀ m : gmap string pyval,
            (∀ k v, m !! k = Some v → v ≠ PNone) →
            is_Some (m !! "symbol") → is_Some (m !! "name") →
            setdefault "name" (PStr self_symbol)
              (setdefault "symbol" (PStr self_symbol) (filter (λ kv, kv.2 ≠ PNone) m)) = m).
  { intros m Hm [x Hx] [y Hy].
    rewrite (map_filter_id _ m) by (intros k v; apply Hm).
    unfold setdefault. by rewrite Hx, Hy. }
  destruct (cleaned !! "description") as [[|description|x|t]|] eqn:Ed.
  - by destruct (Hnn _ _ Ed).
  - destruct (2000 <? String.length description) eqn:Elen.
    + apply Nat.ltb_lt in Elen.
      set (short := str_take 2000 description +:+ "...").
      assert (Hlen : String.length short = 2003).
      { unfold short. rewrite str_length_app, str_take_length.
        change (String.length "...") with 3. lia. }
      assert (Hnn' : ∀ k v, <["description" := PStr short]> cleaned !! k = Some v → v ≠ PNone).
      { intros k v. destruct (decide (k = "description")) as [->|Hk].
        - rewrite lookup_insert_eq. congruence.
        - rewrite lookup_insert_ne by done. apply Hnn. }
      split_and!.
      * exact Hnn'.
      * by rewrite lookup_insert_ne.
      * by rewrite lookup_insert_ne.
      * intros k v Hk Hd Hv. rewrite lookup_insert_ne by done. by apply Hkeep.
      * intros k v. destruct (decide (k = "description")) as [->|Hk].
        -- intros _. left. clear Ed.
           by destruct (data !! "description").
        -- rewrite lookup_insert_ne by done. apply Hfrom.
      * intros v. rewrite lookup_insert_eq. intros [= <-]. exists short. split; [done|lia].
      * rewrite Hid; [|exact Hnn'|by rewrite lookup_insert_ne|by rewrite lookup_insert_ne].
        rewrite lookup_insert_eq.
        assert ((2000 <? String.length short) = true) as -> by (apply Nat.ltb_lt; lia).
        unfold short at 1. rewrite str_take_take by lia. fold short.
        by rewrite insert_insert_eq.
    + apply Nat.ltb_ge in Elen. split_and!; try done.
      * intros k v _. apply Hkeep.
      * intros v. rewrite Ed. intros [= <-]. exists description. split; [done|lia].
      * rewrite Hid by done. by rewrite Ed, (proj2 (Nat.ltb_ge _ _) Elen).
  - split; [done|]. clear Ed.
    destruct (data !! "description") as [w|]; [|done].
    destruct (decide (w = PNone)); [done|].
    injection Hdesc as <-. exists (PNum x). done.
  - split; [done|]. clear Ed.
    destruct (data !! "description") as [w|]; [|done].
    destruct (decide (w = PNone)); [done|].
    injection Hdesc as <-. exists (PTime t). done.
  - split_and!; try done.
    + intros k v _. apply Hkeep.
    + intros v. by rewrite Ed.
    + rewrite Hid by done. by rewrite Ed.
Qed.

End CleaningFacts.

(** ** Theorems: invariants of a run *)

Module RunFacts.
Import DataSources Enrichment Database Pipeline PyFacts DatabaseFacts PipelineFacts RunNotions.

Section Run.

Variable fetch_company_overview : string → outcome (option (gmap string pyval)).
Variable fetch_stock_data : string → Z → outcome (list StockRecord.t).
Variable fetch_news_articles : pyval → string → Z → Z → outcome (list Article.t).
Variable enrich_news_article : nat → Article.t → pyval → outcome enrichment.
Variable generate_company_summary :
  gmap string pyval → list Article.t → outcome string.
Variable utcnow : nat → Z.

#[local] Abbreviation step_company := (_step_fetch_company fetch_company_overview).
#[local] Abbreviation step_stock := (_step_fetch_stock fetch_stock_data).
#[local] Abbreviation step_news := (_step_fetch_news fetch_news_articles).
#[local] Abbreviation step_enrich := (_step_enrich_articles enrich_news_article).
#[local] Abbreviation step_summary := (_step_generate_summary generate_company_summary).
#[local] Abbreviation step_persist := (_step_persist_data utcnow).
#[local] Abbreviation the_plan :=
  (plan fetch_company_overview fetch_stock_data fetch_news_articles
     enrich_news_article generate_company_summary utcnow).
#[local] Abbreviation the_run :=
  (run fetch_company_overview fetch_stock_data fetch_news_articles
     enrich_news_article generate_company_summary utcnow).
#[local] Abbreviation the_pipeline :=
  (run_pipeline fetch_company_overview fetch_stock_data fetch_news_articles
     enrich_news_article generate_company_summary utcnow).
#[local] Abbreviation the_attempts := (attempts enrich_news_article).

(** *** What each step leaves alone *)

Lemma fetch_company_keeps s s' r :
  step_company s = (s', r) →
  same_header (result s) (result s')
  ∧ news_articles s' = news_articles s
  ∧ PipelineResult.articles_ingested (result s')
    = PipelineResult.articles_ingested (result s)
  ∧ stock_data s' = stock_data s
  ∧ PipelineResult.stock_records_added (result s')
    = PipelineResult.stock_records_added (result s).
Proof.
  unfold _step_fetch_company. unfold_m.
  cases; intros [= <- <-]; simpl; done.
Qed.

Lemma fetch_stock_keeps s s' r :
  step_stock s = (s', r) →
  same_header (result s) (result s')
  ∧ news_articles s' = news_articles s
  ∧ PipelineResult.articles_ingested (result s')
    = PipelineResult.articles_ingested (result s)
  ∧ PipelineResult.stock_records_added (result s')
    = PipelineResult.stock_records_added (result s).
Proof.
  unfold _step_fetch_stock. unfold_m.
  cases; intros [= <- <-]; simpl; done.
Qed.

Lemma fetch_news_keeps s s' r :
  step_news s = (s', r) →
  same_header (result s) (result s')
  ∧ (counted s → counted s')
  ∧ (is_ok r = true → counted s')
  ∧ stock_data s' = stock_data s
  ∧ PipelineResult.stock_records_added (result s')
    = PipelineResult.stock_records_added (result s).
Proof.
  unfold _step_fetch_news, counted. unfold_m.
  cases; intros [= <- <-]; simpl; done.
Qed.

Lemma generate_summary_keeps s s' r :
  step_summary s = (s', r) →
  same_header (result s) (result s')
  ∧ news_articles s' = news_articles s
  ∧ PipelineResult.articles_ingested (result s')
    = PipelineResult.articles_ingested (result s)
  ∧ stock_data s' = stock_data s
  ∧ PipelineResult.stock_records_added (result s')
    = PipelineResult.stock_records_added (result s).
Proof.
  unfold _step_generate_summary. unfold_m.
  cases; intros [= <- <-]; simpl; done.
Qed.

Lemma enrich_from_keeps articles : ∀ i name s s' r,
  enrich_from enrich_news_article i name articles s = (s', r) →
  same_header (result s) (result s')
  ∧ news_articles s' = news_articles s
  ∧ PipelineResult.articles_ingested (result s')
    = PipelineResult.articles_ingested (result s)
  ∧ stock_data s' = stock_data s
  ∧ PipelineResult.stock_records_added (result s')
    = PipelineResult.stock_records_added (result s).
Proof.
  induction articles as [|article rest IH]; intros i name s s' r.
  - unfold enrich_from, skip, mret, M_ret. by intros [= <- <-].
  - cbn [enrich_from]. unfold_m.
    destruct (enrich_news_article i article name) as [e|err];
      intros (H1 & H2 & H3 & H4 & H5)%IH; simpl in *; done.
Qed.

Lemma enrich_articles_keeps s s' r :
  step_enrich s = (s', r) →
  same_header (result s) (result s')
  ∧ news_articles s' = news_articles s
  ∧ PipelineResult.articles_ingested (result s')
    = PipelineResult.articles_ingested (result s)
  ∧ stock_data s' = stock_data s
  ∧ PipelineResult.stock_records_added (result s')
    = PipelineResult.stock_records_added (result s).
Proof.
  unfold _step_enrich_articles. unfold_m.
  destruct (enrich_from _ _ _ _ _) as [s1 [[]|e]] eqn:E;
    apply enrich_from_keeps in E as (H1 & H2 & H3 & H4 & H5);
    intros [= <- <-]; simpl in *; done.
Qed.

Lemma persist_articles_news self_symbol items : ∀ s s' r,
  persist_articles utcnow self_symbol items s = (s', r) →
  news_articles s' = news_articles s ∧ stock_data s' = stock_data s.
Proof.
  induction items as [|[article_data enrichment] rest IH]; intros s s' r.
  - unfold persist_articles, skip, mret, M_ret. by intros [= <- <-].
  - cbn [persist_articles]. unfold_m.
    destruct (add_news_article (database s) self_symbol article_data) as [[d row]|err];
      [|by intros [= <- <-]].
    destruct enrichment as [e|]; intros H; apply IH in H; exact H.
Qed.

Lemma persist_data_keeps s s' r :
  step_persist s = (s', r) →
  same_header (result s) (result s')
  ∧ news_articles s' = news_articles s
  ∧ PipelineResult.articles_ingested (result s')
    = PipelineResult.articles_ingested (result s)
  ∧ stock_data s' = stock_data s
  ∧ (stock_data s = [] →
     PipelineResult.stock_records_added (result s')
     = PipelineResult.stock_records_added (result s))
  ∧ enriched_articles s' = enriched_articles s
  ∧ options_ s' = options_ s
  ∧ PipelineResult.articles_enriched (result s')
    = PipelineResult.articles_enriched (result s).
Proof.
  unfold _step_persist_data. unfold_m.
  destruct (upsert_company _ _ _) as [[d row]|err];
    [|intros [= <- <-]; simpl; done].
  cbn [symbol with_result with_clock with_database stock_data].
  destruct (stock_data s) as [|record records] eqn:Es.
  - destruct (persist_articles _ _ _ _) as [s1 [[]|err]] eqn:E;
      pose proof (persist_articles_news _ _ _ _ _ E) as [En Est];
      apply persist_articles_frame in E as (E1 & E2 & E3 & E4);
      intros [= <- <-]; simpl in *; rewrite ?E1, ?En, ?Est, ?Es, ?E3, ?E4; simpl; done.
  - destruct (add_stock_data _ _ _) as [d' count].
    destruct (persist_articles _ _ _ _) as [s1 [[]|err]] eqn:E;
      pose proof (persist_articles_news _ _ _ _ _ E) as [En Est];
      apply persist_articles_frame in E as (E1 & E2 & E3 & E4);
      intros [= <- <-]; simpl in *; rewrite ?E1, ?En, ?Est, ?Es, ?E3, ?E4; simpl; done.
Qed.

(** *** Properties that the whole plan keeps *)

Lemma run_plan_keeps (P : state → Prop) steps :
  Forall (kept_by P) steps →
  ∀ s s' r, P s → run_plan steps s = (s', r) → P s'.
Proof.
  induction 1 as [|[[name enabled] step] steps Hx Hs IH]; intros s s' r HP.
  - unfold run_plan, skip, mret, M_ret. by intros [= <- <-].
  - cbn [run_plan]. unfold_m. destruct (enabled s) eqn:En.
    + destruct (step s) as [s1 [[]|e]] eqn:E.
      * apply IH. by apply (Hx s s1 (Ok tt)).
      * intros [= <- <-]. by apply (Hx s s1 (Raise e)).
    + by apply IH.
Qed.

Lemma plan_keeps_header (header : PipelineResult.t) :
  Forall (kept_by (λ s, same_header header (result s))) the_plan.
Proof.
  unfold plan.
  repeat (apply Forall_cons; split); [..|by apply Forall_nil];
    unfold kept_by; intros s s' r HP _ H; simpl in H.
  - apply fetch_company_keeps in H as [H _]. unfold same_header in *. intuition congruence.
  - apply fetch_stock_keeps in H as [H _]. unfold same_header in *. intuition congruence.
  - apply fetch_news_keeps in H as [H _]. unfold same_header in *. intuition congruence.
  - apply enrich_articles_keeps in H as [H _]. unfold same_header in *. intuition congruence.
  - apply generate_summary_keeps in H as [H _]. unfold same_header in *. intuition congruence.
  - apply persist_data_keeps in H as [H _]. unfold same_header in *. intuition congruence.
Qed.

(** The loop of step 6 keeps what the writes for every item keep, also when
    it stops at an insert that is refused. *)
Lemma persist_articles_always_keeps (P : db → Prop) self_symbol items :
  (∀ article_data en d d1 row t,
     P d → add_news_article d self_symbol article_data = Ok (d1, row) →
     P (written d1 row en t)) →
  ∀ s s' r, persist_articles utcnow self_symbol items s = (s', r) →
            P (database s) → P (database s').
Proof.
  intros Hstep.
  induction items as [|[a en] rest IH]; intros s s' r.
  - unfold persist_articles, skip, mret, M_ret. by intros [= <- <-].
  - cbn [persist_articles]. unfold_m.
    destruct (add_news_article (database s) self_symbol a) as [[d1 row]|err] eqn:Ea;
      [|by intros [= <- <-]].
    destruct en as [e|]; intros H HP.
    + apply IH in H; [done|]. simpl.
      by apply (Hstep a (Some e) (database s) d1 row).
    + apply IH in H; [done|]. simpl.
      by apply (Hstep a None (database s) d1 row 0%Z).
Qed.

Lemma written_stock_table (d d1 : db) (symbol : string) (article_data : Article.t)
  (row : NewsArticleDB.t) (en : option enrichment) (t : Z) :
  add_news_article d symbol article_data = Ok (d1, row) →
  Database.stock_data (written d1 row en t) = Database.stock_data d.
Proof.
  intros Hadd.
  assert (H1 : Database.stock_data d1 = Database.stock_data d).
  { by apply add_news_article_spec in Hadd as [(-> & _)|(? & _ & _ & -> & _)]. }
  destruct en as [e|]; simpl; [|done].
  destruct (update_article_enrichment_tables d1 t (NewsArticleDB.id row) e)
    as (_ & -> & _). done.
Qed.

(** Step 6 writes to the stock table only when there are fetched records,
    and to the news table only when there are enriched articles. *)
Lemma persist_data_stock_table s s' r :
  step_persist s = (s', r) →
  stock_data s = [] →
  Database.stock_data (database s') = Database.stock_data (database s).
Proof.
  intros H Hnil. revert H. unfold _step_persist_data. unfold_m.
  destruct (upsert_company _ _ _) as [[d row]|err] eqn:Eu;
    [|intros [= <- <-]; simpl; done].
  apply upsert_company_tables in Eu as [Estock Enews].
  cbn [symbol with_result with_clock with_database stock_data enriched_articles].
  rewrite Hnil.
  destruct (persist_articles _ _ _ _) as [s1 [[]|err]] eqn:E.
  all: intros [= <- <-]; simpl.
  all: apply (persist_articles_always_keeps
                (λ x, Database.stock_data x = Database.stock_data (database s))) in E;
    [exact E|intros; erewrite written_stock_table; eauto|simpl; done].
Qed.

Lemma persist_data_news_table s s' r :
  step_persist s = (s', r) →
  enriched_articles s = [] →
  Database.news_articles (database s') = Database.news_articles (database s).
Proof.
  intros H Hnil. revert H. unfold _step_persist_data. unfold_m.
  destruct (upsert_company _ _ _) as [[d row]|err] eqn:Eu;
    [|intros [= <- <-]; simpl; done].
  apply upsert_company_tables in Eu as [Estock Enews].
  cbn [symbol with_result with_clock with_database stock_data enriched_articles].
  destruct (stock_data s) as [|record records] eqn:Es.
  - cbn [enriched_articles with_database with_clock with_result].
    rewrite Hnil. cbn [persist_articles]. unfold skip, mret, M_ret.
    intros [= <- <-]. simpl. done.
  - destruct (add_stock_data_spec d (symbol s) (record :: records))
      as (added & _ & _ & _ & _ & Hn).
    destruct (add_stock_data d (symbol s) (record :: records)) as [d' count].
    cbn [enriched_articles with_database with_clock with_result].
    rewrite Hnil. cbn [persist_articles]. unfold skip, mret, M_ret.
    simpl in Hn, Enews. intros [= <- <-]. simpl. congruence.
Qed.

Lemma enrich_articles_frame s s' r :
  step_enrich s = (s', r) →
  options_ s' = options_ s ∧ database s' = database s.
Proof.
  destruct (enrich_articles_spec enrich_news_article s) as (s1 & -> & _ & H1 & H2 & _).
  by intros [= <- _].
Qed.

(** [run] always returns its result, settled. *)
Lemma run_settles (s0 : state) :
  ∃ sf,
    the_run s0 = (sf, Ok (result sf))
    ∧ PipelineResult.symbol (result sf) = PipelineResult.symbol (result s0)
    ∧ PipelineResult.started_at (result sf) = utcnow (clock s0)
    ∧ is_Some (PipelineResult.completed_at (result sf))
    ∧ ((PipelineResult.status (result sf) = "completed"
        ∧ PipelineResult.error (result sf) = PipelineResult.error (result s0))
       ∨ (PipelineResult.status (result sf) = "failed"
          ∧ is_Some (PipelineResult.error (result sf)))).
Proof.
  rewrite run_by_plan.
  destruct (run_plan the_plan (started utcnow s0)) as [s' [[]|e]] eqn:E;
    pose proof (run_plan_keeps _ _ (plan_keeps_header (result (started utcnow s0)))
                  _ _ _ ltac:(done) E) as (_ & Hsym & Herr & Hst & _);
    (eexists; split; [reflexivity|]); simpl in *; split_and!; try done.
  - by left.
  - by right.
Qed.

(** X17.  [run_pipeline] never raises.  It returns the result the
    pipeline holds, whose symbol is the requested one in upper case, whose
    start time is the reading of the clock made by [run], and whose
    completion time is set; its status is "completed" with no error, or
    "failed" with an error. *)
Theorem run_always_settles (symbol_ : string) (opts : options) (d : db) (ticks : nat) :
  ∃ sf r,
    the_pipeline symbol_ opts d ticks = (sf, Ok r)
    ∧ result sf = r
    ∧ PipelineResult.symbol r = upper symbol_
    ∧ PipelineResult.started_at r = utcnow (S ticks)
    ∧ is_Some (PipelineResult.completed_at r)
    ∧ ((PipelineResult.status r = "completed" ∧ PipelineResult.error r = None)
       ∨ (PipelineResult.status r = "failed" ∧ is_Some (PipelineResult.error r))).
Proof.
  unfold run_pipeline.
  destruct (run_settles (init utcnow symbol_ opts d ticks))
    as (sf & Hrun & Hsym & Hstart & Hdone & Hstatus).
  exists sf, (result sf). split_and!; done.
Qed.

(** X18.  However a run ends, an option that is switched off leaves no
    trace.  Without [fetch_stock] the stock table is as before the run and
    [stock_records_added] is 0.  Without [fetch_news] the news table is as
    before the run and both article counters are 0.  Without
    [enrich_with_llm] the news table is as before the run, the fetched
    articles not being stored, and [articles_enriched] is 0. *)
Theorem disabled_steps_leave_no_trace (symbol_ : string) (opts : options) (d : db)
  (ticks : nat) :
  ∃ sf r,
    the_pipeline symbol_ opts d ticks = (sf, Ok r)
    ∧ (fetch_stock opts = false →
       Database.stock_data (database sf) = Database.stock_data d
       ∧ PipelineResult.stock_records_added r = 0)
    ∧ (fetch_news opts = false →
       Database.news_articles (database sf) = Database.news_articles d
       ∧ PipelineResult.articles_ingested r = 0
       ∧ PipelineResult.articles_enriched r = 0)
    ∧ (enrich_with_llm opts = false →
       Database.news_articles (database sf) = Database.news_articles d
       ∧ PipelineResult.articles_enriched r = 0).
Proof.
  set (s0 := init utcnow symbol_ opts d ticks).
  set (no_stock := λ s : state,
         options_ s = opts ∧ stock_data s = []
         ∧ Database.stock_data (database s) = Database.stock_data d
         ∧ PipelineResult.stock_records_added (result s) = 0).
  set (no_news := λ s : state,
         options_ s = opts ∧ news_articles s = [] ∧ enriched_articles s = []
         ∧ Database.news_articles (database s) = Database.news_articles d
         ∧ PipelineResult.articles_ingested (result s) = 0
         ∧ PipelineResult.articles_enriched (result s) = 0).
  set (no_enrichment := λ s : state,
         options_ s = opts ∧ enriched_articles s = []
         ∧ Database.news_articles (database s) = Database.news_articles d
         ∧ PipelineResult.articles_enriched (result s) = 0).
  assert (Hstock : fetch_stock opts = false → Forall (kept_by no_stock) the_plan).
  { intros Hoff. unfold plan.
    repeat (apply Forall_cons; split); [..|by apply Forall_nil];
      unfold kept_by, no_stock; intros s s' r (Ho & Hs & Hd & Ha) Hen H; simpl in H, Hen.
    - pose proof (fetch_company_frame _ _ _ _ H) as ((_ & ? & ? & _) & _).
      apply fetch_company_keeps in H as (_ & _ & _ & ? & ?). split_and!; congruence.
    - congruence.
    - pose proof (fetch_news_frame _ _ _ _ H) as ((_ & ? & ? & _) & _).
      apply fetch_news_keeps in H as (_ & _ & _ & ? & ?). split_and!; congruence.
    - pose proof (enrich_articles_frame _ _ _ H) as [? ?].
      apply enrich_articles_keeps in H as (_ & _ & _ & ? & ?). split_and!; congruence.
    - pose proof (generate_summary_frame _ _ _ _ H) as ((_ & ? & ? & _) & _).
      apply generate_summary_keeps in H as (_ & _ & _ & ? & ?). split_and!; congruence.
    - pose proof (persist_data_stock_table _ _ _ H) as Ht.
      apply persist_data_keeps in H as (_ & _ & _ & ? & Hadded & _ & ? & _).
      split_and!; try congruence.
      + rewrite Ht by done. done.
      + rewrite Hadded by done. done. }
  assert (Hnews : fetch_news opts = false → Forall (kept_by no_news) the_plan).
  { intros Hoff. unfold plan.
    repeat (apply Forall_cons; split); [..|by apply Forall_nil];
      unfold kept_by, no_news; intros s s' r (Ho & Hn & He & Hd & Hi & Hc) Hen H;
      simpl in H, Hen.
    - pose proof (fetch_company_frame _ _ _ _ H) as ((_ & ? & ? & ? & ?) & _).
      apply fetch_company_keeps in H as (_ & ? & ? & _). split_and!; congruence.
    - pose proof (fetch_stock_frame _ _ _ _ H) as ((_ & ? & ? & ? & ?) & _).
      apply fetch_stock_keeps in H as (_ & ? & ? & _). split_and!; congruence.
    - congruence.
    - rewrite Hn in Hen. by rewrite andb_false_r in Hen.
    - pose proof (generate_summary_frame _ _ _ _ H) as ((_ & ? & ? & ? & ?) & _).
      apply generate_summary_keeps in H as (_ & ? & ? & _). split_and!; congruence.
    - pose proof (persist_data_news_table _ _ _ H) as Ht.
      apply persist_data_keeps in H as (_ & ? & ? & _ & _ & ? & ? & ?).
      split_and!; try congruence. rewrite Ht by done. done. }
  assert (Henrich : enrich_with_llm opts = false →
            Forall (kept_by no_enrichment) the_plan).
  { intros Hoff. unfold plan.
    repeat (apply Forall_cons; split); [..|by apply Forall_nil];
      unfold kept_by, no_enrichment; intros s s' r (Ho & He & Hd & Hc) Hen H;
      simpl in H, Hen.
    - pose proof (fetch_company_frame _ _ _ _ H) as ((_ & ? & ? & ? & ?) & _).
      split_and!; congruence.
    - pose proof (fetch_stock_frame _ _ _ _ H) as ((_ & ? & ? & ? & ?) & _).
      split_and!; congruence.
    - pose proof (fetch_news_frame _ _ _ _ H) as ((_ & ? & ? & ? & ?) & _).
      split_and!; congruence.
    - rewrite Ho, Hoff in Hen. done.
    - congruence.
    - pose proof (persist_data_news_table _ _ _ H) as Ht.
      apply persist_data_keeps in H as (_ & ? & ? & _ & _ & ? & ? & ?).
      split_and!; try congruence. rewrite Ht by done. done. }
  assert (H0s : no_stock (started utcnow s0)) by (unfold no_stock; simpl; done).
  assert (H0n : no_news (started utcnow s0)) by (unfold no_news; simpl; done).
  assert (H0e : no_enrichment (started utcnow s0)) by (unfold no_enrichment; simpl; done).
  unfold run_pipeline. rewrite run_by_plan. fold s0.
  destruct (run_plan the_plan (started utcnow s0)) as [s' [[]|e]] eqn:E;
    (eexists _, _; split; [reflexivity|]; split_and!; intros Hoff).
  - by destruct (run_plan_keeps _ _ (Hstock Hoff) _ _ _ H0s E) as (_ & _ & ? & ?).
  - by destruct (run_plan_keeps _ _ (Hnews Hoff) _ _ _ H0n E) as (_ & _ & _ & ? & ? & ?).
  - by destruct (run_plan_keeps _ _ (Henrich Hoff) _ _ _ H0e E) as (_ & _ & ? & ?).
  - by destruct (run_plan_keeps _ _ (Hstock Hoff) _ _ _ H0s E) as (_ & _ & ? & ?).
  - by destruct (run_plan_keeps _ _ (Hnews Hoff) _ _ _ H0n E) as (_ & _ & _ & ? & ? & ?).
  - by destruct (run_plan_keeps _ _ (Henrich Hoff) _ _ _ H0e E) as (_ & _ & ? & ?).
Qed.

(** *** The two article counters *)

Lemma enriched_count_le articles : ∀ i name,
  enriched_count (the_attempts i name articles) ≤ length articles.
Proof.
  induction articles as [|a rest IH]; intros i name; [done|].
  cbn [attempts]. unfold enriched_count in *. cbn [List.filter length snd].
  specialize (IH (S i) name).
  destruct (bool_decide _); simpl; lia.
Qed.

Lemma attempts_fst articles : ∀ i name,
  map fst (the_attempts i name articles) = articles.
Proof.
  induction articles as [|a rest IH]; intros i name; [done|].
  cbn [attempts map fst]. by rewrite IH.
Qed.

Lemma fetching_keeps_nothing_enriched :
  Forall (kept_by nothing_enriched) (take 3 the_plan).
Proof.
  unfold plan. cbn [take].
  repeat (apply Forall_cons; split); [..|by apply Forall_nil];
    unfold kept_by, nothing_enriched, counted; intros s s' r (He & Hc & Hi) _ H;
    simpl in H.
  - pose proof (fetch_company_frame _ _ _ _ H) as ((_ & _ & _ & ? & ?) & _).
    apply fetch_company_keeps in H as (_ & ? & ? & _). split_and!; congruence.
  - pose proof (fetch_stock_frame _ _ _ _ H) as ((_ & _ & _ & ? & ?) & _).
    apply fetch_stock_keeps in H as (_ & ? & ? & _). split_and!; congruence.
  - pose proof (fetch_news_frame _ _ _ _ H) as ((_ & _ & _ & ? & ?) & _).
    apply fetch_news_keeps in H as (_ & Hk & _). split_and!; try congruence.
    by apply Hk.
Qed.

Lemma storing_keeps_enriched_counted :
  Forall (kept_by enriched_counted) (drop 4 the_plan).
Proof.
  unfold plan. cbn [drop].
  repeat (apply Forall_cons; split); [..|by apply Forall_nil];
    unfold kept_by, enriched_counted, counted; intros s s' r (Hc & He & Hi) _ H;
    simpl in H.
  - pose proof (generate_summary_frame _ _ _ _ H) as ((_ & _ & _ & Hea & Hce) & _).
    apply generate_summary_keeps in H as (_ & Hn & Hg & _).
    rewrite Hea, Hce, Hn, Hg. done.
  - apply persist_data_keeps in H as (_ & Hn & Hg & _ & _ & Hea & _ & Hce).
    rewrite Hea, Hce, Hn, Hg. done.
Qed.

Lemma enriching_counts s s' r :
  nothing_enriched s →
  (if enrich_with_llm (options_ s) && bool_decide (news_articles s ≠ [])
   then step_enrich s else skip s) = (s', r) →
  enriched_counted s'.
Proof.
  intros (He & Hc & Hi). unfold enriched_counted, counted in *.
  destruct (_ && _).
  - intros H. pose proof (enrich_articles_keeps _ _ _ H) as (_ & Hn & Hg & _).
    destruct (enrich_articles_spec enrich_news_article s)
      as (s1 & E & _ & _ & _ & Hea & Hce & _).
    rewrite E in H. injection H as <- _.
    rewrite Hea, Hce, He, Hc, Hn, Hg. simpl. split_and!; [done| |done].
    right. apply attempts_fst.
  - unfold skip, mret, M_ret. intros [= <- _]. rewrite He, Hc. split_and!; auto.
Qed.

Lemma run_plan_cons name enabled step rest (s : state) :
  run_plan ((name, enabled, step) :: rest) s
  = match (if enabled s then step s else skip s) with
    | (s1, Ok _) => run_plan rest s1
    | (s1, Raise e) => (s1, Raise e)
    end.
Proof. cbn [run_plan]. unfold_m. by destruct (enabled s). Qed.

Lemma plan_counts s s' r :
  nothing_enriched s → run_plan the_plan s = (s', r) → enriched_counted s'.
Proof.
  intros HQ.
  replace the_plan with (take 3 the_plan ++ drop 3 the_plan) by apply take_drop.
  rewrite run_plan_app.
  destruct (run_plan (take 3 the_plan) s) as [s3 [[]|e]] eqn:E3;
    pose proof (run_plan_keeps _ _ fetching_keeps_nothing_enriched _ _ _ HQ E3) as HQ3.
  - change (drop 3 the_plan)
      with (("enrich_articles",
             λ s, enrich_with_llm (options_ s) && bool_decide (news_articles s ≠ []),
             step_enrich) :: drop 4 the_plan).
    rewrite run_plan_cons.
    destruct (if enrich_with_llm (options_ s3) && bool_decide (news_articles s3 ≠ [])
              then step_enrich s3 else skip s3) as [s4 [[]|e]] eqn:E4;
      pose proof (enriching_counts _ _ _ HQ3 E4) as HR4.
    + apply (run_plan_keeps _ _ storing_keeps_enriched_counted). exact HR4.
    + by intros [= <- _].
  - intros [= <- _]. destruct HQ3 as (He & Hc & Hi).
    unfold enriched_counted. rewrite He, Hc. split_and!; auto.
Qed.

(** X19.  However a run ends, [articles_enriched] is at most
    [articles_ingested].  [articles_ingested] is the number of articles the
    pipeline holds, [articles_enriched] the number of items that carry an
    enrichment, and the items, if there are any, are the fetched articles in
    the order they were fetched. *)
Theorem enriched_never_exceeds_ingested (symbol_ : string) (opts : options) (d : db)
  (ticks : nat) :
  ∃ sf r,
    the_pipeline symbol_ opts d ticks = (sf, Ok r)
    ∧ PipelineResult.articles_enriched r ≤ PipelineResult.articles_ingested r
    ∧ PipelineResult.articles_ingested r = length (news_articles sf)
    ∧ PipelineResult.articles_enriched r = enriched_count (enriched_articles sf)
    ∧ (enriched_articles sf = [] ∨ map fst (enriched_articles sf) = news_articles sf).
Proof.
  unfold run_pipeline. rewrite run_by_plan.
  set (s0 := init utcnow symbol_ opts d ticks).
  assert (H0 : nothing_enriched (started utcnow s0)) by (unfold nothing_enriched, counted; simpl; done).
  assert (Hle : ∀ s, enriched_counted s →
            PipelineResult.articles_enriched (result s)
            ≤ PipelineResult.articles_ingested (result s)).
  { intros s (Hc & [He|He] & Hi). 
    - rewrite Hc, He. unfold enriched_count. simpl. lia.
    - rewrite Hc, Hi, <- He, length_map. unfold enriched_count.
      apply List.filter_length_le. }
  destruct (run_plan the_plan (started utcnow s0)) as [s' [[]|e]] eqn:E;
    pose proof (plan_counts _ _ _ H0 E) as HR; pose proof (Hle _ HR) as Hle';
    destruct HR as (Hc & He & Hi); unfold counted in Hi;
    (eexists _, _; split; [reflexivity|]); simpl; done.
Qed.

(** *** The trace of a run *)

Lemma run_plan_guard steps (guard : state → bool) :
  Forall (λ later, ∀ s s' r, later.2 s = (s', r) → guard s' = guard s) steps →
  ∀ s s' r, run_plan steps s = (s', r) → guard s' = guard s.
Proof.
  intros Hall s s' r H.
  apply (run_plan_keeps (λ x, guard x = guard s) steps) in H; [done| |done].
  eapply Forall_impl; [exact Hall|].
  intros [[name enabled] step] Hstep x x' r' Hx _ Hrun. simpl in *.
  by rewrite (Hstep _ _ _ Hrun).
Qed.

Lemma run_plan_trace steps :
  Forall well_named steps → settled_guards steps →
  ∀ s s' r, run_plan steps s = (s', r) →
    let expected := map (λ entry, entry.1.1) (List.filter (λ entry, entry.1.2 s') steps) in
    match r with
    | Ok _ =>
        PipelineResult.steps_completed (result s')
        = PipelineResult.steps_completed (result s) ++ expected
    | Raise _ =>
        ∃ before name after,
          expected = before ++ name :: after
          ∧ PipelineResult.steps_completed (result s')
            = PipelineResult.steps_completed (result s) ++ before
          ∧ PipelineResult.current_step (result s') = Some name
    end.
Proof.
  induction 1 as [|[[name enabled] step] steps Hx Hs IH]; intros Hg s s' r.
  - unfold run_plan, skip, mret, M_ret. intros [= <- <-]. simpl. by rewrite app_nil_r.
  - destruct Hg as [Hhere Hrest]. apply Forall_cons in Hhere as [Hself Hlater].
    simpl in Hself, Hlater.
    rewrite run_plan_cons. cbn [List.filter fst snd].
    destruct (enabled s) eqn:En.
    + destruct (step s) as [s1 [[]|e]] eqn:E;
        destruct (Hx _ _ _ E) as [Hcur Hdone]; simpl in Hcur, Hdone.
      * intros H. pose proof (run_plan_guard _ enabled Hlater _ _ _ H) as Hen.
        rewrite (Hself _ _ _ E), En in Hen. rewrite Hen.
        specialize (IH Hrest _ _ _ H). simpl in IH. cbn [map fst].
        destruct r as [[]|e].
        -- rewrite IH, Hdone, <- app_assoc. done.
        -- destruct IH as (before & n & after & -> & Hc & Hn).
           exists (name :: before), n, after. split_and!; [done| |done].
           rewrite Hc, Hdone, <- app_assoc. done.
      * intros [= <- <-]. rewrite (Hself _ _ _ E), En. cbn [map fst].
        eexists [], name, _. split_and!; [done| |done].
        by rewrite Hdone.
    + unfold skip, mret, M_ret.
      intros H. pose proof (run_plan_guard _ enabled Hlater _ _ _ H) as Hen.
      rewrite En in Hen. rewrite Hen.
      exact (IH Hrest _ _ _ H).
Qed.

Lemma plan_keeps_options s s' r entry :
  entry ∈ the_plan → entry.2 s = (s', r) → options_ s' = options_ s.
Proof.
  unfold plan. intros Hin H.
  repeat (apply elem_of_cons in Hin as [->|Hin]); simpl in H.
  - by pose proof (fetch_company_frame _ _ _ _ H) as ((_ & ? & _) & _).
  - by pose proof (fetch_stock_frame _ _ _ _ H) as ((_ & ? & _) & _).
  - by pose proof (fetch_news_frame _ _ _ _ H) as ((_ & ? & _) & _).
  - by pose proof (enrich_articles_frame _ _ _ H) as [? _].
  - by pose proof (generate_summary_frame _ _ _ _ H) as ((_ & ? & _) & _).
  - by apply persist_data_keeps in H as (_ & _ & _ & _ & _ & _ & ? & _).
  - by apply elem_of_nil in Hin.
Qed.

Lemma late_steps_keep_news s s' r entry :
  entry ∈ drop 3 the_plan → entry.2 s = (s', r) → news_articles s' = news_articles s.
Proof.
  unfold plan. cbn [drop]. intros Hin H.
  repeat (apply elem_of_cons in Hin as [->|Hin]); simpl in H.
  - by apply enrich_articles_keeps in H as (_ & ? & _).
  - by apply generate_summary_keeps in H as (_ & ? & _).
  - by apply persist_data_keeps in H as (_ & ? & _).
  - by apply elem_of_nil in Hin.
Qed.

Lemma plan_settled : settled_guards the_plan.
Proof.
  assert (Hopt : ∀ entry s s' r, entry ∈ the_plan → entry.2 s = (s', r) →
                                 options_ s' = options_ s).
  { intros. by eapply plan_keeps_options. }
  assert (Hnews : ∀ entry s s' r, entry ∈ drop 3 the_plan → entry.2 s = (s', r) →
                                  news_articles s' = news_articles s).
  { intros. by eapply late_steps_keep_news. }
  revert Hopt Hnews. unfold plan. cbn [settled_guards drop fst snd].
  intros Hopt Hnews.
  split_and!; try done; apply Forall_forall; intros entry Hin s s' r H; try done.
  - rewrite (Hopt entry s s' r); [done| |done]. by right.
  - rewrite (Hopt entry s s' r); [done| |done]. by do 2 right.
  - rewrite (Hopt entry s s' r); [|by do 3 right|done].
    by rewrite (Hnews entry s s' r).
  - rewrite (Hopt entry s s' r); [done| |done]. by do 4 right.
Qed.

Lemma plan_guards_at (s : state) :
  counted s →
  map (λ entry : string * (state → bool) * M unit, entry.1.1)
      (List.filter (λ entry, entry.1.2 s) the_plan)
  = enabled_steps (options_ s) (PipelineResult.articles_ingested (result s)).
Proof.
  unfold counted, plan, enabled_steps. intros ->. cbn [List.filter fst snd].
  destruct (fetch_stock (options_ s)), (fetch_news (options_ s)),
    (enrich_with_llm (options_ s)), (news_articles s); done.
Qed.

Lemma plan_ends_in_persist s s' :
  run_plan the_plan s = (s', Ok tt) →
  PipelineResult.current_step (result s') = Some "persist_data".
Proof.
  replace the_plan with (take 5 the_plan ++ drop 5 the_plan) by apply take_drop.
  rewrite run_plan_app.
  destruct (run_plan (take 5 the_plan) s) as [s5 [[]|e]]; [|done].
  unfold plan. cbn [drop run_plan]. unfold_m.
  destruct (step_persist s5) as [s6 [[]|e]] eqn:E; [|done].
  intros [= <-]. by apply persist_data_frame in E as (? & _).
Qed.

(** X20.  The steps a run records.  A completed run has recorded, in
    order, exactly the steps that its options and the number of fetched
    articles enable ([enabled_steps]), and its current step is
    "persist_data".  A failed run has recorded an initial part of that list,
    and its current step is the step next on it: the one that raised. *)
Theorem steps_completed_follow_the_plan (symbol_ : string) (opts : options) (d : db)
  (ticks : nat) :
  ∃ sf r,
    the_pipeline symbol_ opts d ticks = (sf, Ok r)
    ∧ (PipelineResult.status r = "completed" →
       PipelineResult.steps_completed r
       = enabled_steps opts (PipelineResult.articles_ingested r)
       ∧ PipelineResult.current_step r = Some "persist_data")
    ∧ (PipelineResult.status r = "failed" →
       ∃ before name after,
         enabled_steps opts (PipelineResult.articles_ingested r)
         = before ++ name :: after
         ∧ PipelineResult.steps_completed r = before
         ∧ PipelineResult.current_step r = Some name).
Proof.
  unfold run_pipeline. rewrite run_by_plan.
  set (s0 := init utcnow symbol_ opts d ticks).
  assert (H0 : nothing_enriched (started utcnow s0))
    by (unfold nothing_enriched, counted; simpl; done).
  assert (Hopt : Forall (kept_by (λ s, options_ s = opts)) the_plan).
  { apply Forall_forall. intros entry Hin s s' r Ho _ H.
    by rewrite (plan_keeps_options _ _ _ entry Hin H). }
  assert (Ho0 : options_ (started utcnow s0) = opts) by done.
  destruct (run_plan the_plan (started utcnow s0)) as [s' [[]|e]] eqn:E;
    pose proof (plan_counts _ _ _ H0 E) as (_ & _ & Hc);
    pose proof (run_plan_keeps _ _ Hopt _ _ _ Ho0 E) as Ho;
    pose proof (run_plan_trace the_plan (plan_well_named _ _ _ _ _ _) plan_settled
                  _ _ _ E) as Ht;
    simpl in Ho; cbv zeta in Ht; rewrite (plan_guards_at _ Hc), Ho in Ht;
    (eexists _, _; split; [reflexivity|]); simpl; (split; [|]); try done.
  intros _. split; [done|]. by apply (plan_ends_in_persist _ _ E).
Qed.

(** *** What a completed run has stored *)

Lemma storing_keeps_items :
  Forall (kept_by items_follow_news) (drop 4 the_plan).
Proof.
  unfold plan. cbn [drop].
  repeat (apply Forall_cons; split); [..|by apply Forall_nil];
    unfold kept_by, items_follow_news; intros s s' r HP _ H; simpl in H.
  - pose proof (generate_summary_frame _ _ _ _ H) as ((_ & Ho & _ & Hea & _) & _).
    apply generate_summary_keeps in H as (_ & Hn & _).
    rewrite Ho, Hea, Hn. done.
  - apply persist_data_keeps in H as (_ & Hn & _ & _ & _ & Hea & Ho & _).
    rewrite Ho, Hea, Hn. done.
Qed.

Lemma enriching_pairs_items s s' r :
  nothing_enriched s →
  (if enrich_with_llm (options_ s) && bool_decide (news_articles s ≠ [])
   then step_enrich s else skip s) = (s', r) →
  items_follow_news s'.
Proof.
  intros (He & Hc & Hi). unfold items_follow_news.
  destruct (enrich_with_llm (options_ s)) eqn:Eo; cbn [andb].
  - destruct (bool_decide _) eqn:En.
    + intros H. pose proof (enrich_articles_keeps _ _ _ H) as (_ & Hn & _).
      destruct (enrich_articles_spec enrich_news_article s)
        as (s1 & E & _ & _ & _ & Hea & _).
      rewrite E in H. injection H as <- _.
      rewrite Hea, He, Hn. simpl. intros _. apply attempts_fst.
    + unfold skip, mret, M_ret. intros [= <- _] _. rewrite He.
      apply bool_decide_eq_false in En. 
      destruct (news_articles s); [done|]. by destruct En.
  - unfold skip, mret, M_ret. intros [= <- _]. congruence.
Qed.

Lemma completed_plan_items s s' r :
  nothing_enriched s → run_plan the_plan s = (s', Ok r) → items_follow_news s'.
Proof.
  intros HQ.
  replace the_plan with (take 3 the_plan ++ drop 3 the_plan) by apply take_drop.
  rewrite run_plan_app.
  destruct (run_plan (take 3 the_plan) s) as [s3 [[]|e]] eqn:E3; [|done].
  pose proof (run_plan_keeps _ _ fetching_keeps_nothing_enriched _ _ _ HQ E3) as HQ3.
  change (drop 3 the_plan)
    with (("enrich_articles",
           λ s, enrich_with_llm (options_ s) && bool_decide (news_articles s ≠ []),
           step_enrich) :: drop 4 the_plan).
  rewrite run_plan_cons.
  destruct (if enrich_with_llm (options_ s3) && bool_decide (news_articles s3 ≠ [])
            then step_enrich s3 else skip s3) as [s4 [[]|e]] eqn:E4; [|done].
  pose proof (enriching_pairs_items _ _ _ HQ3 E4) as HR4.
  apply (run_plan_keeps _ _ storing_keeps_items). exact HR4.
Qed.

Lemma persist_articles_stores_urls self_symbol items : ∀ s s',
  persist_articles utcnow self_symbol items s = (s', Ok tt) →
  ∀ article en, (article, en) ∈ items → url_stored (Article.url article) (database s').
Proof.
  induction items as [|[a en0] rest IH]; intros s s' H article en Hin.
  - by apply elem_of_nil in Hin.
  - apply persist_articles_cons in H as (d1 & row & t & s1 & Hadd & Hdb & Hrest).
    apply elem_of_cons in Hin as [[= -> ->]|Hin].
    + eapply (persist_articles_invariant utcnow (url_stored (Article.url a)));
        [|exact Hrest|].
      * intros article_data en' d0 d2 row' t' _ Hst Hadd'.
        by eapply written_keeps_url_stored.
      * rewrite Hdb. by eapply written_stores_url.
    + by eapply IH.
Qed.

(** X21.  After a completed run with enrichment enabled, the URL of
    every fetched article is the URL of a stored article. *)
Theorem completed_run_stores_every_article (symbol_ : string) (opts : options) (d : db)
  (ticks : nat) :
  ∃ sf r,
    the_pipeline symbol_ opts d ticks = (sf, Ok r)
    ∧ (PipelineResult.status r = "completed" →
       enrich_with_llm opts = true →
       ∀ article, article ∈ news_articles sf →
                  url_stored (Article.url article) (database sf)).
Proof.
  unfold run_pipeline. rewrite run_by_plan.
  set (s0 := init utcnow symbol_ opts d ticks).
  assert (H0 : nothing_enriched (started utcnow s0))
    by (unfold nothing_enriched, counted; simpl; done).
  assert (Hopt : Forall (kept_by (λ s, options_ s = opts)) the_plan).
  { apply Forall_forall. intros entry Hin s s' r Ho _ H.
    by rewrite (plan_keeps_options _ _ _ entry Hin H). }
  assert (Ho0 : options_ (started utcnow s0) = opts) by done.
  destruct (run_plan the_plan (started utcnow s0)) as [s' [[]|e]] eqn:E;
    (eexists _, _; split; [reflexivity|]); simpl; [|done].
  intros _ Hllm article Hin.
  pose proof (run_plan_keeps _ _ Hopt _ _ _ Ho0 E) as Ho. simpl in Ho.
  pose proof (completed_plan_items _ _ _ H0 E) as Hitems.
  unfold items_follow_news in Hitems. rewrite Ho in Hitems. specialize (Hitems Hllm).
  revert E.
  replace the_plan with (take 5 the_plan ++ drop 5 the_plan) by apply take_drop.
  rewrite run_plan_app.
  destruct (run_plan (take 5 the_plan) (started utcnow s0)) as [s5 [[]|e]]; [|done].
  unfold plan. cbn [drop run_plan]. unfold_m.
  destruct (step_persist s5) as [s6 [[]|e]] eqn:E6; [|done].
  intros [= ->].
  pose proof (persist_data_keeps _ _ _ E6) as (_ & _ & _ & _ & _ & Hea & _).
  apply persist_data_loop in E6 as (sa & sz & _ & Hloop & ->).
  rewrite <- Hitems, Hea in Hin.
  apply list_elem_of_fmap in Hin as ([a en] & -> & Hin).
  by apply (persist_articles_stores_urls _ _ _ _ Hloop a en).
Qed.

(** *** A run while the company provider is out *)

Lemma fallback_merged (existing : CompanyDB.t) (self_symbol : string) (c : column) :
  match fallback_company_data self_symbol !! column_name c with
  | Some v => if is_none v then getattr existing c else v
  | None => getattr existing c
  end
  = match c with
    | C_symbol | C_name => PStr self_symbol
    | C_sector => PStr "Unknown"
    | C_description => PStr "Company data not available"
    | _ => getattr existing c
    end.
Proof.
  unfold fallback_company_data.
  destruct c; cbn [column_name];
    repeat first [rewrite lookup_insert_eq | rewrite lookup_insert_ne by done];
    rewrite ?lookup_empty; done.
Qed.

Lemma outage_gives_fallback s s' r :
  fetch_company_overview (symbol s) = Ok None
  ∨ fetch_company_overview (symbol s) = Ok (Some ∅) →
  step_company s = (s', r) →
  company_data s' = fallback_company_data (symbol s).
Proof.
  unfold _step_fetch_company. unfold_m. cbn [symbol with_result].
  intros [-> | ->]; [|rewrite bool_decide_eq_true_2 by done];
    intros [= <- <-]; done.
Qed.

Lemma fetch_stock_company_data s s' r :
  step_stock s = (s', r) → company_data s' = company_data s.
Proof.
  unfold _step_fetch_stock. unfold_m. cases; intros [= <- <-]; done.
Qed.

Lemma fetch_news_company_data s s' r :
  step_news s = (s', r) → company_data s' = company_data s.
Proof.
  unfold _step_fetch_news. unfold_m. cases; intros [= <- <-]; done.
Qed.

Lemma enrich_from_company_data articles : ∀ i name s s' r,
  enrich_from enrich_news_article i name articles s = (s', r) →
  company_data s' = company_data s.
Proof.
  induction articles as [|article rest IH]; intros i name s s' r.
  - unfold enrich_from, skip, mret, M_ret. by intros [= <- <-].
  - cbn [enrich_from]. unfold_m.
    destruct (enrich_news_article i article name) as [e|err];
      intros H%IH; simpl in *; done.
Qed.

Lemma enrich_articles_company_data s s' r :
  step_enrich s = (s', r) → company_data s' = company_data s.
Proof.
  unfold _step_enrich_articles. unfold_m.
  destruct (enrich_from _ _ _ _ _) as [s1 [[]|e]] eqn:E;
    apply enrich_from_company_data in E; intros [= <- <-]; simpl in *; done.
Qed.

Lemma generate_summary_company_data s s' r :
  step_summary s = (s', r) →
  company_data s' = company_data s
  ∨ ∃ summary, company_data s' = <["enriched_summary" := PStr summary]> (company_data s).
Proof.
  unfold _step_generate_summary. unfold_m.
  cases; intros [= <- <-]; simpl; eauto.
Qed.

Lemma persist_data_companies s s' :
  step_persist s = (s', Ok tt) →
  ∃ d1 row,
    upsert_company (database s) (utcnow (clock s)) (company_data s) = Ok (d1, row)
    ∧ companies (database s') = companies d1.
Proof.
  unfold _step_persist_data. unfold_m.
  cbn [symbol with_result with_clock with_database stock_data database clock company_data].
  destruct (upsert_company _ _ _) as [[d row]|err] eqn:Eu; [|done].
  cbn [symbol with_result with_clock with_database stock_data enriched_articles].
  assert (Hloop : ∀ sa sz r, persist_articles utcnow (symbol s) (enriched_articles s) sa = (sz, r) →
            companies (database sa) = companies d →
            companies (database sz) = companies d).
  { intros sa sz r E.
    apply (persist_articles_always_keeps (λ x, companies x = companies d)
             (symbol s) (enriched_articles s)) with (r := r); [|exact E].
    intros a en d0 d1 row' t Hd0 Hadd.
    assert (H1 : companies d1 = companies d0).
    { by apply add_news_article_spec in Hadd as [(-> & _)|(? & _ & _ & -> & _)]. }
    destruct en as [e|]; simpl; [|congruence].
    destruct (update_article_enrichment_tables d1 t (NewsArticleDB.id row') e)
      as (_ & _ & ->). congruence. }
  destruct (stock_data s) as [|record records] eqn:Es.
  - destruct (persist_articles _ _ _ _) as [s2 [[]|err]] eqn:E; [|done].
    intros [= <-]. exists d, row. split; [done|]. simpl.
    by apply (Hloop _ _ _ E).
  - destruct (add_stock_data_spec d (symbol s) (record :: records))
      as (added & _ & _ & _ & Hc & _).
    destruct (add_stock_data d (symbol s) (record :: records)) as [d' count].
    destruct (persist_articles _ _ _ _) as [s2 [[]|err]] eqn:E; [|done].
    intros [= <-]. exists d, row. split; [done|]. simpl.
    by apply (Hloop _ _ _ E).
Qed.

(** X22.  Let a company be stored, and let a run for it get nothing
    from the company provider ([None], or an empty dict).  If the run
    completes, the stored company has its symbol for a name, "Unknown" for a
    sector and "Company data not available" for a description, whatever was
    stored before; industry, market capitalisation, P/E ratio and creation
    time are as they were. *)
Theorem provider_outage_overwrites_company (symbol_ : string) (opts : options) (d : db)
  (ticks : nat) (existing : CompanyDB.t) :
  fetch_company_overview (upper symbol_) = Ok None
  ∨ fetch_company_overview (upper symbol_) = Ok (Some ∅) →
  get_company d symbol_ = Some existing →
  ∃ sf r,
    the_pipeline symbol_ opts d ticks = (sf, Ok r)
    ∧ (PipelineResult.status r = "completed" →
       ∃ row,
         get_company (database sf) symbol_ = Some row
         ∧ CompanyDB.symbol row = PStr (upper symbol_)
         ∧ CompanyDB.name row = PStr (upper symbol_)
         ∧ CompanyDB.sector row = PStr "Unknown"
         ∧ CompanyDB.description row = PStr "Company data not available"
         ∧ CompanyDB.industry row = CompanyDB.industry existing
         ∧ CompanyDB.market_cap row = CompanyDB.market_cap existing
         ∧ CompanyDB.pe_ratio row = CompanyDB.pe_ratio existing
         ∧ CompanyDB.created_at row = CompanyDB.created_at existing).
Proof.
  intros Hout Hget.
  unfold run_pipeline. rewrite run_by_plan.
  set (s0 := init utcnow symbol_ opts d ticks).
  destruct (run_plan the_plan (started utcnow s0)) as [s' [[]|e]] eqn:E;
    (eexists _, _; split; [reflexivity|]); simpl; [|done].
  intros _. revert E.
  set (keeps := λ s : state,
         symbol s = upper symbol_ ∧ database s = d
         ∧ fallback_payload (upper symbol_) (company_data s)).
  assert (Hlater : Forall (kept_by keeps) (drop 1 (take 5 the_plan))).
  { unfold plan. cbn [take drop].
    repeat (apply Forall_cons; split); [..|by apply Forall_nil];
      unfold kept_by, keeps; intros s s1 r (Hs & Hd & Hc) _ H; simpl in H.
    - pose proof (fetch_stock_frame _ _ _ _ H) as ((? & _ & ? & _) & _).
      apply fetch_stock_company_data in H. split_and!; congruence.
    - pose proof (fetch_news_frame _ _ _ _ H) as ((? & _ & ? & _) & _).
      apply fetch_news_company_data in H. split_and!; congruence.
    - pose proof (enrich_articles_spec enrich_news_article s) as (sx & Ex & ? & _ & ? & _).
      rewrite Ex in H. injection H as <- _.
      pose proof (enrich_articles_company_data _ _ _ Ex). split_and!; congruence.
    - pose proof (generate_summary_frame _ _ _ _ H) as ((? & _ & ? & _) & _).
      apply generate_summary_company_data in H as [H|[summary H]];
        (split_and!; [congruence|congruence|]).
      + by rewrite H.
      + rewrite H. destruct Hc as [->|[old ->]].
        * right. by exists summary.
        * right. exists summary. by rewrite insert_insert_eq. }
  replace the_plan with (take 1 the_plan ++ drop 1 (take 5 the_plan) ++ drop 5 the_plan)
    by done.
  rewrite run_plan_app.
  unfold plan at 1. cbn [take run_plan]. unfold_m.
  destruct (step_company (started utcnow s0)) as [s1 [[]|e]] eqn:E1; [|done].
  rewrite run_plan_app.
  pose proof (fetch_company_frame _ _ _ _ E1) as ((Hs1 & _ & Hd1 & _) & _).
  apply outage_gives_fallback in E1; [|exact Hout].
  assert (H1 : keeps s1).
  { unfold keeps. split_and!; [done|done|]. left. exact E1. }
  destruct (run_plan (drop 1 (take 5 the_plan)) s1) as [s5 [[]|e]] eqn:E5; [|done].
  destruct (run_plan_keeps _ _ Hlater _ _ _ H1 E5) as (Hs5 & Hd5 & Hc5).
  unfold plan. cbn [drop run_plan]. unfold_m.
  destruct (step_persist s5) as [s6 [[]|e]] eqn:E6; [|done].
  intros [= <-].
  apply persist_data_companies in E6 as (d1 & row & Hup & Hcomp).
  rewrite Hd5 in Hup.
  assert (Hfound : symbol_is (upper symbol_) existing = true).
  { unfold get_company in Hget. by apply find_some in Hget as [_ H]. }
  assert (Hsym : CompanyDB.symbol existing = PStr (upper symbol_)).
  { unfold symbol_is in Hfound. destruct (CompanyDB.symbol existing) as [|x| |]; try done.
    by apply String.eqb_eq in Hfound as ->. }
  assert (Hlook : ∀ k, k ≠ "enriched_summary" →
            company_data s5 !! k = fallback_company_data (upper symbol_) !! k).
  { intros k Hk. destruct Hc5 as [->|[summary ->]]; [done|].
    by rewrite lookup_insert_ne. }
  assert (Hpay : payload_symbol (company_data s5) = Ok (upper symbol_)).
  { unfold payload_symbol. rewrite Hlook by done.
    unfold fallback_company_data. rewrite lookup_insert_eq. by rewrite upper_idem. }
  assert (Hget' : get_company d (upper symbol_) = Some existing).
  { unfold get_company in *. by rewrite upper_idem. }
  assert (Hkey : merged existing (company_data s5) C_symbol = CompanyDB.symbol existing).
  { unfold merged. change (column_name C_symbol) with "symbol".
    rewrite Hlook by done. unfold fallback_company_data.
    rewrite lookup_insert_eq. by rewrite Hsym. }
  pose proof (upsert_company_update d (utcnow (clock s5)) _ _ existing Hpay Hget' Hkey)
    as Hup'.
  cbv zeta in Hup'. rewrite Hup' in Hup. clear Hup'.
  remember (setattr (assign_items existing (company_data s5)) C_updated_at
              (PTime (utcnow (clock s5)))) as row0 eqn:Hrow0.
  injection Hup as <- <-.
  assert (Hcol : ∀ c, c ≠ C_updated_at → c ≠ C_enriched_summary →
            getattr row0 c
            = match c with
              | C_symbol | C_name => PStr (upper symbol_)
              | C_sector => PStr "Unknown"
              | C_description => PStr "Company data not available"
              | _ => getattr existing c
              end).
  { intros c Hc Hc'. rewrite Hrow0. rewrite getattr_setattr_ne by done.
    rewrite assign_items_getattr. unfold merged.
    rewrite Hlook; [apply fallback_merged|].
    intros Hk. apply Hc'. by apply column_name_inj. }
  clear Hrow0. exists row0. split_and!.
  - simpl in Hcomp. unfold get_company. rewrite Hcomp. rewrite upper_idem.
    apply find_replace_first.
    + unfold symbol_is. change (CompanyDB.symbol row0) with (getattr row0 C_symbol).
      rewrite Hcol by done. by rewrite String.eqb_refl.
    + unfold get_company in Hget. by rewrite Hget.
  - change (CompanyDB.symbol row0) with (getattr row0 C_symbol). by rewrite Hcol.
  - change (CompanyDB.name row0) with (getattr row0 C_name). by rewrite Hcol.
  - change (CompanyDB.sector row0) with (getattr row0 C_sector). by rewrite Hcol.
  - change (CompanyDB.description row0) with (getattr row0 C_description). by rewrite Hcol.
  - change (CompanyDB.industry row0) with (getattr row0 C_industry). by rewrite Hcol.
  - change (CompanyDB.market_cap row0) with (getattr row0 C_market_cap). by rewrite Hcol.
  - change (CompanyDB.pe_ratio row0) with (getattr row0 C_pe_ratio). by rewrite Hcol.
  - change (CompanyDB.created_at row0) with (getattr row0 C_created_at). by rewrite Hcol.
Qed.

(** *** The counters and the rows *)

Lemma written_news_length (d d1 : db) (symbol : string) (article_data : Article.t)
  (row : NewsArticleDB.t) (en : option enrichment) (t : Z) :
  add_news_article d symbol article_data = Ok (d1, row) →
  length (Database.news_articles d) ≤ length (Database.news_articles (written d1 row en t))
  ≤ S (length (Database.news_articles d)).
Proof.
  intros Hadd.
  assert (H1 : length (Database.news_articles d) ≤ length (Database.news_articles d1)
               ≤ S (length (Database.news_articles d))).
  { apply add_news_article_spec in Hadd as [(-> & _)|(? & _ & _ & -> & _)]; simpl.
    - lia.
    - rewrite length_app. simpl. lia. }
  destruct en as [e|]; simpl; [|done].
  unfold update_article_enrichment.
  destruct (find _ _); [|done]. simpl. by rewrite length_replace_first.
Qed.

Lemma persist_articles_news_length self_symbol items : ∀ s s' r,
  persist_articles utcnow self_symbol items s = (s', r) →
  length (Database.news_articles (database s))
  ≤ length (Database.news_articles (database s'))
  ≤ length (Database.news_articles (database s)) + length items.
Proof.
  induction items as [|[a en] rest IH]; intros s s' r.
  - unfold persist_articles, skip, mret, M_ret. intros [= <- <-]. lia.
  - cbn [persist_articles]. unfold_m.
    destruct (add_news_article (database s) self_symbol a) as [[d1 row]|err] eqn:Ea;
      [|intros [= <- <-]; simpl; lia].
    destruct en as [e|]; intros H; apply IH in H; simpl in H.
    + pose proof (written_news_length _ _ _ _ _ (Some e) (utcnow (clock s)) Ea) as Hw.
      simpl in Hw. simpl. lia.
    + pose proof (written_news_length _ _ _ _ _ None 0%Z Ea) as Hw.
      simpl in Hw. simpl. lia.
Qed.

(** Step 6, however it ends: the stock rows it has appended are counted, and
    the news table has grown by at most one row per item. *)
Lemma persist_data_accounts s s' r :
  step_persist s = (s', r) →
  (∃ added,
     Database.stock_data (database s') = Database.stock_data (database s) ++ added
     ∧ Forall (λ row, StockDataDB.symbol row = upper (symbol s)) added
     ∧ (PipelineResult.stock_records_added (result s') = length added
        ∨ added = []
          ∧ PipelineResult.stock_records_added (result s')
            = PipelineResult.stock_records_added (result s)))
  ∧ length (Database.news_articles (database s))
    ≤ length (Database.news_articles (database s'))
    ≤ length (Database.news_articles (database s)) + length (enriched_articles s).
Proof.
  unfold _step_persist_data. unfold_m.
  destruct (upsert_company _ _ _) as [[d row]|err] eqn:Eu.
  2: { intros [= <- <-]. simpl. split; [|lia].
       exists []. rewrite app_nil_r. split_and!; [done|by apply Forall_nil|]. by right. }
  apply upsert_company_tables in Eu as [Estock Enews]. simpl in Estock, Enews.
  cbn [symbol with_result with_clock with_database stock_data enriched_articles].
  assert (Hloop : ∀ sa sz r0,
            persist_articles utcnow (symbol s) (enriched_articles s) sa = (sz, r0) →
            Database.stock_data (database sz) = Database.stock_data (database sa)).
  { intros sa sz r0 E.
    apply (persist_articles_always_keeps
             (λ x, Database.stock_data x = Database.stock_data (database sa))
             (symbol s) (enriched_articles s)) with (r := r0) in E; [done| |done].
    intros a en d0 d1 row' t Hd0 Hadd. erewrite written_stock_table; eauto. }
  destruct (stock_data s) as [|record records] eqn:Es.
  - destruct (persist_articles _ _ _ _) as [s1 r1] eqn:E.
    pose proof (Hloop _ _ _ E) as Hst.
    pose proof (persist_articles_news_length _ _ _ _ _ E) as Hlen.
    apply persist_articles_frame in E as (E1 & _).
    simpl in Hst, Hlen, E1. rewrite Enews in Hlen.
    destruct r1 as [[]|e]; intros [= <- <-]; simpl; (split; [|lia]);
      exists []; rewrite app_nil_r; (split_and!; [congruence|by apply Forall_nil|]);
      right; (split; [done|]); by rewrite E1.
  - destruct (add_stock_data_spec d (symbol s) (record :: records))
      as (added & Hadded & Hcount & Hkeys & _ & Hn).
    destruct (add_stock_data d (symbol s) (record :: records)) as [d' count].
    cbn [fst snd] in Hadded, Hcount, Hn.
    destruct (persist_articles _ _ _ _) as [s1 r1] eqn:E.
    pose proof (Hloop _ _ _ E) as Hst.
    pose proof (persist_articles_news_length _ _ _ _ _ E) as Hlen.
    apply persist_articles_frame in E as (E1 & _).
    simpl in Hst, Hlen, E1. simpl in Hn. rewrite Hn, Enews in Hlen.
    assert (Hsym : Forall (λ row, StockDataDB.symbol row = upper (symbol s)) added).
    { apply Forall_forall. intros x Hx.
      apply list_elem_of_In in Hx. apply (in_map stock_key) in Hx.
      rewrite Hkeys in Hx. apply in_map_iff in Hx as (rec & Hx & _).
      unfold stock_key in Hx. by injection Hx. }
    destruct r1 as [[]|e]; intros [= <- <-]; simpl;
      (split; [|lia]);
      exists added; (split_and!; [congruence|done|]); left; by rewrite E1.
Qed.

(** X23.  However a run ends, the stock table is the table before the
    run with rows appended, [stock_records_added] is the number of those
    rows, and each of them has the pipeline's symbol; the news table has not
    shrunk and has grown by at most [articles_ingested] rows. *)
Theorem counters_account_for_the_rows (symbol_ : string) (opts : options) (d : db)
  (ticks : nat) :
  ∃ sf r added,
    the_pipeline symbol_ opts d ticks = (sf, Ok r)
    ∧ Database.stock_data (database sf) = Database.stock_data d ++ added
    ∧ PipelineResult.stock_records_added r = length added
    ∧ Forall (λ row, StockDataDB.symbol row = upper symbol_) added
    ∧ length (Database.news_articles d)
      ≤ length (Database.news_articles (database sf))
      ≤ length (Database.news_articles d) + PipelineResult.articles_ingested r.
Proof.
  unfold run_pipeline. rewrite run_by_plan.
  set (s0 := init utcnow symbol_ opts d ticks).
  set (untouched := λ s : state,
         symbol s = upper symbol_ ∧ database s = d
         ∧ PipelineResult.stock_records_added (result s) = 0).
  assert (Hkeeps : Forall (kept_by untouched) (take 5 the_plan)).
  { unfold plan. cbn [take].
    repeat (apply Forall_cons; split); [..|by apply Forall_nil];
      unfold kept_by, untouched; intros s s1 r (Hs & Hd & Hc) _ H; simpl in H.
    - pose proof (fetch_company_frame _ _ _ _ H) as ((? & _ & ? & _) & _).
      apply fetch_company_keeps in H as (_ & _ & _ & _ & ?). split_and!; congruence.
    - pose proof (fetch_stock_frame _ _ _ _ H) as ((? & _ & ? & _) & _).
      apply fetch_stock_keeps in H as (_ & _ & _ & ?). split_and!; congruence.
    - pose proof (fetch_news_frame _ _ _ _ H) as ((? & _ & ? & _) & _).
      apply fetch_news_keeps in H as (_ & _ & _ & _ & ?). split_and!; congruence.
    - pose proof (enrich_articles_spec enrich_news_article s) as (sx & Ex & ? & _ & ? & _).
      pose proof (enrich_articles_keeps _ _ _ H) as (_ & _ & _ & _ & ?).
      rewrite Ex in H. injection H as <- _. split_and!; congruence.
    - pose proof (generate_summary_frame _ _ _ _ H) as ((? & _ & ? & _) & _).
      apply generate_summary_keeps in H as (_ & _ & _ & _ & ?). split_and!; congruence. }
  assert (H0 : untouched (started utcnow s0)) by (unfold untouched; simpl; done).
  assert (Hn0 : nothing_enriched (started utcnow s0))
    by (unfold nothing_enriched, counted; simpl; done).
  assert (Hall : ∀ s' r,
            run_plan the_plan (started utcnow s0) = (s', r) →
            ∃ added,
              Database.stock_data (database s') = Database.stock_data d ++ added
              ∧ PipelineResult.stock_records_added (result s') = length added
              ∧ Forall (λ row, StockDataDB.symbol row = upper symbol_) added
              ∧ length (Database.news_articles d)
                ≤ length (Database.news_articles (database s'))
                ≤ length (Database.news_articles d)
                  + PipelineResult.articles_ingested (result s')).
  { intros s' r E.
    pose proof (plan_counts _ _ _ Hn0 E) as (_ & Hitems & Hcounted).
    revert E.
    replace the_plan with (take 5 the_plan ++ drop 5 the_plan) by apply take_drop.
    rewrite run_plan_app.
    destruct (run_plan (take 5 the_plan) (started utcnow s0)) as [s5 [[]|e]] eqn:E5;
      destruct (run_plan_keeps _ _ Hkeeps _ _ _ H0 E5) as (Hs5 & Hd5 & Hc5).
    - unfold plan. cbn [drop run_plan]. unfold_m.
      destruct (step_persist s5) as [s6 r6] eqn:E6.
      intros Hfin.
      assert (Hfinal : s' = s6) by (destruct r6 as [[]|e]; by injection Hfin).
      clear Hfin. subst s'.
      pose proof (persist_data_keeps _ _ _ E6) as (_ & _ & _ & _ & _ & Hea & _).
      apply persist_data_accounts in E6 as ((added & Hst & Hsym & Hcount) & Hlen).
      rewrite Hd5, Hs5 in *. rewrite Hc5 in Hcount. rewrite upper_idem in Hsym.
      exists added. split_and!; [done| |done| |].
      + destruct Hcount as [?|[-> ?]]; done.
      + lia.
      + unfold counted in Hcounted. rewrite Hcounted.
        destruct Hitems as [Hnil|Hmap].
        * rewrite <- Hea, Hnil in Hlen. simpl in Hlen. lia.
        * rewrite <- Hmap, length_map, Hea. lia.
    - intros [= <- _]. exists []. rewrite app_nil_r, Hd5.
      split_and!; [done|done|by apply Forall_nil|lia|lia]. }
  destruct (run_plan the_plan (started utcnow s0)) as [s' [[]|e]] eqn:E;
    destruct (Hall _ _ eq_refl) as (added & H1 & H2 & H3 & H4);
    (eexists _, _, added; split; [reflexivity|]); simpl; done.
Qed.

End Run.

(** A stored company with a name and a sector, and a run for it while the
    provider knows nothing: the run completes and the row now carries the
    symbol for a name. *)
Lemma provider_outage_overwrites_company_witness :
  ∃ sf r row,
    run_pipeline Scenarios.no_overview Scenarios.no_prices
      (Scenarios.news_of [Scenarios.upbeat]) Scenarios.fallback_enricher
      Scenarios.fixed_summary Scenarios.ticking "aapl" default_options
      Scenarios.apple_db 0 = (sf, Ok r)
    ∧ PipelineResult.status r = "completed"
    ∧ CompanyDB.name Scenarios.apple_row = PStr "Apple"
    ∧ get_company (database sf) "aapl" = Some row
    ∧ CompanyDB.name row = PStr "AAPL"
    ∧ CompanyDB.sector row = PStr "Unknown".
Proof.
  destruct (provider_outage_overwrites_company Scenarios.no_overview Scenarios.no_prices
              (Scenarios.news_of [Scenarios.upbeat]) Scenarios.fallback_enricher
              Scenarios.fixed_summary Scenarios.ticking
              "aapl" default_options Scenarios.apple_db 0 Scenarios.apple_row)
    as (sf & r & Hrun & Hrow).
  - left. reflexivity.
  - reflexivity.
  - assert (Hdone : PipelineResult.status r = "completed").
    { vm_compute in Hrun. injection Hrun as _ Hr. rewrite <- Hr. reflexivity. }
    destruct (Hrow Hdone) as (row & Hget & _ & Hname & Hsector & _).
    exists sf, r, row. split; [exact Hrun|]. split; [exact Hdone|].
    split; [reflexivity|]. split; [exact Hget|]. split; [exact Hname|exact Hsector].
Defined.

End RunFacts.

(** ** Theorems: batches of runs *)

Module BatchFacts.
Import DataSources Enrichment Database Pipeline PyFacts PipelineFacts RunNotions Batch RunFacts.

Section Batch.

Variable during : nat → services.
Variable utcnow : nat → Z.

Lemma run_batch_from_settles symbols (opts : options) : ∀ k d ticks,
  ∃ d' ticks' results,
    run_batch_from during utcnow k symbols opts d ticks = (d', ticks', Ok results)
    ∧ map PipelineResult.symbol results = map upper symbols
    ∧ Forall settled results.
Proof.
  induction symbols as [|symbol rest IH]; intros k d ticks.
  - exists d, ticks, []. split_and!; [done|done|by apply Forall_nil].
  - cbn [run_batch_from]. unfold run_pipeline.
    destruct (run_settles (company_overview (during k)) (stock_prices (during k))
                (news (during k)) (analysis (during k)) (summary (during k)) utcnow
                (init utcnow symbol opts d ticks))
      as (sf & -> & Hsym & _ & Hdone & Hstatus).
    destruct (IH (S k) (database sf) (clock sf)) as (d' & ticks' & results & -> & Hs & Hall).
    exists d', ticks', (result sf :: results). split_and!; [done| |].
    + cbn [map]. by rewrite Hsym, Hs.
    + apply Forall_cons. split; [|done]. split; [done|]. exact Hstatus.
Qed.

(** X24.  [run_batch_pipeline] never raises.  It returns one result
    per symbol, in the order of the symbols, each with its symbol in upper
    case and settled: completed with no error or failed with one, the
    completion time set.  A run that fails does not keep the later ones from
    running. *)
Theorem batch_returns_a_result_per_symbol (symbols : list string) (opts : options)
  (d : db) (ticks : nat) :
  ∃ d' ticks' results,
    run_batch_pipeline during utcnow symbols opts d ticks = (d', ticks', Ok results)
    ∧ length results = length symbols
    ∧ map PipelineResult.symbol results = map upper symbols
    ∧ Forall settled results.
Proof.
  destruct (run_batch_from_settles symbols opts 0 d ticks)
    as (d' & ticks' & results & Hrun & Hs & Hall).
  exists d', ticks', results. split_and!; try done.
  by rewrite <- (length_map PipelineResult.symbol), Hs, length_map.
Qed.

End Batch.

End BatchFacts.

(** ** Theorems: the news cache *)

Module NewsCacheFacts.
Import DataSources CacheFacts NewsFacts.

(** A fresh, non-empty entry is returned as it is. *)
Lemma fetch_news_hit (key : string) (newsapi : string → Z → Z → Z → outcome news_response)
  (_cache : gmap string (list Article.t * Z)) (utcnow : nat → Z)
  (company_name symbol : string) (days_ max_articles : Z)
  (a : Article.t) (l : list Article.t) (t : Z) :
  truthy_str key = true →
  _cache !! ("news_" +:+ symbol +:+ "_" +:+ pretty days_) = Some (a :: l, t) →
  (utcnow 0%nat - t < seconds CACHE_TTL)%Z →
  fetch_news_articles key newsapi _cache utcnow company_name symbol days_ max_articles
  = (_cache, a :: l).
Proof.
  intros Hkey Hc Hfresh. unfold fetch_news_articles, _get_cached.
  rewrite Hkey, Hc. cbn [negb].
  by rewrite (proj2 (Z.ltb_lt _ _) Hfresh).
Qed.

(** Without a fresh, non-empty entry the provider is asked, whatever the
    cache holds. *)
Lemma fetch_news_miss (key : string) (newsapi : string → Z → Z → Z → outcome news_response)
  (_cache : gmap string (list Article.t * Z)) (utcnow : nat → Z)
  (company_name symbol : string) (days_ max_articles : Z) :
  truthy_str key = true →
  (_get_cached _cache (utcnow 0) ("news_" +:+ symbol +:+ "_" +:+ pretty days_)).2 = None
  ∨ (_get_cached _cache (utcnow 0) ("news_" +:+ symbol +:+ "_" +:+ pretty days_)).2
    = Some [] →
  fetch_news_articles key newsapi _cache utcnow company_name symbol days_ max_articles
  = match newsapi (dquote +:+ company_name +:+ dquote +:+ " OR "
                     +:+ dquote +:+ symbol +:+ dquote)
            (utcnow 1%nat - days days_)%Z (utcnow 1%nat) max_articles with
    | Ok data =>
        if bool_decide (resp_status data = Some "ok")
        then (_set_cache _cache (utcnow 2)
                ("news_" +:+ symbol +:+ "_" +:+ pretty days_) (resp_articles data),
              resp_articles data)
        else (_cache, _get_mock_news (λ i, utcnow (2 + i)) company_name symbol)
    | Raise _ => (_cache, _get_mock_news (λ i, utcnow (2 + i)) company_name symbol)
    end.
Proof.
  intros Hkey Hmiss. unfold fetch_news_articles. rewrite Hkey. cbn [negb].
  pose proof (get_cached_keeps _cache (utcnow 0)
                ("news_" +:+ symbol +:+ "_" +:+ pretty days_)) as Hkeep.
  destruct (_get_cached _cache (utcnow 0) _) as [c cached]. simpl in *. subst c.
  by destruct Hmiss as [-> | ->].
Qed.

(** X25.  With a news credential, let a call find nothing fresh in the
    cache and the provider answer with status "ok".  The call returns the
    provider's articles.  A later call for the same symbol and number of
    days, made within 300 seconds, returns the same articles and leaves the
    cache as it is, whatever company name, page size and provider it is
    given, if there is at least one article; an empty answer is never served
    from the cache: the later call then returns what it returns on an empty
    cache. *)
Theorem cached_news_ignore_name_and_page_size
  (key : string) (newsapi newsapi' : string → Z → Z → Z → outcome news_response)
  (_cache : gmap string (list Article.t * Z)) (utcnow utcnow' : nat → Z)
  (company_name company_name' symbol : string) (days_ max_articles max_articles' : Z)
  (data : news_response) :
  truthy_str key = true →
  (_get_cached _cache (utcnow 0) ("news_" +:+ symbol +:+ "_" +:+ pretty days_)).2 = None →
  newsapi (dquote +:+ company_name +:+ dquote +:+ " OR " +:+ dquote +:+ symbol +:+ dquote)
    (utcnow 1%nat - days days_)%Z (utcnow 1%nat) max_articles = Ok data →
  resp_status data = Some "ok" →
  (utcnow' 0%nat - utcnow 2%nat < seconds CACHE_TTL)%Z →
  let first := fetch_news_articles key newsapi _cache utcnow company_name symbol
                 days_ max_articles in
  let second := fetch_news_articles key newsapi' first.1 utcnow' company_name' symbol
                  days_ max_articles' in
  first.2 = resp_articles data
  ∧ (resp_articles data ≠ [] → second = (first.1, resp_articles data))
  ∧ (resp_articles data = [] →
     second.2 = (fetch_news_articles key newsapi' ∅ utcnow' company_name' symbol
                   days_ max_articles').2).
Proof.
  intros Hkey Hmiss Hreply Hok Hfresh first second.
  assert (Hfirst : first
            = (_set_cache _cache (utcnow 2) ("news_" +:+ symbol +:+ "_" +:+ pretty days_)
                 (resp_articles data), resp_articles data)).
  { unfold first. rewrite fetch_news_miss by (by try left).
    rewrite Hreply. by rewrite bool_decide_eq_true_2. }
  assert (Hentry : first.1 !! ("news_" +:+ symbol +:+ "_" +:+ pretty days_)
                   = Some (resp_articles data, utcnow 2)).
  { rewrite Hfirst. unfold _set_cache. simpl. by rewrite lookup_insert_eq. }
  split; [by rewrite Hfirst|]. split.
  - intros Hsome. unfold second.
    destruct (resp_articles data) as [|a l] eqn:Ea; [done|].
    by apply (fetch_news_hit _ _ _ _ _ _ _ _ a l (utcnow 2)).
  - intros Hnil. unfold second. rewrite Hnil in Hentry.
    rewrite !fetch_news_miss; try done.
    + by destruct (newsapi' _ _ _ _) as [reply|e]; [destruct (bool_decide _)|].
    + left. unfold _get_cached. by rewrite lookup_empty.
    + right. apply get_cached_Some. by exists (utcnow 2).
Qed.

Lemma cached_news_ignore_name_and_page_size_witness :
  let first := fetch_news_articles "k" NewsScenarios.newsapi_one ∅ Scenarios.ticking
                 "Acme" "ACME" 7 10 in
  first.2 = [Scenarios.upbeat]
  ∧ fetch_news_articles "k" Scenarios.newsapi_down first.1 Scenarios.ticking
      "Acme Corporation" "ACME" 7 1
    = (first.1, [Scenarios.upbeat]).
Proof.
  destruct (cached_news_ignore_name_and_page_size "k" NewsScenarios.newsapi_one
              Scenarios.newsapi_down ∅ Scenarios.ticking Scenarios.ticking
              "Acme" "Acme Corporation" "ACME" 7 10 1
              {| resp_status := Some "ok"; resp_articles := [Scenarios.upbeat] |})
    as (Hfirst & Hsecond & _).
  - reflexivity.
  - reflexivity.
  - reflexivity.
  - reflexivity.
  - reflexivity.
  - split; [exact Hfirst|]. apply Hsecond. discriminate.
Defined.

End NewsCacheFacts.

(** ** Theorems: the ingestion handlers *)

Module ApiFacts.
Import DataSources Enrichment Database Pipeline PyFacts PipelineFacts RunNotions Api RunFacts.

Lemma ingest_company_cases (request : IngestRequest.t)
  (pipeline_status : gmap string PipelineResult.t) (utcnow : Z) :
  let symbol := upper (IngestRequest.symbol request) in
  (∃ r, pipeline_status !! symbol = Some r
        ∧ PipelineResult.status r = "running"
        ∧ ingest_company request pipeline_status utcnow
          = (pipeline_status,
             AlreadyRunning ("Pipeline already running for " +:+ symbol) r, None))
  ∨ ((∀ r, pipeline_status !! symbol = Some r → PipelineResult.status r ≠ "running")
     ∧ ingest_company request pipeline_status utcnow
       = (<[symbol := PipelineResult.Make "running" symbol [] None None utcnow None 0 0 0]>
            pipeline_status,
          Started ("Pipeline started for " +:+ symbol) ("/api/status/" +:+ symbol),
          Some (symbol, request_options request))).
Proof.
  intros symbol. unfold ingest_company. fold symbol.
  destruct (pipeline_status !! symbol) as [running|] eqn:E.
  - destruct (String.eqb_spec (PipelineResult.status running) "running") as [Hr|Hr].
    + left. by exists running.
    + right. split; [|done]. by intros r [= <-].
  - right. split; [|done]. by intros r [=].
Qed.

(** X26.  After [ingest_company] the status dict holds a "running"
    result under the symbol in upper case, its other entries being as
    before.  The handler schedules no task exactly when a "running" result
    was there already, and it then leaves the dict as it is; a task it does
    schedule is for the symbol in upper case with the options of the request.
    A further request for the symbol, in any letter case, schedules no second
    run and is answered with the running result, which is also what
    [get_pipeline_status] answers. *)
Theorem ingest_starts_one_run_at_a_time (request : IngestRequest.t)
  (pipeline_status : gmap string PipelineResult.t) (utcnow : Z) :
  let symbol := upper (IngestRequest.symbol request) in
  let '(status1, body, task) := ingest_company request pipeline_status utcnow in
  (∃ r, status1 !! symbol = Some r ∧ PipelineResult.status r = "running")
  ∧ (∀ key, key ≠ symbol → status1 !! key = pipeline_status !! key)
  ∧ (task = None ↔
     ∃ r, pipeline_status !! symbol = Some r ∧ PipelineResult.status r = "running")
  ∧ (task = None → status1 = pipeline_status)
  ∧ (∀ task', task = Some task' → task' = (symbol, request_options request))
  ∧ (∀ request' utcnow',
       upper (IngestRequest.symbol request') = symbol →
       ∃ message r,
         ingest_company request' status1 utcnow' = (status1, AlreadyRunning message r, None)
         ∧ get_pipeline_status (IngestRequest.symbol request') status1 = Body r).
Proof.
  intros symbol.
  assert (Hagain : ∀ (m : gmap string PipelineResult.t) r request' utcnow',
            m !! symbol = Some r → PipelineResult.status r = "running" →
            upper (IngestRequest.symbol request') = symbol →
            ∃ message r,
              ingest_company request' m utcnow' = (m, AlreadyRunning message r, None)
              ∧ get_pipeline_status (IngestRequest.symbol request') m = Body r).
  { intros m r request' utcnow' Hm Hr Hs. unfold ingest_company, get_pipeline_status.
    rewrite Hs, Hm, Hr. simpl. eauto. }
  pose proof (ingest_company_cases request pipeline_status utcnow) as Hcases.
  cbv zeta in Hcases. fold symbol in Hcases.
  destruct Hcases as [(r & Hr & Hrun & ->)|[Hnot ->]].
  - split_and!; eauto.
    + split; [eauto|done].
    + done.
  - split_and!.
    + eexists. by rewrite lookup_insert_eq.
    + intros key Hk. by rewrite lookup_insert_ne.
    + split; [done|]. intros (r & Hr & Hrun). by destruct (Hnot r Hr).
    + done.
    + by intros task' [= <-].
    + intros request' utcnow' Hs.
      eapply Hagain; [by rewrite lookup_insert_eq|done|done].
Qed.

Section Tasks.

Variable fetch_company_overview : string → outcome (option (gmap string pyval)).
Variable fetch_stock_data : string → Z → outcome (list StockRecord.t).
Variable fetch_news_articles : pyval → string → Z → Z → outcome (list Article.t).
Variable enrich_news_article : nat → Article.t → pyval → outcome enrichment.
Variable generate_company_summary :
  gmap string pyval → list Article.t → outcome string.
Variable utcnow : nat → Z.

#[local] Abbreviation the_task :=
  (run_and_store fetch_company_overview fetch_stock_data fetch_news_articles
     enrich_news_article generate_company_summary utcnow).

(** X27.  When the task of a started ingestion has run, which it does
    without raising, [get_pipeline_status] answers for the symbol with the
    result of the run; the result is for the symbol in upper case and is
    settled, so no longer "running"; the other entries of the status dict are
    as they were before the request; and a new request for the symbol starts
    a new run. *)
Theorem finished_run_frees_the_symbol (request : IngestRequest.t)
  (pipeline_status : gmap string PipelineResult.t) (now : Z) (d : db) (ticks : nat)
  (task : string * options) :
  (ingest_company request pipeline_status now).2 = Some task →
  let symbol := upper (IngestRequest.symbol request) in
  let status1 := (ingest_company request pipeline_status now).1.1 in
  ∃ status2 d2 ticks2 r,
    the_task task status1 d ticks = (status2, d2, ticks2, Ok tt)
    ∧ get_pipeline_status (IngestRequest.symbol request) status2 = Body r
    ∧ PipelineResult.symbol r = symbol
    ∧ settled r
    ∧ (∀ key, key ≠ symbol → status2 !! key = pipeline_status !! key)
    ∧ (∀ request' now',
         upper (IngestRequest.symbol request') = symbol →
         (ingest_company request' status2 now').2
         = Some (symbol, request_options request')).
Proof.
  intros Htask symbol status1. unfold status1. clear status1. revert Htask.
  pose proof (ingest_company_cases request pipeline_status now) as Hcases.
  cbv zeta in Hcases. fold symbol in Hcases.
  destruct Hcases as [(r & Hr & Hrun & ->)|[Hnot ->]]; [done|].
  intros [= <-]. cbn [fst snd]. unfold run_and_store, run_pipeline. cbn [fst snd].
  destruct (run_settles fetch_company_overview fetch_stock_data fetch_news_articles
              enrich_news_article generate_company_summary utcnow
              (init utcnow symbol (request_options request) d ticks))
    as (sf & -> & Hsym & _ & Hdone & Hstatus).
  assert (Hup : upper symbol = symbol) by apply upper_idem.
  simpl in Hsym. rewrite Hup in Hsym.
  eexists _, _, _, (result sf). split_and!.
  - reflexivity.
  - unfold get_pipeline_status. fold symbol. by rewrite lookup_insert_eq.
  - exact Hsym.
  - split; [done|]. destruct Hstatus as [[? ?]|[? ?]]; [by left|by right].
  - intros key Hk. by rewrite !lookup_insert_ne.
  - intros request' now' Hs.
    pose proof (ingest_company_cases request' (<[symbol := result sf]>
                (<[symbol := PipelineResult.Make "running" symbol [] None None now None 0 0 0]>
                   pipeline_status)) now') as Hcases.
    cbv zeta in Hcases. rewrite Hs in Hcases.
    destruct Hcases as [(r & Hr & Hrun & _)|[_ ->]].
    + rewrite lookup_insert_eq in Hr. injection Hr as <-.
      destruct Hstatus as [[E _]|[E _]]; rewrite E in Hrun; discriminate.
    + done.
Qed.

End Tasks.

(** A first request for a symbol: the run completes, and the status then
    answers with its result. *)
Lemma finished_run_frees_the_symbol_witness :
  ∃ status2 d2 ticks2 r,
    run_and_store Scenarios.no_overview Scenarios.no_prices
      (Scenarios.news_of [Scenarios.upbeat]) Scenarios.fallback_enricher
      Scenarios.fixed_summary Scenarios.ticking
      ("ACME", default_options)
      (ingest_company (IngestRequest.Make "acme" true true true) ∅ 0).1.1 empty_db 0
    = (status2, d2, ticks2, Ok tt)
    ∧ get_pipeline_status "acme" status2 = Body r
    ∧ PipelineResult.symbol r = "ACME"
    ∧ settled r.
Proof.
  destruct (finished_run_frees_the_symbol Scenarios.no_overview Scenarios.no_prices
              (Scenarios.news_of [Scenarios.upbeat]) Scenarios.fallback_enricher
              Scenarios.fixed_summary Scenarios.ticking
              (IngestRequest.Make "acme" true true true) ∅ 0 empty_db 0
              ("ACME", default_options))
    as (status2 & d2 & ticks2 & r & Hrun & Hget & Hsym & Hsettled & _).
  - reflexivity.
  - exists status2, d2, ticks2, r. split; [exact Hrun|]. split; [exact Hget|].
    split; [exact Hsym|exact Hsettled].
Defined.

End ApiFacts.
